(** * SearchBot: the protocol session engine of [searchbot.py]

    A shallow embedding of the rate limiter, the line framer, the command
    dispatcher, the outbound writer and the search gate of the IRC search
    bot, then of its result formatter, its connection handshake and its
    main loop, followed by the properties proved about them.

    Conventions of the embedding:
    - a Python [str] is a list of Unicode code points ([N]); [len] is
      [length], [s[:n]] is [firstn n s] and [s[n:]] is [skipn n s];
    - [bytes] are lists of [Byte.byte]; [bytes.decode("UTF-8")] is the strict
      decoder [Utf8.decode];
    - a [datetime] is an integer number of microseconds (the resolution of
      [datetime.now()]), a [timedelta] likewise;
    - [time.sleep] arguments are milliseconds. *)

From Stdlib Require Import String Ascii DecimalString.
From Stdlib.Strings Require Import Byte.
From Stdlib Require Import List ZArith NArith Lia Bool Sorted.
Import ListNotations.

Local Open Scope Z_scope.

(* ===================================================================== *)
(** * Part I: definitions *)
(* ===================================================================== *)

(** ** RateLimiter (lines 18-38) *)

Definition timedelta_minutes (n : Z) : Z := n * 60000000.
Definition timedelta_days (n : Z) : Z := n * 86400000000.

(** [len(deque)] as a Python integer. *)
Definition len {A : Type} (w : list A) : Z := Z.of_nat (length w).

Record RateLimiter : Type := mkRateLimiter {
  requests_per_minute : Z;
  requests_per_day : Z;
  minute_window : list Z;
  day_window : list Z
}.

(** [RateLimiter.__init__]: two empty deques. *)
Definition RateLimiter_init (per_minute per_day : Z) : RateLimiter :=
  mkRateLimiter per_minute per_day [] [].

(** [while window and window[0] < cutoff: window.popleft()] *)
Fixpoint popleft_while_older (cutoff : Z) (window : list Z) : list Z :=
  match window with
  | [] => []
  | t :: rest =>
      if t <? cutoff then popleft_while_older cutoff rest else window
  end.

(** [can_make_request]: the pruned limiter and the returned boolean. [now]
    is the value read from [datetime.now()]. *)
Definition can_make_request (rl : RateLimiter) (now : Z) : RateLimiter * bool :=
  let mw := popleft_while_older (now - timedelta_minutes 1) (minute_window rl) in
  let dw := popleft_while_older (now - timedelta_days 1) (day_window rl) in
  (mkRateLimiter (requests_per_minute rl) (requests_per_day rl) mw dw,
   (len mw <? requests_per_minute rl) && (len dw <? requests_per_day rl)).

(** [add_request]: append [now] to both deques, unconditionally. *)
Definition add_request (rl : RateLimiter) (now : Z) : RateLimiter :=
  mkRateLimiter (requests_per_minute rl) (requests_per_day rl)
                (minute_window rl ++ [now]) (day_window rl ++ [now]).

(** *** Call sequences on a limiter *)

Inductive Call : Type :=
| CanMakeRequest (now : Z)
| AddRequest (now : Z).

Definition call_time (c : Call) : Z :=
  match c with CanMakeRequest now => now | AddRequest now => now end.

Definition step (rl : RateLimiter) (c : Call) : RateLimiter :=
  match c with
  | CanMakeRequest now => fst (can_make_request rl now)
  | AddRequest now => add_request rl now
  end.

Definition run_calls (rl : RateLimiter) (calls : list Call) : RateLimiter :=
  fold_left step calls rl.

(** The timestamps recorded by a call sequence, oldest first. *)
Fixpoint recorded (calls : list Call) : list Z :=
  match calls with
  | [] => []
  | CanMakeRequest _ :: cs => recorded cs
  | AddRequest now :: cs => now :: recorded cs
  end.

(** The clock read by successive calls never goes back; [last] is the
    previous reading. *)
Fixpoint clock_from (last : Z) (calls : list Call) : bool :=
  match calls with
  | [] => true
  | c :: cs => (last <=? call_time c) && clock_from (call_time c) cs
  end.

Definition nondecreasing_clock (calls : list Call) : bool :=
  match calls with
  | [] => true
  | c :: cs => clock_from (call_time c) cs
  end.

(** The time of the last call of a sequence ([start] when there is none). *)
Definition last_time (start : Z) (calls : list Call) : Z :=
  fold_left (fun _ c => call_time c) calls start.

(** The calling discipline of [handle_private_message]: every [add_request]
    comes directly after a [can_make_request] that returned [True]. [armed]
    tells whether the previous call was such a check. *)
Fixpoint gated (rl : RateLimiter) (armed : bool) (calls : list Call) : bool :=
  match calls with
  | [] => true
  | CanMakeRequest now :: cs =>
      gated (fst (can_make_request rl now)) (snd (can_make_request rl now)) cs
  | AddRequest now :: cs => armed && gated (add_request rl now) false cs
  end.

(** Number of timestamps of [ts] in the trailing span [[now - span, now]]. *)
Definition count_within (span now : Z) (ts : list Z) : Z :=
  len (filter (fun t => (now - span <=? t) && (t <=? now)) ts).

(** [suffix_of s w]: [s] is a contiguous suffix of [w]. *)
Definition suffix_of (s w : list Z) : Prop := exists front, w = front ++ s.


(** The shape of the two deques that the operations maintain; [last] is the
    latest clock reading. *)
Definition windows_ok (last : Z) (rl : RateLimiter) : Prop :=
  suffix_of (minute_window rl) (day_window rl) /\
  StronglySorted Z.le (minute_window rl) /\
  StronglySorted Z.le (day_window rl) /\
  Forall (fun t => t <= last) (day_window rl).

(** What a gated limiter knows about the timestamps [hist] recorded so far:
    each deque holds a suffix of them, whatever was popped had already left
    the trailing span at time [last], and an approved check leaves room for
    one more timestamp. *)
Definition budget_ok (last : Z) (armed : bool) (hist : list Z)
    (rl : RateLimiter) : Prop :=
  (exists gone, hist = gone ++ minute_window rl /\
                Forall (fun t => t < last - timedelta_minutes 1) gone) /\
  (exists gone, hist = gone ++ day_window rl /\
                Forall (fun t => t < last - timedelta_days 1) gone) /\
  len (minute_window rl) + (if armed then 1 else 0) <= requests_per_minute rl /\
  len (day_window rl) + (if armed then 1 else 0) <= requests_per_day rl.

(** ** Python strings *)

Definition char : Type := N.
Definition str : Type := list char.

(** A literal: the code points of an ASCII string. *)
Definition py (s : string) : str := map N_of_ascii (list_ascii_of_string s).
Arguments py s%_string.

Fixpoint str_eqb (a b : str) : bool :=
  match a, b with
  | [], [] => true
  | x :: a', y :: b' => N.eqb x y && str_eqb a' b'
  | _, _ => false
  end.

(** [s.startswith(prefix)] *)
Fixpoint startswith (s prefix : str) {struct prefix} : bool :=
  match prefix, s with
  | [], _ => true
  | p :: prefix', c :: s' => N.eqb c p && startswith s' prefix'
  | _ :: _, [] => false
  end.

(** [sub in s] *)
Fixpoint contains (s sub : str) : bool :=
  startswith s sub ||
  match s with
  | [] => false
  | _ :: s' => contains s' sub
  end.

(** [c.isspace()] for one code point: the characters that [strip],
    [lstrip] and [split()] treat as whitespace. *)
Definition isspace (c : char) : bool :=
  ((9 <=? c) && (c <=? 13) || (28 <=? c) && (c <=? 32) ||
   (c =? 133) || (c =? 160) || (c =? 5760) ||
   (8192 <=? c) && (c <=? 8202) || (c =? 8232) || (c =? 8233) ||
   (c =? 8239) || (c =? 8287) || (c =? 12288))%N.

(** [s.lstrip()], [s.rstrip()], [s.strip()] *)
Fixpoint lstrip (s : str) : str :=
  match s with
  | [] => []
  | c :: s' => if isspace c then lstrip s' else s
  end.

Definition rstrip (s : str) : str := rev (lstrip (rev s)).

Definition strip (s : str) : str := rstrip (lstrip s).

(** The first occurrence of [sep] in [s]: the text before it and the text
    after it. *)
Fixpoint cut (sep s : str) : option (str * str) :=
  if startswith s sep then Some ([], skipn (length sep) s)
  else match s with
       | [] => None
       | c :: s' =>
           match cut sep s' with
           | Some (before, after) => Some (c :: before, after)
           | None => None
           end
       end.

(** [s.split(sep)] for a non-empty [sep] (Python raises [ValueError] on an
    empty one; the program only passes literals). Each cut shortens the
    text, so [len(s)] rounds are enough. *)
Fixpoint split_rounds (rounds : nat) (s sep : str) : list str :=
  match cut sep s with
  | None => [s]
  | Some (before, after) =>
      match rounds with
      | O => [s]
      | S rounds' => before :: split_rounds rounds' after sep
      end
  end.

Definition split (s sep : str) : list str := split_rounds (length s) s sep.

(** [s.split(sep, 1)] *)
Definition split1 (s sep : str) : list str :=
  match cut sep s with
  | None => [s]
  | Some (before, after) => [before; after]
  end.

(** [s.split()]: the maximal runs of non-whitespace; [word] is the run being
    read, reversed. *)
Fixpoint split_whitespace_from (word : str) (s : str) : list str :=
  match s with
  | [] => match word with [] => [] | _ => [rev word] end
  | c :: s' =>
      if isspace c then
        match word with
        | [] => split_whitespace_from [] s'
        | _ => rev word :: split_whitespace_from [] s'
        end
      else split_whitespace_from (c :: word) s'
  end.

Definition split_whitespace (s : str) : list str := split_whitespace_from [] s.

(** [s.rfind(c)] for a one-character [c]: the highest index, or [-1]. *)
Fixpoint rfind (s : str) (c : char) : Z :=
  match s with
  | [] => -1
  | x :: s' =>
      let r := rfind s' c in
      if 0 <=? r then r + 1 else if N.eqb x c then 0 else -1
  end.

(** ** UTF-8 decoding: [bytes.decode("UTF-8")] *)

Module Utf8.

(** The decoder is either at a character boundary or inside a multi-byte
    character: [more] continuation bytes are still awaited after the next
    one, which must lie in [[lo, hi]]; [acc] holds the bits read so far. *)
Inductive state : Type :=
| Boundary
| Inside (more : nat) (acc : N) (lo hi : N).

(** [None] is [UnicodeDecodeError]: an invalid start byte, an invalid
    continuation byte (overlong forms, surrogates and code points above
    U+10FFFF included), or an unexpected end of data. *)
Fixpoint decode_from (st : state) (bs : list byte) : option str :=
  match bs with
  | [] => match st with Boundary => Some [] | Inside _ _ _ _ => None end
  | b :: bs' =>
      let n := Byte.to_N b in
      match st with
      | Boundary =>
          (if n <? 128 then option_map (cons n) (decode_from Boundary bs')
           else if (194 <=? n) && (n <=? 223)
                then decode_from (Inside 0 (n - 192) 128 191) bs'
           else if n =? 224 then decode_from (Inside 1 0 160 191) bs'
           else if (225 <=? n) && (n <=? 236) || (238 <=? n) && (n <=? 239)
                then decode_from (Inside 1 (n - 224) 128 191) bs'
           else if n =? 237 then decode_from (Inside 1 13 128 159) bs'
           else if n =? 240 then decode_from (Inside 2 0 144 191) bs'
           else if (241 <=? n) && (n <=? 243)
                then decode_from (Inside 2 (n - 240) 128 191) bs'
           else if n =? 244 then decode_from (Inside 2 4 128 143) bs'
           else None)%N
      | Inside more acc lo hi =>
          (if (lo <=? n) && (n <=? hi) then
             let acc' := acc * 64 + (n - 128) in
             match more with
             | O => option_map (cons acc') (decode_from Boundary bs')
             | S more' => decode_from (Inside more' acc' 128 191) bs'
             end
           else None)%N
      end
  end.

Definition decode (bs : list byte) : option str := decode_from Boundary bs.

End Utf8.

(** ** Line framing (lines 323-325 and 351-353 of [run]) *)

Definition CRLF : str := [13%N; 10%N].

(** One pass of the receive loop on one [recv] result:
    [buffer += chunk.decode("UTF-8"); lines = buffer.split("\r\n");
    buffer = lines.pop()], and [buffer = ""] with no line produced on
    [UnicodeDecodeError]. Returns the complete lines and the new buffer. *)
Definition feed (buffer : str) (chunk : list byte) : list str * str :=
  match Utf8.decode chunk with
  | None => ([], [])
  | Some text =>
      let lines := split (buffer ++ text) CRLF in
      (removelast lines, last lines [])
  end.

(** Successive passes over successive chunks. *)
Fixpoint feed_all (buffer : str) (chunks : list (list byte)) : list str * str :=
  match chunks with
  | [] => ([], buffer)
  | chunk :: rest =>
      let (lines, buffer') := feed buffer chunk in
      let (lines', buffer'') := feed_all buffer' rest in
      (lines ++ lines', buffer'')
  end.

(** ** Effects *)

(** What the bot does to the outside world, and the one internal step whose
    position among them matters. *)
Inductive Action : Type :=
| Sent (line : str)        (** [self.send(line)]: [line + "\r\n"] as UTF-8
                               handed to [self.irc.send] *)
| Slept (ms : Z)           (** [time.sleep] *)
| Searched (query : str)   (** the [requests.get] call to the search API *)
| Recorded (now : Z).      (** [rate_limiter.add_request()] *)

Inductive Exn : Type :=
| IndexError
| ValueError
| FormatError.   (** anything raised by [format_search_result] *)

(** What the search API can answer to the request of [search_hearch]. [R] is
    the type of one element of the ['results'] value. *)
Inductive ResultsField (R : Type) : Type :=
| ResultsMissing             (** no ['results'] key *)
| ResultsList (rs : list R)  (** a value that can be sliced and iterated *)
| ResultsOther.              (** [null], a number, an object *)
Arguments ResultsMissing {R}.
Arguments ResultsList {R} rs.
Arguments ResultsOther {R}.

Inductive Body (R : Type) : Type :=
| BodyNotJson                            (** [response.json()] raises *)
| BodyNotObject                          (** valid JSON without [.get] *)
| BodyObject (results : ResultsField R).
Arguments BodyNotJson {R}.
Arguments BodyNotObject {R}.
Arguments BodyObject {R} results.

Inductive Response (R : Type) : Type :=
| RequestFailed   (** [requests.get] raised: timeout, connection error *)
| Replied (status_code : Z) (body : Body R).
Arguments RequestFailed {R}.
Arguments Replied {R} status_code body.

(** The environment of a run. Every interaction with it (a clock reading, an
    API request) takes the next tick. The result formatter (lines 223-258)
    is a parameter: [None] when it raises. *)
Record Env (R : Type) : Type := mkEnv {
  now : nat -> Z;
  hearch : nat -> str -> Response R;
  format_search_result : nat -> R -> option str
}.
Arguments now {R} e tick.
Arguments hearch {R} e tick query.
Arguments format_search_result {R} e index result.

(** The part of [SearchBot] that the session engine uses, and the number of
    ticks taken so far. *)
Record SearchBot : Type := mkSearchBot {
  nickname : str;
  channels : list str;
  rate_limiter : RateLimiter;
  ticks : nat
}.

Definition SearchBot_init : SearchBot :=
  mkSearchBot (py "SearchBot") [py "#test_room"] (RateLimiter_init 5 500) 0.

Inductive Outcome (A : Type) : Type :=
| Returned (a : A)
| Raised (e : Exn).
Arguments Returned {A} a.
Arguments Raised {A} e.

(** A method of the bot: from the bot's state to an outcome, the new state
    and the actions performed, in order. *)
Definition M (A : Type) : Type := SearchBot -> Outcome A * SearchBot * list Action.

Definition ret {A : Type} (a : A) : M A := fun bot => (Returned a, bot, []).

Definition raise {A : Type} (e : Exn) : M A := fun bot => (Raised e, bot, []).

Definition bind {A B : Type} (m : M A) (k : A -> M B) : M B :=
  fun bot =>
    match m bot with
    | (Returned a, bot1, acts1) =>
        match k a bot1 with
        | (r, bot2, acts2) => (r, bot2, acts1 ++ acts2)
        end
    | (Raised e, bot1, acts1) => (Raised e, bot1, acts1)
    end.

(** [try: m  except: handler] for the exceptions that [catches] selects. *)
Definition try_except {A : Type} (m : M A) (catches : Exn -> bool)
    (handler : M A) : M A :=
  fun bot =>
    match m bot with
    | (Raised e, bot1, acts1) =>
        if catches e then
          match handler bot1 with
          | (r, bot2, acts2) => (r, bot2, acts1 ++ acts2)
          end
        else (Raised e, bot1, acts1)
    | done => done
    end.

Declare Scope bot_scope.
Delimit Scope bot_scope with bot.
Notation "x <- m ;; k" := (bind m (fun x => k))
  (at level 61, m at next level, right associativity) : bot_scope.
Notation "m ;; k" := (bind m (fun _ => k))
  (at level 61, right associativity) : bot_scope.
Local Open Scope bot_scope.

Definition emit (a : Action) : M unit := fun bot => (Returned tt, bot, [a]).

Definition emit_all (acts : list Action) : M unit :=
  fun bot => (Returned tt, bot, acts).

(** Take the next tick. *)
Definition tick : M nat :=
  fun bot =>
    (Returned (ticks bot),
     mkSearchBot (nickname bot) (channels bot) (rate_limiter bot) (S (ticks bot)),
     []).

Definition get_bot : M SearchBot := fun bot => (Returned bot, bot, []).

Definition set_rate_limiter (rl : RateLimiter) : M unit :=
  fun bot =>
    (Returned tt, mkSearchBot (nickname bot) (channels bot) rl (ticks bot), []).

(** ** OutboundWriter (lines 96-126) *)

(** [send]: a failure of the socket is printed and swallowed, so the
    attempt is all there is to see. The conversion to bytes of line 99
    fails only on a text that holds a lone surrogate; what the bot builds
    from its literals and from decoded input holds none, text taken from
    the answer of the search API may ([wire_safe] excludes it). *)
Definition send (message : str) : M unit := emit (Sent message).

Definition sleep (ms : Z) : M unit := emit (Slept ms).

Definition privmsg (target payload : str) : str :=
  py "PRIVMSG " ++ target ++ py " :" ++ payload.

Definition SPACE : char := 32%N.

(** [split_point = message[:max_length].rfind(' ')], replaced by
    [max_length] when it is [-1]. *)
Definition split_point (max_length : nat) (message : str) : nat :=
  let p := rfind (firstn max_length message) SPACE in
  if p =? -1 then max_length else Z.to_nat p.

(** What the loop of [send_private_message] emits. *)
Inductive Piece : Type :=
| Chunk (payload : str)   (** one [PRIVMSG] with this payload *)
| Pause.                  (** [time.sleep(0.5)] *)

(** The loop [while message: ...] of lines 110-122, one round per unit of
    [fuel]; [None] when the fuel runs out before the loop ends. *)
Fixpoint chunk_message (fuel : nat) (max_length : nat) (message : str)
  : option (list Piece) :=
  match message with
  | [] => Some []
  | _ :: _ =>
      if (length message <=? max_length)%nat then Some [Chunk message]
      else
        match fuel with
        | O => None
        | S fuel' =>
            let p := split_point max_length message in
            match chunk_message fuel' max_length
                    (lstrip (skipn p message)) with
            | Some pieces => Some (Chunk (firstn p message) :: Pause :: pieces)
            | None => None
            end
        end
  end.

(** The whitespace that [lstrip] removed after each split, in order. *)
Fixpoint removed_whitespace (fuel : nat) (max_length : nat) (message : str)
  : list str :=
  match message with
  | [] => []
  | _ :: _ =>
      if (length message <=? max_length)%nat then []
      else
        match fuel with
        | O => []
        | S fuel' =>
            let rest := skipn (split_point max_length message) message in
            firstn (length rest - length (lstrip rest)) rest
              :: removed_whitespace fuel' max_length (lstrip rest)
        end
  end.

Definition payloads (pieces : list Piece) : list str :=
  flat_map (fun p => match p with Chunk c => [c] | Pause => [] end) pieces.

(** [weave chunks gaps]: the chunks in order, with the i-th gap put back
    after the i-th chunk. *)
Fixpoint weave (chunks gaps : list str) : str :=
  match chunks with
  | [] => []
  | c :: cs =>
      match gaps with
      | [] => c ++ weave cs []
      | g :: gs => c ++ g ++ weave cs gs
      end
  end.

Definition piece_action (target : str) (p : Piece) : Action :=
  match p with
  | Chunk payload => Sent (privmsg target payload)
  | Pause => Slept 500
  end.

Definition max_length : nat := 400.

(** [send_private_message]. Nothing inside its [try] can raise ([send]
    swallows its own failures), so its [except] branch is never taken. With
    [max_length = 400] the loop ends within [len(message)] rounds
    ([chunk_message_terminates]). *)
Definition send_private_message (target message : str) : M unit :=
  match chunk_message (length message) max_length message with
  | Some pieces => emit_all (map (piece_action target) pieces)
  | None => ret tt
  end.

(** ** SearchGate (lines 128-221 and 260-303) *)

Section Gate.

Context {R : Type}.
Variable env : Env R.

(** What [search_hearch] returns for a given answer of the API: the first
    five results of a 200 answer, and [[]] for anything else, every
    exception included. *)
Definition search_results (response : Response R) : list R :=
  match response with
  | RequestFailed => []
  | Replied status_code body =>
      if status_code =? 200 then
        match body with
        | BodyObject (ResultsList rs) => firstn 5 rs
        | BodyObject ResultsMissing => []
        | BodyObject ResultsOther => []
        | BodyNotObject => []
        | BodyNotJson => []
        end
      else []
  end.

Definition search_hearch (query : str) : M (list R) :=
  t <- tick ;;
  emit (Searched query) ;;
  ret (search_results (hearch env t query)).

(** [self.rate_limiter.can_make_request()] *)
Definition rate_limiter_can_make_request : M bool :=
  t <- tick ;;
  bot <- get_bot ;;
  set_rate_limiter (fst (can_make_request (rate_limiter bot) (now env t))) ;;
  ret (snd (can_make_request (rate_limiter bot) (now env t))).

(** [self.rate_limiter.add_request()] *)
Definition rate_limiter_add_request : M unit :=
  t <- tick ;;
  bot <- get_bot ;;
  set_rate_limiter (add_request (rate_limiter bot) (now env t)) ;;
  emit (Recorded (now env t)).

Definition RATE_LIMIT_NOTICE : str :=
  py "Rate limit exceeded. Please try again later.".
Definition USAGE_NOTICE : str := py "Usage: !search <query>".
Definition NO_RESULTS_NOTICE : str := py "No results found.".
Definition ERROR_NOTICE : str :=
  py "An error occurred processing your request.".
Definition HELP_NOTICE : str :=
  py "SearchBot Commands: !search <query> - Search the web privately (results sent via PM) | !help - Show this help message".
Definition ATTRIBUTION : str :=
  [3%N] ++ py "14Search results powered by " ++
  [3%N] ++ py "12https://hearch.co/" ++
  [3%N] ++ py "14 - Privacy-focused metasearch" ++ [15%N].

(** [for i, result in enumerate(results[:5], 1): ...] (lines 282-285) *)
Fixpoint send_results (sender : str) (i : nat) (results : list R) : M unit :=
  match results with
  | [] => ret tt
  | result :: rest =>
      match format_search_result env i result with
      | None => raise FormatError
      | Some formatted_result =>
          send_private_message sender formatted_result ;;
          sleep 500 ;;
          send_results sender (S i) rest
      end
  end.

Definition handle_private_message (sender message : str) : M unit :=
  try_except
    (if startswith message (py "!search ") then
       allowed <- rate_limiter_can_make_request ;;
       if negb allowed then send_private_message sender RATE_LIMIT_NOTICE
       else
         let query := strip (skipn 8 message) in
         match query with
         | [] => send_private_message sender USAGE_NOTICE
         | _ :: _ =>
             results <- search_hearch query ;;
             rate_limiter_add_request ;;
             match results with
             | [] => send_private_message sender NO_RESULTS_NOTICE
             | _ :: _ =>
                 send_results sender 1 (firstn 5 results) ;;
                 sleep 500 ;;
                 send_private_message sender ATTRIBUTION
             end
         end
     else if str_eqb message (py "!help") then
       send_private_message sender HELP_NOTICE
     else ret tt)
    (fun _ => true)
    (send_private_message sender ERROR_NOTICE).

(** ** CommandDispatcher (lines 305-349) *)

Definition CHANNEL_HELP_NOTICE : str :=
  py "SearchBot: Use !search <query> in a private message to search privately. Results will be sent to you directly.".
Definition CHANNEL_REDIRECT_NOTICE : str :=
  py ": To protect your privacy, please use search commands in a private message.".

Definition handle_channel_message (sender channel message : str) : M unit :=
  if str_eqb message (py "!help") then
    send (privmsg channel CHANNEL_HELP_NOTICE)
  else if startswith message (py "!search") then
    send (privmsg channel (sender ++ CHANNEL_REDIRECT_NOTICE))
  else ret tt.

Definition is_IndexError (e : Exn) : bool :=
  match e with IndexError => true | _ => false end.

(** The body of [for line in lines:] (lines 328-349). The subscript
    [line.split()[1]] is outside the inner [try]; inside it,
    [line.split("PRIVMSG ", 1)[1]] raises [IndexError] and the unpacking
    [target, message = msg_parts.split(":", 1)] raises [ValueError]. *)
Definition dispatch_line (line : str) : M unit :=
  (if startswith line (py "PING") then
     match nth_error (split_whitespace line) 1 with
     | None => raise IndexError
     | Some ping_token => send (py "PONG " ++ ping_token)
     end
   else ret tt) ;;
  if contains line (py "PRIVMSG") then
    let sender := skipn 1 (hd [] (split line (py "!"))) in
    try_except
      (match nth_error (split1 line (py "PRIVMSG ")) 1 with
       | None => raise IndexError
       | Some msg_parts =>
           match split1 msg_parts (py ":") with
           | [target; message] =>
               let target := strip target in
               let message := strip message in
               bot <- get_bot ;;
               if str_eqb target (nickname bot) then
                 handle_private_message sender message
               else if existsb (str_eqb target) (channels bot) then
                 handle_channel_message sender target message
               else ret tt
           | _ => raise ValueError
           end
       end)
      is_IndexError
      (ret tt)
  else ret tt.

Fixpoint dispatch_lines (lines : list str) : M unit :=
  match lines with
  | [] => ret tt
  | line :: rest => dispatch_line line ;; dispatch_lines rest
  end.

(** One pass of the inner [while True] of [run] (lines 321-353), inside the
    outer [try] (lines 317, 355-358): the new buffer when the session goes
    on; when an exception leaves the [for] loop, the outer handler sleeps 30
    seconds and [run] starts over with a new connection. *)
Inductive Session : Type :=
| Connected (buffer : str)
| Reconnecting.

Definition run_pass (buffer : str) (chunk : list byte) : M Session :=
  try_except
    (dispatch_lines (fst (feed buffer chunk)) ;;
     ret (Connected (snd (feed buffer chunk))))
    (fun _ => true)
    (sleep 30000 ;; ret Reconnecting).

End Gate.

(** Whether an action satisfying [p] comes before one satisfying [q]. *)
Fixpoint precedes (p q : Action -> bool) (acts : list Action) : bool :=
  match acts with
  | [] => false
  | a :: rest => p a && existsb q rest || precedes p q rest
  end.

Definition is_Sent (a : Action) : bool :=
  match a with Sent _ => true | _ => false end.
Definition is_Searched (a : Action) : bool :=
  match a with Searched _ => true | _ => false end.
Definition is_Recorded (a : Action) : bool :=
  match a with Recorded _ => true | _ => false end.

Definition count (p : Action -> bool) (acts : list Action) : nat :=
  length (filter p acts).

(** The pacing pattern of the loop: every chunk made by a split is followed
    by a pause, and a chunk may come last with none after it. *)
Fixpoint well_paced (pieces : list Piece) : bool :=
  match pieces with
  | [] => true
  | [Chunk _] => true
  | Chunk _ :: Pause :: rest => well_paced rest
  | _ => false
  end.

(** The number of pauses, which is the number of splits made. *)
Definition pauses (pieces : list Piece) : nat :=
  length (filter (fun p => match p with Pause => true | Chunk _ => false end)
                 pieces).

Definition ends_with_chunk (pieces : list Piece) : bool :=
  match last pieces Pause with
  | Chunk _ => true
  | Pause => false
  end.

(** Whether the search API failed to deliver results: the request raised,
    the status is not 200, or the body could not be read as expected. *)
Definition collaborator_failed {R : Type} (response : Response R) : bool :=
  match response with
  | RequestFailed => true
  | Replied status_code body =>
      negb (status_code =? 200) ||
      match body with
      | BodyNotJson | BodyNotObject | BodyObject ResultsOther => true
      | BodyObject ResultsMissing | BodyObject (ResultsList _) => false
      end
  end.

(** A reply to the user, or the pause after one. *)
Definition is_reply (a : Action) : bool :=
  match a with Sent _ | Slept _ => true | _ => false end.

(** The bot after its limiter was replaced and [n] more ticks were taken. *)
Definition bot_after (bot : SearchBot) (rl : RateLimiter) (n : nat) : SearchBot :=
  mkSearchBot (nickname bot) (channels bot) rl (n + ticks bot).

(** A whole day's quota, used up five requests a minute the way the handler
    makes them: request [k] is checked and recorded at [61 * (k / 5)]
    seconds. *)
Definition busy_day_calls : list Call :=
  flat_map (fun k => let t := Z.of_nat (k / 5) * 61000000 in
                     [CanMakeRequest t; AddRequest t])
           (seq 0 500).

(** An environment with a fixed clock and a search API that is down. *)
Definition frozen_env (t : Z) : Env unit :=
  mkEnv unit (fun _ => t) (fun _ _ => RequestFailed) (fun _ _ => None).

(** The bytes of an ASCII literal followed by ["\r\n"], as the server sends
    a line. *)
Definition wire (s : string) : list byte := list_byte_of_string s ++ [x0d; x0a].
Arguments wire s%_string.

(** ** Further invariants of the limiter *)

(** What any limiter, gated or not, knows about the timestamps [hist]
    recorded so far under a clock that never goes back: they are sorted,
    none is later than the last clock reading, each deque holds a suffix of
    them and whatever was popped had left the trailing span. *)
Definition history_ok (last : Z) (hist : list Z) (rl : RateLimiter) : Prop :=
  (exists gone, hist = gone ++ minute_window rl /\
                Forall (fun t => t < last - timedelta_minutes 1) gone) /\
  (exists gone, hist = gone ++ day_window rl /\
                Forall (fun t => t < last - timedelta_days 1) gone) /\
  StronglySorted Z.le hist /\
  Forall (fun t => t <= last) hist.

(** ** More Python string operations *)

(** [sep.join(parts)] *)
Fixpoint join (sep : str) (parts : list str) : str :=
  match parts with
  | [] => []
  | [part] => part
  | part :: rest => part ++ sep ++ join sep rest
  end.

(** ** Delivery of results *)

(** [format_search_result] applied to the results in turn, numbered from
    [i]: the formatted lines, or [None] when one of the calls raises. *)
Fixpoint format_all {R : Type} (env : Env R) (i : nat) (results : list R)
  : option (list str) :=
  match results with
  | [] => Some []
  | result :: rest =>
      match format_search_result env i result, format_all env (S i) rest with
      | Some line, Some lines => Some (line :: lines)
      | _, _ => None
      end
  end.

(** One [PRIVMSG] per line, each followed by the pause of line 285. *)
Definition deliveries (sender : str) (lines : list str) : list Action :=
  flat_map (fun line => [Sent (privmsg sender line); Slept 500]) lines.

(** A line that [send_private_message] sends as a single [PRIVMSG]. *)
Definition one_chunk (line : str) : Prop :=
  line <> [] /\ (length line <= max_length)%nat.

(** Everything [send_private_message] does for one message, in order. *)
Definition message_actions (target message : str) : list Action :=
  match chunk_message (length message) max_length message with
  | Some pieces => map (piece_action target) pieces
  | None => []
  end.

(** Lines of any length, each sent through [send_private_message] and
    followed by the pause of line 285. *)
Definition deliveries_any (sender : str) (lines : list str) : list Action :=
  flat_map (fun line => message_actions sender line ++ [Slept 500]) lines.

(** ** What goes on the wire *)

(** A code point that [bytes(..., "UTF-8")] of line 99 encodes: a Unicode
    scalar value. On a lone surrogate, which text taken from the JSON of the
    search API may hold, the conversion raises, [send] prints the error and
    nothing is handed to the socket. *)
Definition encodable (c : char) : bool :=
  ((c <? 55296) || (57343 <? c) && (c <=? 1114111))%N.

Definition CR : char := 13%N.
Definition LF : char := 10%N.

(** A text that [send] puts on the wire as exactly one protocol line: every
    character encodes and none is a carriage return or a line feed. *)
Definition wire_safe (s : str) : bool :=
  forallb (fun c => encodable c && negb (c =? CR)%N && negb (c =? LF)%N) s.

(** The arguments of the calls of [send], in order. *)
Definition sent_lines (acts : list Action) : list str :=
  flat_map (fun a => match a with Sent line => [line] | _ => [] end) acts.

(** ** Delivery lines *)

(** The line by which the server delivers [text], sent by [nick] (with user
    and host [userhost]) to [target]:
    [:nick!userhost PRIVMSG target :text]. *)
Definition delivery_line (nick userhost target text : str) : str :=
  py ":" ++ nick ++ py "!" ++ userhost ++ py " PRIVMSG " ++
  target ++ py " :" ++ text.

(** Where the dispatcher sends a message addressed to [target]. *)
Definition route {R : Type} (env : Env R) (sender target message : str)
  : M unit :=
  fun bot =>
    if str_eqb target (nickname bot) then
      handle_private_message env sender message bot
    else if existsb (str_eqb target) (channels bot) then
      handle_channel_message sender target message bot
    else (Returned tt, bot, []).

(** [s.replace(old, new)]: every occurrence of [old], found from left to
    right without overlap, becomes [new]; with an empty [old], [new] is put
    before every character and at the end. *)
Fixpoint replace_rounds (rounds : nat) (s old new : str) : str :=
  match cut old s with
  | None => s
  | Some (before, after) =>
      match rounds with
      | O => s
      | S rounds' => before ++ new ++ replace_rounds rounds' after old new
      end
  end.

Definition replace (s old new : str) : str :=
  match old with
  | [] => new ++ flat_map (fun c => c :: new) s
  | _ :: _ => replace_rounds (length s) s old new
  end.

(** [str(n)] for a non-negative integer. *)
Definition str_of_nat (n : nat) : str :=
  py (NilEmpty.string_of_uint (Nat.to_uint n)).

(** ** The result formatter (lines 223-258) *)

Module Formatter.

(** What [result.get(key, default)] finds under a key. *)
Inductive Field : Type :=
| Missing            (** the key is absent: the default is used *)
| Text (s : str)     (** a string *)
| Other.             (** any other JSON value: [.strip()] raises *)

(** One element of the ['results'] list. *)
Inductive Item : Type :=
| NotDict                                (** [.get] raises *)
| Dict (title url description : Field).

Definition text_of (field : Field) (default : str) : option str :=
  match field with
  | Missing => Some default
  | Text s => Some s
  | Other => None
  end.

Definition COLOR : str := [3%N].
Definition RESET : str := [15%N].
Definition BLUE : str := py "12".
Definition GREEN : str := py "03".
Definition GRAY : str := py "14".

(** Lines 242-247: [if len(s) > limit: s = s[:keep] + "..."]. *)
Definition shorten (limit keep : nat) (s : str) : str :=
  if (limit <? length s)%nat then firstn keep s ++ py "..." else s.

(** The description after lines 235-239 and 246-247: stripped, the URL
    removed, whitespace normalised, shortened. *)
Definition clean_description (url desc : str) : str :=
  shorten 200 197
    (join (py " ") (split_whitespace (replace (strip desc) url []))).

(** The line built by lines 250-256 from the stripped title and URL and the
    description as stored in the result. *)
Definition result_line (index : nat) (title url desc : str) : str :=
  let title := shorten 100 97 title in
  let desc := clean_description url desc in
  let url := shorten 100 97 url in
  let line :=
    str_of_nat index ++ py ". " ++ COLOR ++ GREEN ++ title ++ RESET ++
    py " | " ++ COLOR ++ BLUE ++ url ++ RESET in
  match desc with
  | [] => line
  | _ :: _ =>
      if (20 <? length desc)%nat
      then line ++ py " | " ++ COLOR ++ GRAY ++ desc ++ RESET
      else line
  end.

(** [format_search_result(index, result)]; [None] when it raises. *)
Definition format_search_result (index : nat) (result : Item) : option str :=
  match result with
  | NotDict => None
  | Dict title url description =>
      match text_of title (py "No title"), text_of url (py "No URL"),
            text_of description [] with
      | Some title, Some url, Some desc =>
          Some (result_line index (strip title) (strip url) desc)
      | _, _, _ => None
      end
  end.

End Formatter.

(** An environment whose formatter is the bot's own. *)
Definition bot_env (clock : nat -> Z)
    (api : nat -> str -> Response Formatter.Item) : Env Formatter.Item :=
  mkEnv Formatter.Item clock api Formatter.format_search_result.

(** ** Connection and main loop (lines 62-94 and 314-358) *)

(** [s.find(sub)]: the index of the first occurrence, or [-1]. *)
Definition find (s sub : str) : Z :=
  match cut sub s with
  | Some (before, _) => len before
  | None => -1
  end.

(** What the network does to one connection attempt: the attempt raises, or
    the socket opens and [recv] returns these results in turn. *)
Inductive Link : Type :=
| Refused
| Opened (received : list (list byte)).

(** Lines 84-86. *)
Fixpoint join_channels (chans : list str) : M unit :=
  match chans with
  | [] => ret tt
  | channel :: rest =>
      send (py "JOIN " ++ channel) ;; sleep 1000 ;; join_channels rest
  end.

(** [buffer[buffer.find("PING"):].split()[1]] of line 80; [None] is its
    [IndexError]. *)
Definition ping_token (buffer : str) : option str :=
  nth_error
    (split_whitespace (skipn (Z.to_nat (find buffer (py "PING"))) buffer)) 1.

(** The loop of lines 75-90 over the successive [recv] results. [Some b]:
    [connect] returns [b]; [None]: the loop is still waiting when the
    results run out. An exception inside the loop (a chunk that does not
    decode, a [PING] with nothing after it) is caught by line 92, which
    makes [connect] return [False]. *)
Fixpoint handshake (buffer : str) (received : list (list byte))
  : M (option bool) :=
  match received with
  | [] => ret None
  | chunk :: rest =>
      match Utf8.decode chunk with
      | None => ret (Some false)
      | Some temp =>
          let buffer := buffer ++ temp in
          let welcome_or_wait : M (option bool) :=
            if contains buffer (py "001") then
              bot <- get_bot ;;
              join_channels (channels bot) ;;
              ret (Some true)
            else if contains buffer (py "Closing Link") ||
                    contains buffer (py "ERROR") then ret (Some false)
            else handshake buffer rest in
          if contains buffer (py "PING") then
            match ping_token buffer with
            | None => ret (Some false)
            | Some token => send (py "PONG " ++ token) ;; welcome_or_wait
            end
          else welcome_or_wait
      end
  end.

(** [connect]: the registration lines, then the handshake. *)
Definition connect (link : Link) : M (option bool) :=
  match link with
  | Refused => ret (Some false)
  | Opened received =>
      bot <- get_bot ;;
      send (py "NICK " ++ nickname bot) ;;
      send (py "USER " ++ nickname bot ++ py " 0 * :MansionNet Search Bot") ;;
      handshake [] received
  end.

(** The inner [while True] of [run] over the successive [recv] results of
    one connection; it ends with [Reconnecting] when an exception has left
    it, and with the buffer when the results run out. *)
Fixpoint receive_loop {R : Type} (env : Env R) (buffer : str)
    (traffic : list (list byte)) : M Session :=
  match traffic with
  | [] => ret (Connected buffer)
  | chunk :: rest =>
      session <- run_pass env buffer chunk ;;
      match session with
      | Connected buffer' => receive_loop env buffer' rest
      | Reconnecting => ret Reconnecting
      end
  end.

(** [run] over the successive connections the network offers, each with
    what it delivers during the handshake and after it. A failed [connect]
    is followed at once by the next attempt; a session that ended with an
    exception has slept 30 seconds first. *)
Fixpoint run {R : Type} (env : Env R)
    (connections : list (Link * list (list byte))) : M unit :=
  match connections with
  | [] => ret tt
  | (link, traffic) :: rest =>
      connected <- connect link ;;
      match connected with
      | Some true =>
          session <- receive_loop env [] traffic ;;
          match session with
          | Reconnecting => run env rest
          | Connected _ => ret tt
          end
      | Some false => run env rest
      | None => ret tt
      end
  end.

(** The timestamps recorded by a list of actions, oldest first. *)
Definition recorded_actions (acts : list Action) : list Z :=
  flat_map (fun a => match a with Recorded t => [t] | _ => [] end) acts.

(** The lines [connect] sends when it joins the channels. *)
Definition joins (chans : list str) : list Action :=
  flat_map (fun channel => [Sent (py "JOIN " ++ channel); Slept 1000]) chans.

Definition is_pong (a : Action) : Prop :=
  exists token, a = Sent (py "PONG " ++ token).

(** What a method does to the limiter, seen from outside: it takes ticks,
    drives the limiter through a gated sequence of calls, makes one API
    request for each timestamp it records, and, when the clock never goes
    back, stamps the calls with non-decreasing readings taken between its
    first tick and its last. *)
Definition tracked {R A : Type} (env : Env R) (m : M A) : Prop :=
  forall bot outcome bot' acts,
    m bot = (outcome, bot', acts) ->
    (ticks bot <= ticks bot')%nat /\
    count is_Searched acts = length (recorded_actions acts) /\
    exists calls,
      rate_limiter bot' = run_calls (rate_limiter bot) calls /\
      (forall armed, gated (rate_limiter bot) armed calls = true) /\
      recorded calls = recorded_actions acts /\
      ((forall i j, (i <= j)%nat -> now env i <= now env j) ->
       forall last, last <= now env (ticks bot) ->
                    clock_from last calls = true /\
                    last_time last calls <= now env (ticks bot')).

(** A method that leaves the bot's state as it is and only sends and
    sleeps. *)
Definition quiet {A : Type} (m : M A) : Prop :=
  forall bot, exists outcome acts,
    m bot = (outcome, bot, acts) /\ forallb is_reply acts = true.
(* ===================================================================== *)
(** * Part II: properties *)
(* ===================================================================== *)

(** ** RateLimiter *)

Lemma popleft_while_older_split cutoff window :
  exists gone,
    window = gone ++ popleft_while_older cutoff window /\
    Forall (fun t => t < cutoff) gone.
Proof.
  induction window as [|t rest IH]; simpl.
  - exists []. split; [reflexivity | constructor].
  - destruct (Z.ltb_spec t cutoff) as [Hlt | Hge].
    + destruct IH as (gone & Heq & Hall).
      exists (t :: gone). split.
      * simpl. f_equal. exact Heq.
      * constructor; assumption.
    + exists []. split; [reflexivity | constructor].
Qed.

Lemma popleft_while_older_head cutoff window t rest :
  popleft_while_older cutoff window = t :: rest -> cutoff <= t.
Proof.
  induction window as [|u w IH]; simpl; [discriminate|].
  destruct (Z.ltb_spec u cutoff) as [Hlt | Hge]; [exact IH|].
  intros H. injection H as -> _. exact Hge.
Qed.

Lemma popleft_while_older_length cutoff window :
  (length (popleft_while_older cutoff window) <= length window)%nat.
Proof.
  induction window as [|t rest IH]; simpl; [lia|].
  destruct (t <? cutoff); simpl; lia.
Qed.

Lemma popleft_while_older_keep cutoff t rest :
  cutoff <= t -> popleft_while_older cutoff (t :: rest) = t :: rest.
Proof.
  intros H. simpl. destruct (Z.ltb_spec t cutoff); [lia | reflexivity].
Qed.

Lemma popleft_while_older_drop cutoff t rest :
  t < cutoff ->
  popleft_while_older cutoff (t :: rest) = popleft_while_older cutoff rest.
Proof.
  intros H. simpl. destruct (Z.ltb_spec t cutoff); [reflexivity | lia].
Qed.

(** On a sorted window the loop removes exactly the expired timestamps. *)
Lemma popleft_while_older_sorted cutoff window :
  StronglySorted Z.le window ->
  popleft_while_older cutoff window = filter (fun t => cutoff <=? t) window.
Proof.
  induction 1 as [|t rest Hs IH Hall]; simpl; [reflexivity|].
  destruct (Z.ltb_spec t cutoff) as [Hlt | Hge].
  - destruct (Z.leb_spec cutoff t); [lia | exact IH].
  - destruct (Z.leb_spec cutoff t); [|lia].
    f_equal. symmetry. apply forallb_filter_id.
    rewrite forallb_forall. intros u Hu.
    rewrite Forall_forall in Hall. specialize (Hall u Hu).
    apply Z.leb_le. lia.
Qed.


Lemma sorted_suffix (front s : list Z) :
  StronglySorted Z.le (front ++ s) -> StronglySorted Z.le s.
Proof.
  induction front as [|x front IH]; simpl; [tauto|].
  intros H. apply StronglySorted_inv in H. tauto.
Qed.

Lemma sorted_snoc (w : list Z) (x : Z) :
  StronglySorted Z.le w -> Forall (fun t => t <= x) w ->
  StronglySorted Z.le (w ++ [x]).
Proof.
  induction 1 as [|t rest Hs IH Hall]; simpl; intros Hle.
  - repeat constructor.
  - inversion Hle; subst. constructor.
    + apply IH. assumption.
    + apply Forall_app. split; [assumption | constructor; [assumption | constructor]].
Qed.

Lemma popleft_while_older_suffix cutoff window :
  suffix_of (popleft_while_older cutoff window) window.
Proof.
  destruct (popleft_while_older_split cutoff window) as (gone & Heq & _).
  exists gone. exact Heq.
Qed.

(** Popping from the front of [front ++ s] stops before [s] when the head of
    [s] is not expired. *)
Lemma popleft_keeps_suffix cutoff front s :
  (forall t rest, s = t :: rest -> cutoff <= t) ->
  suffix_of s (popleft_while_older cutoff (front ++ s)).
Proof.
  intros Hhead. induction front as [|p front IH].
  - simpl. destruct s as [|t rest]; [exists []; reflexivity|].
    rewrite popleft_while_older_keep by (eapply Hhead; reflexivity).
    exists []. reflexivity.
  - cbn [app]. destruct (Z.lt_ge_cases p cutoff) as [Hlt | Hge].
    + rewrite popleft_while_older_drop by assumption. exact IH.
    + rewrite popleft_while_older_keep by assumption.
      exists (p :: front). reflexivity.
Qed.

Lemma suffix_of_In (s w : list Z) :
  suffix_of s w -> forall t, In t s -> In t w.
Proof.
  intros (front & ->) t Ht. apply in_or_app. right. exact Ht.
Qed.

Lemma suffix_of_Forall (P : Z -> Prop) (s w : list Z) :
  suffix_of s w -> Forall P w -> Forall P s.
Proof.
  intros (front & ->) H. apply Forall_app in H. tauto.
Qed.

Lemma popleft_both_suffix cm cd mw dw :
  cd <= cm -> suffix_of mw dw ->
  suffix_of (popleft_while_older cm mw) (popleft_while_older cd dw).
Proof.
  intros Hcut (front & ->).
  destruct (popleft_while_older_suffix cm mw) as (gm & Hgm).
  rewrite Hgm at 2. rewrite app_assoc.
  apply popleft_keeps_suffix. intros t rest Ht.
  apply popleft_while_older_head in Ht. lia.
Qed.

Lemma windows_ok_can_make_request last now rl :
  windows_ok last rl -> last <= now ->
  windows_ok now (fst (can_make_request rl now)).
Proof.
  intros (Hsuf & Hsm & Hsd & Hle) Hnow.
  unfold windows_ok, can_make_request.
  cbn [fst minute_window day_window].
  destruct (popleft_while_older_suffix (now - timedelta_minutes 1)
              (minute_window rl)) as (gm & Hgm).
  destruct (popleft_while_older_suffix (now - timedelta_days 1)
              (day_window rl)) as (gd & Hgd).
  repeat split.
  - apply popleft_both_suffix; [|exact Hsuf].
    unfold timedelta_minutes, timedelta_days. lia.
  - apply (sorted_suffix gm). rewrite <- Hgm. exact Hsm.
  - apply (sorted_suffix gd). rewrite <- Hgd. exact Hsd.
  - apply (suffix_of_Forall _ _ (day_window rl)).
    + exists gd. exact Hgd.
    + eapply Forall_impl; [|exact Hle]. cbn. intros; lia.
Qed.

Lemma windows_ok_add_request last now rl :
  windows_ok last rl -> last <= now ->
  windows_ok now (add_request rl now).
Proof.
  intros (Hsuf & Hsm & Hsd & Hle) Hnow. unfold windows_ok. cbn.
  assert (Hle' : Forall (fun t => t <= now) (day_window rl))
    by (eapply Forall_impl; [|exact Hle]; cbn; intros; lia).
  repeat split.
  - destruct Hsuf as (front & Hfront). exists front.
    rewrite Hfront, app_assoc. reflexivity.
  - apply sorted_snoc; [assumption|].
    eapply suffix_of_Forall; eassumption.
  - apply sorted_snoc; assumption.
  - apply Forall_app. split; [assumption|].
    constructor; [lia | constructor].
Qed.

Lemma windows_ok_step last rl c :
  windows_ok last rl -> last <= call_time c ->
  windows_ok (call_time c) (step rl c).
Proof.
  destruct c as [now | now]; cbn [step call_time].
  - apply windows_ok_can_make_request.
  - apply windows_ok_add_request.
Qed.

Lemma windows_ok_run calls : forall last rl,
  windows_ok last rl -> clock_from last calls = true ->
  windows_ok (last_time last calls) (run_calls rl calls).
Proof.
  induction calls as [|c cs IH]; intros last rl Hok Hclock.
  - exact Hok.
  - cbn in Hclock. apply andb_true_iff in Hclock as [Hc Hcs].
    apply Z.leb_le in Hc.
    unfold run_calls, last_time. cbn [fold_left].
    apply IH; [|exact Hcs].
    apply (windows_ok_step last); assumption.
Qed.

Lemma windows_ok_init rpm rpd last :
  windows_ok last (RateLimiter_init rpm rpd).
Proof.
  unfold windows_ok. cbn. repeat split; try constructor.
  exists []. reflexivity.
Qed.

Lemma windows_ok_reachable rpm rpd calls :
  nondecreasing_clock calls = true ->
  exists last, windows_ok last (run_calls (RateLimiter_init rpm rpd) calls) /\
               last = last_time 0 calls.
Proof.
  destruct calls as [|c cs]; intros Hclock.
  - exists 0. split; [apply windows_ok_init | reflexivity].
  - exists (last_time (call_time c) cs). split; [|reflexivity].
    cbn in Hclock. unfold run_calls. cbn [fold_left].
    apply windows_ok_run; [|exact Hclock].
    apply (windows_ok_step (call_time c)); [apply windows_ok_init | lia].
Qed.

Lemma clock_from_app last xs ys :
  clock_from last (xs ++ ys) = true ->
  clock_from last xs = true /\ clock_from (last_time last xs) ys = true.
Proof.
  revert last. induction xs as [|c cs IH]; intros last H.
  - split; [reflexivity | exact H].
  - cbn in H. apply andb_true_iff in H as [Hc Hcs].
    destruct (IH _ Hcs) as [H1 H2]. split.
    + cbn. rewrite Hc, H1. reflexivity.
    + exact H2.
Qed.

Lemma nondecreasing_clock_app xs ys :
  nondecreasing_clock (xs ++ ys) = true ->
  nondecreasing_clock xs = true /\
  (forall start, xs <> [] -> clock_from (last_time start xs) ys = true).
Proof.
  destruct xs as [|c cs]; intros H.
  - split; [reflexivity | intros ? Hne; contradiction].
  - cbn in H. apply clock_from_app in H as [H1 H2].
    split; [exact H1 | intros; exact H2].
Qed.

(** C10. In every state reached from a fresh limiter by any sequence of
    [can_make_request]/[add_request] calls whose clock never goes back, the
    minute deque is a contiguous suffix of the day deque (so each of its
    timestamps is in the day deque too) and both deques are sorted in
    non-decreasing order; one more call of either operation, at a time not
    before the last one, keeps all of this. *)
Theorem windows_suffix_sorted_invariant (rpm rpd : Z) (calls : list Call) (next : Call) :
  nondecreasing_clock (calls ++ [next]) = true ->
  let shape rl :=
    suffix_of (minute_window rl) (day_window rl) /\
    (forall t, In t (minute_window rl) -> In t (day_window rl)) /\
    StronglySorted Z.le (minute_window rl) /\
    StronglySorted Z.le (day_window rl) in
  shape (run_calls (RateLimiter_init rpm rpd) calls) /\
  shape (step (run_calls (RateLimiter_init rpm rpd) calls) next).
Proof.
  intros Hclock shape.
  assert (Hshape : forall last rl, windows_ok last rl -> shape rl).
  { intros last rl (Hsuf & Hsm & Hsd & _). unfold shape.
    repeat split; try assumption. apply suffix_of_In. exact Hsuf. }
  split.
  - apply nondecreasing_clock_app in Hclock as [Hclock _].
    destruct (windows_ok_reachable rpm rpd calls Hclock) as (last & Hok & _).
    eapply Hshape. exact Hok.
  - destruct (windows_ok_reachable rpm rpd _ Hclock) as (last & Hok & _).
    unfold run_calls in Hok. rewrite fold_left_app in Hok.
    eapply Hshape. exact Hok.
Qed.

Lemma windows_suffix_sorted_invariant_witness :
  let calls := [CanMakeRequest 10; AddRequest 12; CanMakeRequest 70000000] in
  let rl := step (run_calls (RateLimiter_init 5 500) calls) (AddRequest 70000020) in
  suffix_of (minute_window rl) (day_window rl) /\
  StronglySorted Z.le (day_window rl).
Proof.
  intros calls rl.
  destruct (windows_suffix_sorted_invariant 5 500 calls (AddRequest 70000020))
    as [_ (Hsuf & _ & _ & Hsd)]; [reflexivity|].
  split; assumption.
Defined.

(** *** The call budget *)

Lemma count_within_le_len span now ts : count_within span now ts <= len ts.
Proof.
  unfold count_within, len. apply inj_le. apply filter_length_le.
Qed.

Lemma count_within_app span now xs ys :
  count_within span now (xs ++ ys) =
  count_within span now xs + count_within span now ys.
Proof.
  unfold count_within, len. rewrite filter_app, length_app. lia.
Qed.

Lemma count_within_expired span now gone :
  Forall (fun t => t < now - span) gone -> count_within span now gone = 0.
Proof.
  induction 1 as [|t rest Ht _ IH]; [reflexivity|].
  unfold count_within in *. cbn [filter].
  destruct (Z.leb_spec (now - span) t); [lia|]. cbn. exact IH.
Qed.

Lemma count_within_window span last now hist window gone :
  hist = gone ++ window ->
  Forall (fun t => t < last - span) gone ->
  last <= now ->
  count_within span now hist <= len window.
Proof.
  intros -> Hgone Hnow. rewrite count_within_app.
  rewrite count_within_expired.
  - apply count_within_le_len.
  - eapply Forall_impl; [|exact Hgone]. cbn. intros; lia.
Qed.

Lemma len_app_one {A : Type} (w : list A) (x : A) : len (w ++ [x]) = len w + 1.
Proof. unfold len. rewrite length_app. cbn. lia. Qed.

Lemma budget_ok_can_make_request last now armed hist rl :
  budget_ok last armed hist rl -> last <= now ->
  budget_ok now (snd (can_make_request rl now)) hist
            (fst (can_make_request rl now)).
Proof.
  intros ((gm & Hm & Hgm) & (gd & Hd & Hgd) & Hcm & Hcd) Hnow.
  unfold budget_ok, can_make_request.
  cbn [fst snd minute_window day_window requests_per_minute requests_per_day].
  set (mw := popleft_while_older _ (minute_window rl)).
  set (dw := popleft_while_older _ (day_window rl)).
  destruct (popleft_while_older_split (now - timedelta_minutes 1)
              (minute_window rl)) as (pm & Hpm & Hpm').
  destruct (popleft_while_older_split (now - timedelta_days 1)
              (day_window rl)) as (pd & Hpd & Hpd').
  fold mw in Hpm. fold dw in Hpd.
  assert (Hlm : len mw <= len (minute_window rl))
    by (unfold len; apply inj_le, popleft_while_older_length).
  assert (Hld : len dw <= len (day_window rl))
    by (unfold len; apply inj_le, popleft_while_older_length).
  repeat split.
  - exists (gm ++ pm). split.
    + rewrite <- app_assoc, <- Hpm. exact Hm.
    + apply Forall_app. split; [|exact Hpm'].
      eapply Forall_impl; [|exact Hgm]. cbn. intros; lia.
  - exists (gd ++ pd). split.
    + rewrite <- app_assoc, <- Hpd. exact Hd.
    + apply Forall_app. split; [|exact Hpd'].
      eapply Forall_impl; [|exact Hgd]. cbn. intros; lia.
  - destruct (Z.ltb_spec (len mw) (requests_per_minute rl));
      destruct (Z.ltb_spec (len dw) (requests_per_day rl));
      cbn; destruct armed; lia.
  - destruct (Z.ltb_spec (len mw) (requests_per_minute rl));
      destruct (Z.ltb_spec (len dw) (requests_per_day rl));
      cbn; destruct armed; lia.
Qed.

Lemma budget_ok_add_request last now hist rl :
  budget_ok last true hist rl -> last <= now ->
  budget_ok now false (hist ++ [now]) (add_request rl now).
Proof.
  intros ((gm & Hm & Hgm) & (gd & Hd & Hgd) & Hcm & Hcd) Hnow.
  unfold budget_ok, add_request.
  cbn [minute_window day_window requests_per_minute requests_per_day].
  rewrite !len_app_one. repeat split; try lia.
  - exists gm. split; [rewrite Hm, app_assoc; reflexivity|].
    eapply Forall_impl; [|exact Hgm]. cbn. intros; lia.
  - exists gd. split; [rewrite Hd, app_assoc; reflexivity|].
    eapply Forall_impl; [|exact Hgd]. cbn. intros; lia.
Qed.

Lemma budget_ok_run calls : forall last armed hist rl,
  budget_ok last armed hist rl ->
  gated rl armed calls = true ->
  clock_from last calls = true ->
  exists armed',
    budget_ok (last_time last calls) armed' (hist ++ recorded calls)
              (run_calls rl calls).
Proof.
  induction calls as [|c cs IH]; intros last armed hist rl Hok Hgate Hclock.
  - exists armed. cbn. rewrite app_nil_r. exact Hok.
  - cbn [clock_from] in Hclock. apply andb_true_iff in Hclock as [Hc Hcs].
    apply Z.leb_le in Hc.
    unfold run_calls, last_time. cbn [fold_left].
    destruct c as [now | now]; cbn [gated recorded step call_time] in *.
    + eapply IH; [|exact Hgate|exact Hcs].
      eapply budget_ok_can_make_request; eassumption.
    + apply andb_true_iff in Hgate as [-> Hgate].
      replace (hist ++ now :: recorded cs)
        with ((hist ++ [now]) ++ recorded cs)
        by (rewrite <- app_assoc; reflexivity).
      eapply IH; [|exact Hgate|exact Hcs].
      eapply budget_ok_add_request; eassumption.
Qed.

Lemma gated_app calls : forall rl armed rest,
  gated rl armed (calls ++ rest) = true -> gated rl armed calls = true.
Proof.
  induction calls as [|c cs IH]; intros rl armed rest H; [reflexivity|].
  destruct c as [now | now]; cbn [app gated] in *.
  - eapply IH. exact H.
  - apply andb_true_iff in H as [-> H]. cbn. eapply IH. exact H.
Qed.

Lemma budget_ok_init rpm rpd last :
  0 <= rpm -> 0 <= rpd -> budget_ok last false [] (RateLimiter_init rpm rpd).
Proof.
  intros Hm Hd. unfold budget_ok. cbn.
  repeat split; try lia; exists []; split; (reflexivity || constructor).
Qed.

Lemma budget_ok_bound last armed hist rl now :
  budget_ok last armed hist rl -> last <= now ->
  count_within (timedelta_minutes 1) now hist <= requests_per_minute rl /\
  count_within (timedelta_days 1) now hist <= requests_per_day rl.
Proof.
  intros ((gm & Hm & Hgm) & (gd & Hd & Hgd) & Hcm & Hcd) Hnow.
  pose proof (count_within_window _ _ _ _ _ _ Hm Hgm Hnow).
  pose proof (count_within_window _ _ _ _ _ _ Hd Hgd Hnow).
  destruct armed; lia.
Qed.

Lemma run_calls_capacities calls : forall rl,
  requests_per_minute (run_calls rl calls) = requests_per_minute rl /\
  requests_per_day (run_calls rl calls) = requests_per_day rl.
Proof.
  induction calls as [|c cs IH]; intros rl; [split; reflexivity|].
  unfold run_calls. cbn [fold_left].
  destruct (IH (step rl c)) as [H1 H2]. unfold run_calls in H1, H2.
  rewrite H1, H2. destruct c; split; reflexivity.
Qed.

(** C1, as amended. For non-negative capacities and a clock that never goes
    back, take any sequence of calls in which every [add_request] comes
    directly after a [can_make_request] that returned [True] (the way
    [handle_private_message] calls them). At every moment of that sequence,
    that is after any prefix [past] of it and at any time [now] not before
    the last call made, the number of timestamps recorded so far that lie in
    the trailing 60 seconds is at most [requests_per_minute], and the number
    in the trailing 24 hours is at most [requests_per_day]. *)
Theorem budget_invariant_gated (rpm rpd : Z) (past future : list Call) (now : Z) :
  0 <= rpm -> 0 <= rpd ->
  gated (RateLimiter_init rpm rpd) false (past ++ future) = true ->
  nondecreasing_clock (past ++ future) = true ->
  last_time now past <= now ->
  count_within (timedelta_minutes 1) now (recorded past) <= rpm /\
  count_within (timedelta_days 1) now (recorded past) <= rpd.
Proof.
  intros Hm Hd Hgate Hclock Hnow.
  apply gated_app in Hgate.
  apply nondecreasing_clock_app in Hclock as [Hclock _].
  destruct past as [|c cs].
  - cbn. unfold count_within, len. cbn. lia.
  - cbn [nondecreasing_clock] in Hclock.
    assert (Hfirst : clock_from (call_time c) (c :: cs) = true)
      by (cbn; rewrite Z.leb_refl; exact Hclock).
    destruct (budget_ok_run (c :: cs) (call_time c) false []
                (RateLimiter_init rpm rpd)
                (budget_ok_init rpm rpd _ Hm Hd) Hgate Hfirst)
      as (armed' & Hok).
    cbn [app] in Hok.
    assert (Hlast : last_time (call_time c) (c :: cs) = last_time now (c :: cs))
      by reflexivity.
    rewrite Hlast in Hok.
    pose proof (budget_ok_bound _ _ _ _ now Hok Hnow) as Hb.
    destruct (run_calls_capacities (c :: cs) (RateLimiter_init rpm rpd))
      as [E1 E2].
    rewrite E1, E2 in Hb. exact Hb.
Qed.

Lemma budget_invariant_gated_witness :
  let past := [CanMakeRequest 0; AddRequest 5; CanMakeRequest 7;
               CanMakeRequest 9; AddRequest 9] in
  count_within (timedelta_minutes 1) 20 (recorded past) <= 2 /\
  count_within (timedelta_days 1) 20 (recorded past) <= 500.
Proof.
  intros past.
  apply (budget_invariant_gated 2 500 past [CanMakeRequest 30] 20).
  - lia.
  - lia.
  - reflexivity.
  - reflexivity.
  - cbn. lia.
Defined.

(** C1 as stated fails: [add_request] never looks at the capacities, so six
    calls of it in a row, with the capacities 5 and 500 that the bot
    configures, leave six recorded timestamps in the trailing minute. The
    bound also needs the clock not to go back (a gated sequence whose second
    record is stamped 90 seconds before the check that allowed it puts two
    timestamps in one minute under a capacity of 1) and capacities that are
    not negative. *)
Lemma budget_invariant_any_sequence_counterexample :
  let calls := [AddRequest 0; AddRequest 1; AddRequest 2;
                AddRequest 3; AddRequest 4; AddRequest 5] in
  let rl := run_calls (RateLimiter_init 5 500) calls in
  let back := [CanMakeRequest 100000000; AddRequest 100000000;
               CanMakeRequest 200000000; AddRequest 110000000] in
  (nondecreasing_clock calls = true /\
   count_within (timedelta_minutes 1) 5 (minute_window rl) = 6 /\
   ~ (count_within (timedelta_minutes 1) 5 (recorded calls)
        <= requests_per_minute rl)) /\
  (gated (RateLimiter_init 1 500) false back = true /\
   nondecreasing_clock back = false /\
   ~ (count_within (timedelta_minutes 1) 110000000 (recorded back) <= 1)) /\
  ~ (count_within (timedelta_minutes 1) 0 (recorded []) <= -1).
Proof.
  cbv zeta.
  repeat match goal with |- _ /\ _ => split end;
    try reflexivity; vm_compute; intros H; apply H; reflexivity.
Qed.

(** *** The check itself *)

(** C2. [can_make_request] pops from the head of each deque the timestamps
    strictly older than the window duration and stops at the first one that
    is not (a timestamp exactly at the edge stays; on a sorted deque exactly
    the expired timestamps go). It then returns [True] if and only if the
    minute deque is shorter than [requests_per_minute] and the day deque is
    shorter than [requests_per_day]. In particular, with
    [requests_per_minute] timestamps all within the last minute it returns
    [False], and once the oldest of them is older than a minute it returns
    [True] again, the day deque having room. *)
Theorem can_make_request_spec (rl : RateLimiter) (now : Z) :
  let cm := now - timedelta_minutes 1 in
  let cd := now - timedelta_days 1 in
  let rl' := fst (can_make_request rl now) in
  let ok := snd (can_make_request rl now) in
  (exists gone, minute_window rl = gone ++ minute_window rl' /\
                Forall (fun t => t < cm) gone) /\
  (exists gone, day_window rl = gone ++ day_window rl' /\
                Forall (fun t => t < cd) gone) /\
  (forall t rest, minute_window rl' = t :: rest -> cm <= t) /\
  (forall t rest, day_window rl' = t :: rest -> cd <= t) /\
  (forall rest, minute_window rl = cm :: rest ->
                minute_window rl' = minute_window rl) /\
  (forall rest, day_window rl = cd :: rest ->
                day_window rl' = day_window rl) /\
  (StronglySorted Z.le (minute_window rl) ->
   minute_window rl' = filter (fun t => cm <=? t) (minute_window rl)) /\
  (StronglySorted Z.le (day_window rl) ->
   day_window rl' = filter (fun t => cd <=? t) (day_window rl)) /\
  requests_per_minute rl' = requests_per_minute rl /\
  requests_per_day rl' = requests_per_day rl /\
  (ok = true <->
   len (minute_window rl') < requests_per_minute rl /\
   len (day_window rl') < requests_per_day rl) /\
  (len (minute_window rl) = requests_per_minute rl ->
   Forall (fun t => cm <= t) (minute_window rl) ->
   ok = false) /\
  (forall oldest rest,
     minute_window rl = oldest :: rest ->
     len (minute_window rl) = requests_per_minute rl ->
     oldest < cm ->
     len (day_window rl') < requests_per_day rl ->
     ok = true).
Proof.
  intros cm cd rl' ok.
  assert (Hok : ok = true <->
                len (minute_window rl') < requests_per_minute rl /\
                len (day_window rl') < requests_per_day rl).
  { subst ok rl'. unfold can_make_request. cbn [fst snd minute_window day_window].
    rewrite andb_true_iff, !Z.ltb_lt. reflexivity. }
  repeat match goal with |- _ /\ _ => split end.
  - apply popleft_while_older_split.
  - apply popleft_while_older_split.
  - intros t rest. apply popleft_while_older_head.
  - intros t rest. apply popleft_while_older_head.
  - intros rest H. subst rl'. cbn [can_make_request fst minute_window].
    rewrite H. apply popleft_while_older_keep. subst cm. lia.
  - intros rest H. subst rl'. cbn [can_make_request fst day_window].
    rewrite H. apply popleft_while_older_keep. subst cd. lia.
  - apply popleft_while_older_sorted.
  - apply popleft_while_older_sorted.
  - reflexivity.
  - reflexivity.
  - apply Hok.
  - intros Hfull Hfresh.
    assert (Hsame : minute_window rl' = minute_window rl).
    { subst rl'. cbn [can_make_request fst minute_window]. fold cm.
      destruct (minute_window rl) as [|t rest]; [reflexivity|].
      apply popleft_while_older_keep. inversion Hfresh; assumption. }
    apply not_true_is_false. intros E.
    apply Hok in E. rewrite Hsame in E. lia.
  - intros oldest rest Hw Hfull Hold Hday.
    apply Hok. split; [|exact Hday].
    subst rl'. cbn [can_make_request fst minute_window]. fold cm.
    rewrite Hw, popleft_while_older_drop by exact Hold.
    rewrite Hw in Hfull. unfold len in *. cbn [length] in Hfull.
    pose proof (popleft_while_older_length cm rest). lia.
Qed.

Lemma can_make_request_spec_witness :
  let full := mkRateLimiter 5 500 [0; 1; 2; 3; 4] [0; 1; 2; 3; 4] in
  snd (can_make_request full 10) = false /\
  snd (can_make_request full 60000001) = true /\
  minute_window (fst (can_make_request full 60000000)) = [0; 1; 2; 3; 4].
Proof.
  intros full.
  pose proof (can_make_request_spec full 10) as H10.
  pose proof (can_make_request_spec full 60000001) as H61.
  pose proof (can_make_request_spec full 60000000) as H60.
  cbv zeta in H10, H61, H60.
  destruct H10 as (_ & _ & _ & _ & _ & _ & _ & _ & _ & _ & _ & Hdeny & _).
  destruct H61 as (_ & _ & _ & _ & _ & _ & _ & _ & _ & _ & _ & _ & Hallow).
  destruct H60 as (_ & _ & _ & _ & Hedge & _).
  split; [|split].
  - apply Hdeny; [reflexivity|].
    repeat constructor; unfold timedelta_minutes; lia.
  - apply (Hallow 0 [1; 2; 3; 4]).
    + reflexivity.
    + reflexivity.
    + unfold timedelta_minutes; lia.
    + cbn. unfold len. cbn. lia.
  - apply (Hedge [1; 2; 3; 4]). reflexivity.
Defined.

(** ** Strings *)

Lemma startswith_length s sep :
  startswith s sep = true -> (length sep <= length s)%nat.
Proof.
  revert s. induction sep as [|p sep IH]; intros s H; cbn; [lia|].
  destruct s as [|c s]; cbn in H; [discriminate|].
  apply andb_true_iff in H as [_ H]. apply IH in H. cbn. lia.
Qed.

Lemma startswith_app s sep x :
  (length sep <= length s)%nat ->
  startswith (s ++ x) sep = startswith s sep.
Proof.
  revert s. induction sep as [|p sep IH]; intros s H.
  - destruct s; reflexivity.
  - destruct s as [|c s]; cbn in H; [lia|].
    cbn. rewrite IH by lia. reflexivity.
Qed.

Lemma cut_length sep s before after :
  cut sep s = Some (before, after) ->
  length s = (length before + length sep + length after)%nat.
Proof.
  revert before after. induction s as [|c s IH]; intros before after H.
  - cbn in H. destruct (startswith [] sep) eqn:E; [|discriminate].
    apply startswith_length in E. injection H as <- <-.
    destruct sep; cbn in *; lia.
  - cbn [cut] in H. destruct (startswith (c :: s) sep) eqn:E.
    + injection H as <- <-. apply startswith_length in E.
      rewrite length_skipn. cbn [length] in *. lia.
    + destruct (cut sep s) as [[b a]|] eqn:Hc; [|discriminate].
      injection H as <- <-. specialize (IH _ _ eq_refl). cbn. lia.
Qed.

Lemma cut_app sep s x before after :
  cut sep s = Some (before, after) ->
  cut sep (s ++ x) = Some (before, after ++ x).
Proof.
  revert before after. induction s as [|c s IH]; intros before after H.
  - cbn in H. destruct (startswith [] sep) eqn:E; [|discriminate].
    injection H as <- <-. destruct sep; [|discriminate].
    destruct x; reflexivity.
  - pose proof (cut_length _ _ _ _ H) as Hlen.
    cbn [cut] in H. cbn [app cut].
    change (c :: s ++ x) with ((c :: s) ++ x).
    rewrite startswith_app by lia.
    destruct (startswith (c :: s) sep) eqn:E.
    + injection H as <- <-. f_equal. f_equal.
      apply startswith_length in E.
      rewrite skipn_app.
      replace (length sep - length (c :: s))%nat with 0%nat by lia.
      reflexivity.
    + destruct (cut sep s) as [[b a]|] eqn:Hc; [|discriminate].
      injection H as <- <-.
      change ((c :: s) ++ x) with (c :: s ++ x). cbn [cut].
      rewrite (IH _ _ eq_refl). reflexivity.
Qed.

Section Split.

Variable sep : str.
Hypothesis sep_nonempty : sep <> [].

Lemma cut_shorter s before after :
  cut sep s = Some (before, after) -> (length after < length s)%nat.
Proof.
  intros H. apply cut_length in H.
  destruct sep; [contradiction | cbn in H; lia].
Qed.

Lemma split_rounds_nonempty rounds s : split_rounds rounds s sep <> [].
Proof.
  destruct rounds; cbn; destruct (cut sep s) as [[b a]|]; discriminate.
Qed.

(** More rounds than the length of the text change nothing. *)
Lemma split_rounds_irrelevant n : forall m s,
  (length s <= n)%nat -> (length s <= m)%nat ->
  split_rounds n s sep = split_rounds m s sep.
Proof.
  induction n as [|n IH]; intros m s Hn Hm.
  - destruct s; [|cbn in Hn; lia].
    assert (Hc : cut sep [] = None).
    { destruct (cut sep []) as [[b a]|] eqn:Hc; [|reflexivity].
      apply cut_shorter in Hc. cbn in Hc. lia. }
    destruct m; cbn [split_rounds]; rewrite Hc; reflexivity.
  - cbn [split_rounds]. destruct (cut sep s) as [[b a]|] eqn:Hc.
    + pose proof (cut_shorter _ _ _ Hc) as Hlt.
      destruct m as [|m]; [lia|].
      cbn [split_rounds]. rewrite Hc. f_equal. apply IH; lia.
    + destruct m; cbn; rewrite Hc; reflexivity.
Qed.

Lemma split_rounds_enough rounds s :
  (length s <= rounds)%nat -> split_rounds rounds s sep = split s sep.
Proof.
  intros H. unfold split. apply split_rounds_irrelevant; lia.
Qed.

Lemma split_cut_none s : cut sep s = None -> split s sep = [s].
Proof.
  intros H. unfold split. destruct (length s); cbn; rewrite H; reflexivity.
Qed.

Lemma split_cut_some s before after :
  cut sep s = Some (before, after) ->
  split s sep = before :: split after sep.
Proof.
  intros H. pose proof (cut_shorter _ _ _ H) as Hlt.
  unfold split at 1. destruct (length s) as [|m] eqn:Hm; [lia|].
  cbn [split_rounds]. rewrite H. f_equal.
  apply split_rounds_enough. lia.
Qed.

Lemma split_nonempty s : split s sep <> [].
Proof. apply split_rounds_nonempty. Qed.

(** Text arriving later only extends the last fragment. *)
Lemma split_app s x :
  split (s ++ x) sep =
  removelast (split s sep) ++ split (last (split s sep) [] ++ x) sep.
Proof.
  remember (length s) as n eqn:Hn.
  revert s Hn. induction n as [n IH] using lt_wf_ind. intros s Hn.
  destruct (cut sep s) as [[b a]|] eqn:Hc.
  - rewrite (split_cut_some _ _ _ (cut_app _ _ x _ _ Hc)).
    rewrite (split_cut_some _ _ _ Hc).
    pose proof (cut_shorter _ _ _ Hc) as Hlt.
    rewrite (IH (length a)) by (subst; lia || reflexivity).
    pose proof (split_nonempty a) as Hne.
    destruct (split a sep) as [|l ls] eqn:Hs; [contradiction|].
    reflexivity.
  - rewrite (split_cut_none _ Hc). reflexivity.
Qed.

(** The fragment kept in the buffer holds no separator. *)
Lemma split_last_cut s : cut sep (last (split s sep) []) = None.
Proof.
  remember (length s) as n eqn:Hn.
  revert s Hn. induction n as [n IH] using lt_wf_ind. intros s Hn.
  destruct (cut sep s) as [[b a]|] eqn:Hc.
  - rewrite (split_cut_some _ _ _ Hc).
    pose proof (cut_shorter _ _ _ Hc) as Hlt.
    pose proof (split_nonempty a) as Hne.
    specialize (IH (length a) ltac:(subst; lia) a eq_refl).
    destruct (split a sep) as [|l ls] eqn:Hs; [contradiction|].
    exact IH.
  - rewrite (split_cut_none _ Hc). exact Hc.
Qed.

End Split.

(** ** UTF-8 *)

Lemma decode_from_app a : forall st b x y,
  Utf8.decode_from st a = Some x ->
  Utf8.decode b = Some y ->
  Utf8.decode_from st (a ++ b) = Some (x ++ y).
Proof.
  induction a as [|b0 a IH]; intros st b x y Ha Hb.
  - destruct st; [|discriminate]. injection Ha as <-. exact Hb.
  - cbn [app Utf8.decode_from] in *. revert Ha.
    destruct st as [|more acc lo hi].
    + repeat match goal with
             | |- context [if ?c then _ else _] => destruct c
             end;
        try discriminate; try (intros Ha; eapply IH; eassumption).
      destruct (Utf8.decode_from Utf8.Boundary a) as [t|] eqn:E;
        [|discriminate].
      cbn. intros Ha. injection Ha as <-.
      rewrite (IH _ _ _ _ E Hb). reflexivity.
    + destruct ((lo <=? Byte.to_N b0)%N && (Byte.to_N b0 <=? hi)%N);
        [|discriminate].
      destruct more as [|more'].
      * destruct (Utf8.decode_from Utf8.Boundary a) as [t|] eqn:E;
          [|discriminate].
        cbn. intros Ha. injection Ha as <-.
        rewrite (IH _ _ _ _ E Hb). reflexivity.
      * intros Ha. eapply IH; eassumption.
Qed.

Lemma decode_app a b x y :
  Utf8.decode a = Some x -> Utf8.decode b = Some y ->
  Utf8.decode (a ++ b) = Some (x ++ y).
Proof. apply decode_from_app. Qed.

Lemma decode_concat chunks :
  Forall (fun chunk => Utf8.decode chunk <> None) chunks ->
  exists text, Utf8.decode (concat chunks) = Some text.
Proof.
  induction 1 as [|c cs Hc _ IH]; cbn [concat].
  - exists []. reflexivity.
  - destruct IH as (T & HT).
    destruct (Utf8.decode c) as [t|] eqn:E; [|contradiction].
    exists (t ++ T). apply decode_app; assumption.
Qed.

(** ** Line framing *)

Lemma CRLF_nonempty : CRLF <> [].
Proof. discriminate. Qed.

Lemma removelast_app_nonempty {A : Type} (xs ys : list A) :
  ys <> [] -> removelast (xs ++ ys) = xs ++ removelast ys.
Proof. apply removelast_app. Qed.

Lemma last_app_nonempty {A : Type} (xs ys : list A) (d : A) :
  ys <> [] -> last (xs ++ ys) d = last ys d.
Proof.
  intros Hne. induction xs as [|x xs IH]; [reflexivity|].
  cbn [app]. destruct (xs ++ ys) eqn:E.
  - apply app_eq_nil in E. tauto.
  - cbn [last]. rewrite <- IH. reflexivity.
Qed.

Lemma feed_decoded buffer chunk text :
  Utf8.decode chunk = Some text ->
  feed buffer chunk =
  (removelast (split (buffer ++ text) CRLF),
   last (split (buffer ++ text) CRLF) []).
Proof. intros H. unfold feed. rewrite H. reflexivity. Qed.

Lemma feed_all_decodable chunks : forall buffer,
  cut CRLF buffer = None ->
  Forall (fun chunk => Utf8.decode chunk <> None) chunks ->
  feed_all buffer chunks = feed buffer (concat chunks).
Proof.
  induction chunks as [|c cs IH]; intros buffer Hbuf Hall.
  - cbn [feed_all concat]. rewrite (feed_decoded _ _ []) by reflexivity.
    rewrite app_nil_r, (split_cut_none _ _ Hbuf). reflexivity.
  - inversion Hall as [|c' cs' Hc Hcs]; subst.
    destruct (Utf8.decode c) as [t|] eqn:Et; [|contradiction].
    destruct (decode_concat cs Hcs) as (T & ET).
    cbn [feed_all concat].
    rewrite (feed_decoded _ _ t Et).
    rewrite IH; [|apply split_last_cut, CRLF_nonempty|exact Hcs].
    rewrite (feed_decoded _ _ T ET).
    rewrite (feed_decoded _ _ (t ++ T) (decode_app _ _ _ _ Et ET)).
    rewrite app_assoc, (split_app _ CRLF_nonempty (buffer ++ t) T).
    pose proof (split_nonempty CRLF
                  (last (split (buffer ++ t) CRLF) [] ++ T)) as Hne.
    rewrite removelast_app_nonempty, last_app_nonempty by exact Hne.
    reflexivity.
Qed.

(** C7, as amended. Take a buffer holding no complete line (the empty
    buffer of a new session, or whatever an earlier pass left) and any
    partition of a byte stream into successive chunks each of which decodes
    as UTF-8 on its own, that is, no multi-byte character lies across a
    chunk boundary; every partition of an ASCII stream is one. Feeding the
    chunks one at a time produces exactly the same sequence of complete
    lines, and leaves the same buffer, as feeding the whole stream at
    once. *)
Theorem framing_split_invariant (buffer : str) (chunks : list (list byte)) :
  cut CRLF buffer = None ->
  Forall (fun chunk => Utf8.decode chunk <> None) chunks ->
  feed_all buffer chunks = feed buffer (concat chunks) /\
  fst (feed_all buffer chunks) = fst (feed_all buffer [concat chunks]).
Proof.
  intros Hbuf Hall. rewrite (feed_all_decodable chunks buffer Hbuf Hall).
  split; [reflexivity|].
  cbn [feed_all]. destruct (feed buffer (concat chunks)) as [ls b].
  cbn. rewrite app_nil_r. reflexivity.
Qed.

Lemma framing_split_invariant_witness :
  fst (feed_all [] [[x61; x0d]; [x0a; x62; x0d; x0a]; [x63]]) =
  fst (feed_all [] [[x61; x0d; x0a; x62; x0d; x0a; x63]]).
Proof.
  apply (framing_split_invariant []
           [[x61; x0d]; [x0a; x62; x0d; x0a]; [x63]]).
  - reflexivity.
  - repeat constructor; discriminate.
Defined.

(** C7 as stated fails: the stream [c3 a9 0d 0a] is the well-formed UTF-8
    text of one line holding U+00E9. Fed at once it yields that line; cut
    between the two bytes of the character, each chunk raises
    [UnicodeDecodeError], the buffer is reset twice and no line comes
    out. *)
Lemma framing_split_counterexample :
  let stream := [xc3; xa9; x0d; x0a] in
  let chunks := [[xc3]; [xa9; x0d; x0a]] in
  concat chunks = stream /\
  Utf8.decode stream = Some [233%N; 13%N; 10%N] /\
  fst (feed_all [] [stream]) = [[233%N]] /\
  fst (feed_all [] chunks) = [] /\
  fst (feed_all [] chunks) <> fst (feed_all [] [stream]).
Proof.
  cbv zeta. repeat split; try reflexivity. vm_compute. discriminate.
Qed.

(** ** OutboundWriter *)

Lemma rfind_spec (s : str) (c d : char) :
  (rfind s c = -1 /\ ~ In c s) \/
  (0 <= rfind s c < len s /\
   nth (Z.to_nat (rfind s c)) s d = c /\
   forall i, (Z.to_nat (rfind s c) < i < length s)%nat -> nth i s d <> c).
Proof.
  induction s as [|x s IH].
  - left. split; [reflexivity | intros []].
  - cbn [rfind]. unfold len in *. cbn [length].
    destruct IH as [[Hr Hnot] | (Hr & Hnth & Hlater)].
    + rewrite Hr. cbn. destruct (N.eqb_spec x c) as [-> | Hne].
      * right. split; [lia|]. split; [reflexivity|].
        intros [|j] Hj; [lia|]. cbn. intros E. apply Hnot.
        rewrite <- E. apply nth_In. lia.
      * left. split; [reflexivity|]. intros [E | Hin]; [congruence | tauto].
    + destruct (Z.leb_spec 0 (rfind s c)); [|lia].
      right. rewrite Z.add_1_r, Z2Nat.inj_succ by lia.
      split; [lia|]. split; [exact Hnth|].
      intros [|j] Hj; [lia|]. cbn. apply Hlater. lia.
Qed.

Lemma lstrip_length s : (length (lstrip s) <= length s)%nat.
Proof.
  induction s as [|c s IH]; cbn; [lia|].
  destruct (isspace c); cbn; lia.
Qed.

(** What [lstrip] removes is a prefix made of whitespace only. *)
Lemma lstrip_removed s :
  let gap := firstn (length s - length (lstrip s)) s in
  gap ++ lstrip s = s /\ forallb isspace gap = true.
Proof.
  induction s as [|c s IH]; cbn [lstrip]; [split; reflexivity|].
  destruct (isspace c) eqn:E.
  - pose proof (lstrip_length s).
    replace (length (c :: s) - length (lstrip s))%nat
      with (S (length s - length (lstrip s))) by (cbn [length]; lia).
    cbn [firstn app forallb]. destruct IH as [H1 H2].
    rewrite H1, H2, E. split; reflexivity.
  - rewrite Nat.sub_diag. split; reflexivity.
Qed.

Lemma lstrip_keeps_last s :
  s <> [] -> isspace (last s 0%N) = false ->
  lstrip s <> [] /\ last (lstrip s) 0%N = last s 0%N.
Proof.
  induction s as [|c s IH]; intros Hne Hlast; [contradiction|].
  cbn [lstrip]. destruct (isspace c) eqn:E.
  - destruct s as [|c' s'].
    + cbn in Hlast. congruence.
    + apply IH; [discriminate | exact Hlast].
  - split; [discriminate | reflexivity].
Qed.

Lemma last_skipn (s : str) (p : nat) (d : char) :
  (p < length s)%nat -> last (skipn p s) d = last s d.
Proof.
  revert s. induction p as [|p IH]; intros s Hp; [reflexivity|].
  destruct s as [|c s]; [cbn in Hp; lia|].
  cbn [skipn]. cbn [length] in Hp. rewrite IH by lia.
  destruct s; [cbn in Hp; lia | reflexivity].
Qed.

Lemma ends_with_chunk_after (c : str) (pieces : list Piece) :
  ends_with_chunk pieces = true ->
  ends_with_chunk (Chunk c :: Pause :: pieces) = true.
Proof.
  destruct pieces as [|q pieces]; [discriminate|]. intros H. exact H.
Qed.

Section Chunking.

Variable L : nat.

Lemma split_point_spec message :
  (L < length message)%nat ->
  let p := split_point L message in
  (p = L /\ ~ In SPACE (firstn L message)) \/
  ((p < L)%nat /\ nth p message 0%N = SPACE /\
   forall i, (p < i < L)%nat -> nth i message 0%N <> SPACE).
Proof.
  intros Hlen. unfold split_point.
  assert (HL : length (firstn L message) = L)
    by (rewrite length_firstn; lia).
  destruct (rfind_spec (firstn L message) SPACE 0%N)
    as [[Hr Hnot] | (Hr & Hnth & Hlater)].
  - rewrite Hr. cbn. left. split; [reflexivity | exact Hnot].
  - unfold len in Hr. rewrite HL in Hr, Hlater.
    destruct (Z.eqb_spec (rfind (firstn L message) SPACE) (-1)); [lia|].
    set (p := Z.to_nat (rfind (firstn L message) SPACE)) in *.
    assert (Hp : (p < L)%nat) by (subst p; lia).
    right. split; [exact Hp|]. split.
    + rewrite <- Hnth. rewrite nth_firstn.
      destruct (Nat.ltb_spec p L); [reflexivity | lia].
    + intros i Hi. specialize (Hlater i Hi). rewrite nth_firstn in Hlater.
      destruct (Nat.ltb_spec i L); [exact Hlater | lia].
Qed.

Lemma split_point_le message : (split_point L message <= L)%nat.
Proof.
  unfold split_point.
  destruct (rfind_spec (firstn L message) SPACE 0%N)
    as [[Hr _] | (Hr & _)].
  - rewrite Hr. cbn. lia.
  - destruct (Z.eqb_spec (rfind (firstn L message) SPACE) (-1)); [lia|].
    unfold len in Hr. rewrite length_firstn in Hr. lia.
Qed.

(** What one run of the loop guarantees, whatever the fuel it was given. *)
Lemma chunk_message_facts fuel : forall message pieces,
  chunk_message fuel L message = Some pieces ->
  Forall (fun c => (length c <= L)%nat) (payloads pieces) /\
  weave (payloads pieces) (removed_whitespace fuel L message) = message /\
  Forall (fun g => forallb isspace g = true)
         (removed_whitespace fuel L message) /\
  length (removed_whitespace fuel L message) = pauses pieces /\
  well_paced pieces = true /\
  (message <> [] -> isspace (last message 0%N) = false ->
   ends_with_chunk pieces = true).
Proof.
  assert (Hshort : forall message pieces,
             message <> [] -> (length message <= L)%nat ->
             pieces = [Chunk message] ->
             Forall (fun c => (length c <= L)%nat) (payloads pieces) /\
             weave (payloads pieces) [] = message /\
             Forall (fun g => forallb isspace g = true) (@nil str) /\
             length (@nil str) = pauses pieces /\
             well_paced pieces = true /\
             (message <> [] -> isspace (last message 0%N) = false ->
              ends_with_chunk pieces = true)).
  { intros message pieces Hne Hle ->. cbn.
    rewrite app_nil_r. repeat split; auto. }
  induction fuel as [|fuel IH]; intros message pieces H.
  - destruct message as [|c message].
    + injection H as <-. cbn. repeat split; auto; intros; contradiction.
    + cbn [chunk_message removed_whitespace] in *.
      destruct (Nat.leb_spec (length (c :: message)) L) as [Hle | Hgt];
        [|discriminate].
      injection H as <-. apply Hshort; [discriminate | exact Hle | reflexivity].
  - destruct message as [|c message].
    + injection H as <-. cbn. repeat split; auto; intros; contradiction.
    + cbn [chunk_message removed_whitespace] in *.
      destruct (Nat.leb_spec (length (c :: message)) L) as [Hle | Hgt].
      * injection H as <-.
        apply Hshort; [discriminate | exact Hle | reflexivity].
      * set (msg := c :: message) in *.
        set (p := split_point L msg) in *.
        destruct (chunk_message fuel L (lstrip (skipn p msg)))
          as [rest|] eqn:Hrest; [|discriminate].
        injection H as <-.
        destruct (IH _ _ Hrest)
          as (Hlen & Hweave & Hgaps & Hcount & Hpaced & Hend).
        destruct (lstrip_removed (skipn p msg)) as [Hgap Hspace].
        pose proof (split_point_le msg) as Hp. fold p in Hp.
        repeat split.
        -- cbn [payloads flat_map app]. constructor; [|exact Hlen].
           rewrite length_firstn. lia.
        -- cbn [payloads flat_map app weave].
           fold (payloads rest). rewrite Hweave, Hgap.
           apply firstn_skipn.
        -- constructor; assumption.
        -- cbn [length]. rewrite Hcount. reflexivity.
        -- exact Hpaced.
        -- intros _ Hlast. apply ends_with_chunk_after.
           assert (Hsk : skipn p msg <> []).
           { intros E. apply (f_equal (@length char)) in E.
             rewrite length_skipn in E. cbn [length] in E. lia. }
           assert (Hsl : last (skipn p msg) 0%N = last msg 0%N)
             by (apply last_skipn; lia).
           rewrite <- Hsl in Hlast.
           destruct (lstrip_keeps_last _ Hsk Hlast) as [Hne Hl].
           apply Hend; [exact Hne | rewrite Hl; exact Hlast].
Qed.

Hypothesis L_positive : (1 <= L)%nat.

(** Each round of the loop shortens the message. *)
Lemma chunk_round_shortens message :
  (L < length message)%nat ->
  (length (lstrip (skipn (split_point L message) message)) < length message)%nat.
Proof.
  intros Hlen.
  pose proof (lstrip_length (skipn (split_point L message) message)) as Hl.
  rewrite length_skipn in Hl.
  destruct (split_point_spec message Hlen) as [[Hp _] | (Hp & Hnth & _)].
  - lia.
  - destruct (split_point L message) as [|p] eqn:E; [|lia].
    destruct message as [|c message]; [cbn in Hlen; lia|].
    cbn in Hnth. subst c. cbn [skipn lstrip].
    change (isspace SPACE) with true. cbn iota.
    pose proof (lstrip_length message). cbn. lia.
Qed.

Lemma chunk_message_terminates fuel : forall message,
  (length message <= fuel)%nat ->
  exists pieces, chunk_message fuel L message = Some pieces.
Proof.
  induction fuel as [|fuel IH]; intros message Hfuel.
  - destruct message; [|cbn in Hfuel; lia]. exists []. reflexivity.
  - destruct message as [|c message]; [exists []; reflexivity|].
    cbn [chunk_message].
    destruct (Nat.leb_spec (length (c :: message)) L) as [Hle | Hgt].
    + eexists. reflexivity.
    + pose proof (chunk_round_shortens _ Hgt) as Hshort.
      destruct (IH (lstrip (skipn (split_point L (c :: message)) (c :: message))))
        as (pieces & Hp); [lia|].
      rewrite Hp. eexists. reflexivity.
Qed.

End Chunking.

Lemma send_private_message_pieces target message pieces bot :
  chunk_message (length message) max_length message = Some pieces ->
  send_private_message target message bot =
  (Returned tt, bot, map (piece_action target) pieces).
Proof. intros H. unfold send_private_message. rewrite H. reflexivity. Qed.

(** C8, as amended. For every text and every maximum length [L >= 1] (the
    code's is 400) the loop of [send_private_message] ends and: each emitted
    chunk has length at most [L]; each split is made at the last space
    character (U+0020) among the first [L] characters, with a hard cut at
    [L] when there is none (other whitespace is not a split point), and the
    leading whitespace of the remainder is stripped; putting the stripped
    whitespace back after each chunk rebuilds the text; every chunk made by
    a split is followed by one pacing delay and a chunk sent last is
    followed by none, which is how the loop ends whenever the text does not
    end in whitespace. *)
Theorem chunking_spec (L : nat) (text : str) :
  (1 <= L)%nat ->
  exists pieces,
    chunk_message (length text) L text = Some pieces /\
    Forall (fun c => (length c <= L)%nat) (payloads pieces) /\
    (forall fuel message,
       (L < length message)%nat ->
       let p := split_point L message in
       chunk_message (S fuel) L message =
         option_map (fun rest => Chunk (firstn p message) :: Pause :: rest)
                    (chunk_message fuel L (lstrip (skipn p message))) /\
       ((p = L /\ ~ In SPACE (firstn L message)) \/
        ((p < L)%nat /\ nth p message 0%N = SPACE /\
         forall i, (p < i < L)%nat -> nth i message 0%N <> SPACE))) /\
    weave (payloads pieces) (removed_whitespace (length text) L text) = text /\
    Forall (fun g => forallb isspace g = true)
           (removed_whitespace (length text) L text) /\
    length (removed_whitespace (length text) L text) = pauses pieces /\
    well_paced pieces = true /\
    (text <> [] -> isspace (last text 0%N) = false ->
     ends_with_chunk pieces = true) /\
    (L = max_length -> forall target bot,
       send_private_message target text bot =
       (Returned tt, bot, map (piece_action target) pieces)).
Proof.
  intros HL.
  destruct (chunk_message_terminates L HL (length text) text (le_n _))
    as (pieces & Hpieces).
  exists pieces.
  destruct (chunk_message_facts L _ _ _ Hpieces)
    as (Hlen & Hweave & Hgaps & Hcount & Hpaced & Hend).
  repeat match goal with |- _ /\ _ => split end; try assumption.
  - intros fuel message Hgt p. split.
    + destruct message as [|c message]; [cbn in Hgt; lia|].
      cbn [chunk_message].
      destruct (Nat.leb_spec (length (c :: message)) L); [lia|].
      fold p. destruct (chunk_message fuel L _); reflexivity.
    + apply split_point_spec. exact Hgt.
  - intros -> target bot. apply send_private_message_pieces. exact Hpieces.
Qed.

Lemma chunking_spec_witness :
  exists pieces,
    chunk_message 20 5 (py "a bcd efg  hijklmnop") = Some pieces /\
    Forall (fun c => (length c <= 5)%nat) (payloads pieces) /\
    weave (payloads pieces)
          (removed_whitespace 20 5 (py "a bcd efg  hijklmnop")) =
      py "a bcd efg  hijklmnop" /\
    ends_with_chunk pieces = true.
Proof.
  destruct (chunking_spec 5 (py "a bcd efg  hijklmnop"))
    as (pieces & H1 & H2 & _ & H4 & _ & _ & _ & H7 & _).
  - lia.
  - exists pieces. repeat split; try assumption.
    apply H7; [discriminate | reflexivity].
Defined.

(** C8 as stated fails in three places. A text that ends in whitespace can
    leave nothing after a split: the loop then stops and the last chunk has
    a pacing delay after it; with the code's limit of 400 this is what 399
    letters followed by two spaces do. A tab is whitespace but not a split
    point: with [L = 5] the text [aaa<TAB>bbb] is cut at 5, not at the tab.
    And with [L = 0] the loop never ends on a text that starts with a
    non-space. *)
Lemma chunking_counterexample :
  chunk_message 4 3 (py "ab  ") = Some [Chunk (py "ab"); Pause] /\
  ends_with_chunk [Chunk (py "ab"); Pause] = false /\
  snd (send_private_message (py "alice") (repeat 97%N 399 ++ py "  ")
         SearchBot_init) =
    [Sent (privmsg (py "alice") (repeat 97%N 399)); Slept 500] /\
  isspace 9%N = true /\
  chunk_message 7 5 (py "aaa" ++ [9%N] ++ py "bbb") =
    Some [Chunk (py "aaa" ++ [9%N] ++ py "b"); Pause; Chunk (py "bb")] /\
  (forall fuel, chunk_message fuel 0 (py "a") = None).
Proof.
  repeat match goal with |- _ /\ _ => split end;
    try (vm_compute; reflexivity).
  induction fuel as [|fuel IH]; [reflexivity|].
  cbn [chunk_message py map list_ascii_of_string length Nat.leb].
  change (lstrip (skipn (split_point 0 [N_of_ascii "a"]) [N_of_ascii "a"]))
    with (py "a").
  rewrite IH. reflexivity.
Qed.

(** ** SearchGate *)

Lemma send_private_message_short target message bot :
  message <> [] -> (length message <= max_length)%nat ->
  send_private_message target message bot =
  (Returned tt, bot, [Sent (privmsg target message)]).
Proof.
  intros Hne Hle.
  apply (send_private_message_pieces target message [Chunk message]).
  destruct message as [|c message]; [contradiction|].
  destruct (length (c :: message)) eqn:E; [discriminate|].
  cbn [chunk_message]. rewrite E.
  destruct (Nat.leb_spec (S n) max_length); [reflexivity | lia].
Qed.

(** [send_private_message] never raises, leaves the bot as it is, and only
    sends and sleeps. *)
Lemma send_private_message_replies target message bot :
  exists acts,
    send_private_message target message bot = (Returned tt, bot, acts) /\
    forallb is_reply acts = true.
Proof.
  unfold send_private_message.
  destruct (chunk_message (length message) max_length message) as [pieces|].
  - eexists. split; [reflexivity|].
    induction pieces as [|[c|] pieces IH]; cbn; auto.
  - exists []. split; reflexivity.
Qed.

(** One step of symbolic execution of the handler; the string and limiter
    operations stay folded. *)
Ltac gate_step :=
  cbn -[send_private_message can_make_request strip skipn search_results
        firstn RATE_LIMIT_NOTICE USAGE_NOTICE NO_RESULTS_NOTICE ERROR_NOTICE
        HELP_NOTICE ATTRIBUTION].

Section GateFacts.

Context {R : Type}.
Variable env : Env R.

Lemma send_results_replies sender results : forall i bot,
  exists outcome acts,
    send_results env sender i results bot = (outcome, bot, acts) /\
    forallb is_reply acts = true.
Proof.
  induction results as [|r rest IH]; intros i bot; cbn [send_results].
  - exists (Returned tt), []. split; reflexivity.
  - destruct (format_search_result env i r) as [line|].
    + destruct (send_private_message_replies sender line bot)
        as (acts1 & H1 & Hr1).
      destruct (IH (S i) bot) as (outcome & acts2 & H2 & Hr2).
      exists outcome, (acts1 ++ Slept 500 :: acts2).
      unfold bind, sleep, emit. rewrite H1, H2.
      split; [destruct outcome; reflexivity|].
      rewrite forallb_app, Hr1. cbn. exact Hr2.
    + exists (Raised FormatError), []. split; reflexivity.
Qed.

Variables sender message : str.
Variable bot : SearchBot.

Let check := can_make_request (rate_limiter bot) (now env (ticks bot)).
Let query := strip (skipn 8 message).
Let recorded_at := now env (S (S (ticks bot))).

Lemma handle_private_message_denied :
  startswith message (py "!search ") = true ->
  snd check = false ->
  handle_private_message env sender message bot =
  (Returned tt, bot_after bot (fst check) 1,
   [Sent (privmsg sender RATE_LIMIT_NOTICE)]).
Proof.
  intros Hcmd Hdenied. subst check.
  unfold handle_private_message, try_except, bind,
    rate_limiter_can_make_request, tick, get_bot, set_rate_limiter, ret.
  rewrite Hcmd. gate_step.
  rewrite Hdenied. gate_step.
  rewrite send_private_message_short;
    [reflexivity | discriminate | vm_compute; lia].
Qed.

Lemma handle_private_message_usage :
  startswith message (py "!search ") = true ->
  snd check = true ->
  query = [] ->
  handle_private_message env sender message bot =
  (Returned tt, bot_after bot (fst check) 1,
   [Sent (privmsg sender USAGE_NOTICE)]).
Proof.
  intros Hcmd Hok Hq. subst check query.
  unfold handle_private_message, try_except, bind,
    rate_limiter_can_make_request, tick, get_bot, set_rate_limiter, ret.
  rewrite Hcmd. gate_step.
  rewrite Hok. gate_step.
  rewrite Hq.
  rewrite send_private_message_short;
    [reflexivity | discriminate | vm_compute; lia].
Qed.

Lemma handle_private_message_no_results :
  startswith message (py "!search ") = true ->
  snd check = true ->
  query <> [] ->
  search_results (hearch env (S (ticks bot)) query) = [] ->
  handle_private_message env sender message bot =
  (Returned tt, bot_after bot (add_request (fst check) recorded_at) 3,
   [Searched query; Recorded recorded_at;
    Sent (privmsg sender NO_RESULTS_NOTICE)]).
Proof.
  intros Hcmd Hok Hq Hnone. subst check query recorded_at.
  unfold handle_private_message, try_except, bind,
    rate_limiter_can_make_request, rate_limiter_add_request, search_hearch,
    tick, get_bot, set_rate_limiter, ret, emit.
  rewrite Hcmd. gate_step.
  rewrite Hok. gate_step.
  destruct (strip (skipn 8 message)) as [|c q] eqn:E; [contradiction|].
  gate_step.
  rewrite Hnone.
  rewrite send_private_message_short;
    [reflexivity | discriminate | vm_compute; lia].
Qed.

Lemma handle_private_message_results :
  startswith message (py "!search ") = true ->
  snd check = true ->
  query <> [] ->
  search_results (hearch env (S (ticks bot)) query) <> [] ->
  exists replies,
    handle_private_message env sender message bot =
    (Returned tt, bot_after bot (add_request (fst check) recorded_at) 3,
     Searched query :: Recorded recorded_at :: replies) /\
    forallb is_reply replies = true.
Proof.
  intros Hcmd Hok Hq Hsome. subst check query recorded_at.
  unfold handle_private_message, try_except, bind,
    rate_limiter_can_make_request, rate_limiter_add_request, search_hearch,
    tick, get_bot, set_rate_limiter, ret, emit, sleep.
  rewrite Hcmd. gate_step.
  rewrite Hok. gate_step.
  destruct (strip (skipn 8 message)) as [|c q] eqn:E; [contradiction|].
  gate_step.
  destruct (search_results (hearch env (S (ticks bot)) (c :: q)))
    as [|r rs] eqn:Hres; [contradiction|].
  gate_step.
  match goal with
  | |- context [send_results env sender 1 ?l ?b] =>
      destruct (send_results_replies sender l 1 b)
        as (outcome & acts & Hsend & Hacts); rewrite Hsend
  end.
  destruct outcome as [[]|e].
  - match goal with
    | |- context [send_private_message sender ?m ?b] =>
        destruct (send_private_message_replies sender m b)
          as (acts' & Hattr & Hacts'); rewrite Hattr
    end.
    eexists. split; [reflexivity|].
    rewrite forallb_app, Hacts. cbn. exact Hacts'.
  - cbn -[send_private_message].
    match goal with
    | |- context [send_private_message sender ?m ?b] =>
        destruct (send_private_message_replies sender m b)
          as (acts' & Herr & Hacts'); rewrite Herr
    end.
    eexists. split; [reflexivity|].
    cbn. rewrite forallb_app, Hacts. exact Hacts'.
Qed.

Lemma handle_private_message_other :
  startswith message (py "!search ") = false ->
  exists replies,
    handle_private_message env sender message bot =
    (Returned tt, bot, replies) /\
    forallb is_reply replies = true.
Proof.
  intros Hcmd.
  unfold handle_private_message, try_except, ret. rewrite Hcmd.
  destruct (str_eqb message (py "!help")).
  - destruct (send_private_message_replies sender HELP_NOTICE bot)
      as (acts & H & Hacts).
    rewrite H. exists acts. split; [reflexivity | exact Hacts].
  - exists []. split; reflexivity.
Qed.

End GateFacts.

Lemma replies_only (replies : list Action) :
  forallb is_reply replies = true ->
  count is_Recorded replies = 0%nat /\
  count is_Searched replies = 0%nat /\
  existsb is_Searched replies = false /\
  existsb is_Recorded replies = false /\
  precedes is_Recorded is_Searched replies = false.
Proof.
  unfold count.
  induction replies as [|a replies IH]; intros H; [repeat split|].
  cbn in H. apply andb_true_iff in H as [Ha H].
  destruct (IH H) as (H1 & H2 & H3 & H4 & H5).
  destruct a; try discriminate; cbn; rewrite ?H3, ?H4; auto.
Qed.

Lemma can_make_request_only_pops (rl : RateLimiter) (t : Z) :
  let rl' := fst (can_make_request rl t) in
  (exists gone, minute_window rl = gone ++ minute_window rl' /\
                Forall (fun u => u < t - timedelta_minutes 1) gone) /\
  (exists gone, day_window rl = gone ++ day_window rl' /\
                Forall (fun u => u < t - timedelta_days 1) gone) /\
  count_within (timedelta_minutes 1) t (minute_window rl') =
    count_within (timedelta_minutes 1) t (minute_window rl) /\
  count_within (timedelta_days 1) t (day_window rl') =
    count_within (timedelta_days 1) t (day_window rl).
Proof.
  cbn [can_make_request fst minute_window day_window].
  destruct (popleft_while_older_split (t - timedelta_minutes 1)
              (minute_window rl)) as (gm & Hgm & Hm).
  destruct (popleft_while_older_split (t - timedelta_days 1)
              (day_window rl)) as (gd & Hgd & Hd).
  repeat split.
  - exists gm. split; assumption.
  - exists gd. split; assumption.
  - rewrite Hgm at 2.
    rewrite count_within_app, (count_within_expired _ _ _ Hm). reflexivity.
  - rewrite Hgd at 2.
    rewrite count_within_app, (count_within_expired _ _ _ Hd). reflexivity.
Qed.

(** C3, as amended. For every private message handled, [add_request] is
    called only when the message is a search command with non-empty
    trailing text and [can_make_request] returned [True], never otherwise;
    it is then called exactly once, right after the one call of the search
    collaborator has returned and before any reply is sent. *)
Theorem limiter_recorded_once_after_search {R : Type} (env : Env R)
    (sender message : str) (bot bot' : SearchBot)
    (outcome : Outcome unit) (acts : list Action) :
  handle_private_message env sender message bot = (outcome, bot', acts) ->
  let check := can_make_request (rate_limiter bot) (now env (ticks bot)) in
  let query := strip (skipn 8 message) in
  let recorded_at := now env (S (S (ticks bot))) in
  let approved :=
    startswith message (py "!search ") && negb (str_eqb query []) && snd check in
  outcome = Returned tt /\
  count is_Recorded acts = (if approved then 1 else 0)%nat /\
  count is_Searched acts = (if approved then 1 else 0)%nat /\
  (approved = true ->
   (exists replies,
      acts = Searched query :: Recorded recorded_at :: replies /\
      forallb is_reply replies = true) /\
   rate_limiter bot' = add_request (fst check) recorded_at /\
   precedes is_Searched is_Recorded acts = true /\
   precedes is_Recorded is_Searched acts = false) /\
  (approved = false ->
   rate_limiter bot' =
   if startswith message (py "!search ") then fst check else rate_limiter bot).
Proof.
  intros H check query recorded_at approved.
  destruct (startswith message (py "!search ")) eqn:Hcmd.
  - destruct (snd check) eqn:Hok.
    + destruct query as [|c q] eqn:Hq.
      * rewrite (handle_private_message_usage env sender message bot Hcmd Hok Hq)
          in H.
        injection H as <- <- <-. subst approved. cbn.
        repeat split; intros; try discriminate; reflexivity.
      * assert (Hne : strip (skipn 8 message) <> [])
          by (fold query; rewrite Hq; discriminate).
        assert (Happ : approved = true) by (subst approved; reflexivity).
        rewrite Happ.
        assert (Hshape : exists replies,
                   outcome = Returned tt /\
                   bot' = bot_after bot (add_request (fst check) recorded_at) 3 /\
                   acts = Searched (c :: q) :: Recorded recorded_at :: replies /\
                   forallb is_reply replies = true).
        { destruct (search_results (hearch env (S (ticks bot)) (c :: q)))
            as [|r rs] eqn:Hres.
          - pose proof (handle_private_message_no_results env sender message
                          bot Hcmd Hok Hne) as Hn.
            fold query in Hn. rewrite Hq in Hn. rewrite (Hn Hres) in H.
            injection H as <- <- <-. eexists. repeat split; reflexivity.
          - destruct (handle_private_message_results env sender message
                        bot Hcmd Hok Hne) as (replies & Hr & Hreplies).
            + fold query. rewrite Hq, Hres. discriminate.
            + fold query in Hr. rewrite Hq in Hr. rewrite Hr in H.
              injection H as <- <- <-. exists replies.
              repeat split; try reflexivity; exact Hreplies. }
        destruct Hshape as (replies & -> & -> & -> & Hreplies).
        destruct (replies_only _ Hreplies) as (H1 & H2 & H3 & H4 & H5).
        unfold count in *. cbn. rewrite H1, H2, H3, H5.
        repeat split; try discriminate.
        exists replies. split; [reflexivity | exact Hreplies].
    + rewrite (handle_private_message_denied env sender message bot Hcmd Hok)
        in H.
      injection H as <- <- <-. subst approved. rewrite andb_false_r. cbn.
      repeat split; intros; try discriminate; reflexivity.
  - destruct (handle_private_message_other env sender message bot Hcmd)
      as (replies & Hr & Hreplies).
    rewrite Hr in H. injection H as <- <- <-.
    destruct (replies_only _ Hreplies) as (H1 & H2 & _).
    subst approved. cbn. repeat split; intros; try discriminate; assumption.
Qed.

Lemma limiter_recorded_once_after_search_witness :
  count is_Recorded
        [Searched (py "cats"); Recorded 7;
         Sent (privmsg (py "alice") NO_RESULTS_NOTICE)] = 1%nat.
Proof.
  exact (proj1 (proj2
    (limiter_recorded_once_after_search (frozen_env 7) (py "alice")
       (py "!search cats") SearchBot_init _ _ _ eq_refl))).
Defined.

(** C3 as stated fails on the order: the handler calls [search_hearch]
    first and [add_request] after it (lines 274-275), so the record does not
    come before the call of the search collaborator. *)
Lemma record_before_search_counterexample :
  let env := mkEnv unit (fun t => Z.of_nat t)
                   (fun _ _ => Replied 200 (BodyObject (ResultsList [tt])))
                   (fun _ _ => Some (py "1. result")) in
  let acts := snd (handle_private_message env (py "alice")
                     (py "!search cats") SearchBot_init) in
  acts = [Searched (py "cats"); Recorded 2;
          Sent (privmsg (py "alice") (py "1. result")); Slept 500; Slept 500;
          Sent (privmsg (py "alice") ATTRIBUTION)] /\
  precedes is_Searched is_Recorded acts = true /\
  precedes is_Recorded is_Searched acts = false.
Proof.
  repeat split.
Qed.

(** C4, as amended. For every private search command with non-empty query
    received while [can_make_request] returns [False], exactly one private
    reply, the rate-limit notice, is sent, the search collaborator is not
    called and no timestamp is recorded. The deques are left as the check
    itself leaves them: expired timestamps popped from their heads, nothing
    added, the number of timestamps within each trailing span unchanged. *)
Theorem denied_search_replies_once {R : Type} (env : Env R)
    (sender message : str) (bot : SearchBot) :
  startswith message (py "!search ") = true ->
  strip (skipn 8 message) <> [] ->
  snd (can_make_request (rate_limiter bot) (now env (ticks bot))) = false ->
  let t := now env (ticks bot) in
  let rl := rate_limiter bot in
  let rl' := fst (can_make_request rl t) in
  handle_private_message env sender message bot =
    (Returned tt, bot_after bot rl' 1,
     [Sent (privmsg sender RATE_LIMIT_NOTICE)]) /\
  (exists gone, minute_window rl = gone ++ minute_window rl' /\
                Forall (fun u => u < t - timedelta_minutes 1) gone) /\
  (exists gone, day_window rl = gone ++ day_window rl' /\
                Forall (fun u => u < t - timedelta_days 1) gone) /\
  count_within (timedelta_minutes 1) t (minute_window rl') =
    count_within (timedelta_minutes 1) t (minute_window rl) /\
  count_within (timedelta_days 1) t (day_window rl') =
    count_within (timedelta_days 1) t (day_window rl).
Proof.
  intros Hcmd _ Hdenied t rl rl'. split.
  - apply handle_private_message_denied; assumption.
  - apply can_make_request_only_pops.
Qed.

Lemma five_at_once :
  run_calls (RateLimiter_init 5 500)
    [CanMakeRequest 0; AddRequest 0; CanMakeRequest 0; AddRequest 0;
     CanMakeRequest 0; AddRequest 0; CanMakeRequest 0; AddRequest 0;
     CanMakeRequest 0; AddRequest 0] =
  mkRateLimiter 5 500 [0; 0; 0; 0; 0] [0; 0; 0; 0; 0].
Proof. reflexivity. Qed.

Lemma denied_search_replies_once_witness :
  let bot := mkSearchBot (py "SearchBot") [py "#test_room"]
               (mkRateLimiter 5 500 [0; 0; 0; 0; 0] [0; 0; 0; 0; 0]) 0 in
  handle_private_message (frozen_env 1) (py "alice") (py "!search x") bot =
  (Returned tt, bot_after bot (rate_limiter bot) 1,
   [Sent (privmsg (py "alice") RATE_LIMIT_NOTICE)]).
Proof.
  intros bot.
  apply (denied_search_replies_once (frozen_env 1) (py "alice")
           (py "!search x") bot).
  - reflexivity.
  - discriminate.
  - reflexivity.
Defined.

(** C4 as stated fails on the deques: the check that denies the request is
    the one that prunes them. After a day's quota of 500 requests made five
    a minute, a search command two minutes later is denied by the day
    deque, and the same check empties the minute deque of its five expired
    timestamps. *)
Lemma denied_search_windows_counterexample :
  let rl := run_calls (RateLimiter_init 5 500) busy_day_calls in
  let bot := mkSearchBot (py "SearchBot") [py "#test_room"] rl 0 in
  let result := handle_private_message (frozen_env 6159000000) (py "alice")
                  (py "!search x") bot in
  gated (RateLimiter_init 5 500) false busy_day_calls = true /\
  nondecreasing_clock busy_day_calls = true /\
  snd (can_make_request rl 6159000000) = false /\
  snd result = [Sent (privmsg (py "alice") RATE_LIMIT_NOTICE)] /\
  minute_window rl = [6039000000; 6039000000; 6039000000;
                      6039000000; 6039000000] /\
  minute_window (rate_limiter (snd (fst result))) = [] /\
  minute_window (rate_limiter (snd (fst result))) <> minute_window rl.
Proof.
  cbv zeta.
  repeat match goal with |- _ /\ _ => split end;
    try (vm_compute; reflexivity).
  vm_compute. discriminate.
Qed.

(** C9. [search_hearch] always returns at most five results, the first five
    of the API's answer in their order; when the collaborator fails (the
    request raises or times out, the status is not 200, the body cannot be
    read) it returns the empty list, and for an approved search command the
    handler then does exactly what it does for a genuinely empty result
    set: one call recorded and the single reply [No results found.]. *)
Theorem search_failure_reads_as_no_results {R : Type} (env : Env R)
    (sender message : str) (bot : SearchBot) :
  (forall response : Response R,
     (length (search_results response) <= 5)%nat) /\
  (forall rs : list R,
     search_results (Replied 200 (BodyObject (ResultsList rs))) = firstn 5 rs) /\
  (forall response : Response R,
     collaborator_failed response = true -> search_results response = []) /\
  (let check := can_make_request (rate_limiter bot) (now env (ticks bot)) in
   let query := strip (skipn 8 message) in
   let recorded_at := now env (S (S (ticks bot))) in
   let empty_env :=
     mkEnv R (now env)
           (fun _ _ => Replied 200 (BodyObject (ResultsList [])))
           (format_search_result env) in
   startswith message (py "!search ") = true ->
   query <> [] ->
   snd check = true ->
   collaborator_failed (hearch env (S (ticks bot)) query) = true ->
   handle_private_message env sender message bot =
     (Returned tt, bot_after bot (add_request (fst check) recorded_at) 3,
      [Searched query; Recorded recorded_at;
       Sent (privmsg sender NO_RESULTS_NOTICE)]) /\
   handle_private_message env sender message bot =
     handle_private_message empty_env sender message bot).
Proof.
  assert (Hfail : forall response : Response R,
             collaborator_failed response = true ->
             search_results response = []).
  { intros [|code body]; [reflexivity|]. cbn.
    destruct (code =? 200); [|reflexivity].
    destruct body as [| |[|rs|]]; cbn; (reflexivity || discriminate). }
  repeat match goal with |- _ /\ _ => split end.
  - intros [|code body]; [cbn; lia|]. unfold search_results.
    destruct (code =? 200); [|cbn; lia].
    destruct body as [| |[|rs|]]; try (cbn; lia).
    rewrite length_firstn. lia.
  - reflexivity.
  - exact Hfail.
  - intros check query recorded_at empty_env Hcmd Hq Hok Hfailed.
    rewrite (handle_private_message_no_results env sender message bot
               Hcmd Hok Hq (Hfail _ Hfailed)).
    rewrite (handle_private_message_no_results empty_env sender message bot
               Hcmd Hok Hq eq_refl).
    split; reflexivity.
Qed.

Lemma search_failure_reads_as_no_results_witness :
  handle_private_message (frozen_env 3) (py "alice") (py "!search cats")
    SearchBot_init =
  (Returned tt,
   bot_after SearchBot_init (mkRateLimiter 5 500 [3] [3]) 3,
   [Searched (py "cats"); Recorded 3;
    Sent (privmsg (py "alice") NO_RESULTS_NOTICE)]).
Proof.
  destruct (search_failure_reads_as_no_results (frozen_env 3) (py "alice")
              (py "!search cats") SearchBot_init) as (_ & _ & _ & H).
  cbv zeta in H.
  destruct H as [H _]; [reflexivity | discriminate | reflexivity | reflexivity |].
  exact H.
Defined.

(** ** CommandDispatcher *)

Section DispatchFacts.

Context {R : Type}.
Variable env : Env R.
Variable bot : SearchBot.

(** A line with [PRIVMSG] but without [PRIVMSG ] followed by more text is
    skipped by the inner [except IndexError]. *)
Lemma dispatch_line_index_error_skipped line :
  startswith line (py "PING") = false ->
  contains line (py "PRIVMSG") = true ->
  cut (py "PRIVMSG ") line = None ->
  dispatch_line env line bot = (Returned tt, bot, []).
Proof.
  intros Hping Hmark Hcut.
  unfold dispatch_line, bind, try_except, split1, ret.
  rewrite Hping, Hmark, Hcut. reflexivity.
Qed.

(** A line whose text after [PRIVMSG ] holds no colon makes the unpacking
    raise [ValueError], which the inner [except IndexError] lets through. *)
Lemma dispatch_line_value_error line before rest :
  startswith line (py "PING") = false ->
  contains line (py "PRIVMSG") = true ->
  cut (py "PRIVMSG ") line = Some (before, rest) ->
  cut (py ":") rest = None ->
  dispatch_line env line bot = (Raised ValueError, bot, []).
Proof.
  intros Hping Hmark Hcut Hcolon.
  unfold dispatch_line, bind, try_except, split1, ret.
  rewrite Hping, Hmark, Hcut. cbn [nth_error]. rewrite Hcolon. reflexivity.
Qed.

(** An exception in one line ends the [for] loop: the lines after it are
    not dispatched. *)
Lemma dispatch_lines_raised line rest e bot' acts :
  dispatch_line env line bot = (Raised e, bot', acts) ->
  dispatch_lines env (line :: rest) bot = (Raised e, bot', acts).
Proof.
  intros H. cbn [dispatch_lines]. unfold bind. rewrite H. reflexivity.
Qed.

End DispatchFacts.

(** C6 (the code departs from it). A line with the delivery marker but no
    colon after the target is not skipped: the unpacking of line 338 raises
    [ValueError], the [except IndexError] of line 348 does not catch it, the
    lines that follow in the same batch are never dispatched (the [PING]
    here gets no [PONG]) and the outer handler of [run] sleeps 30 seconds
    and reconnects. A [PING] without argument does the same through the
    [IndexError] of line 331, raised outside the inner [try]. *)
Theorem malformed_line_ends_session {R : Type} (env : Env R) (bot : SearchBot) :
  let bad := py ":alice!u@h PRIVMSG SearchBot hello" in
  let ping := py "PING :irc.example.com" in
  contains bad (py "PRIVMSG") = true /\
  dispatch_line env bad bot = (Raised ValueError, bot, []) /\
  dispatch_lines env [ping] bot =
    (Returned tt, bot, [Sent (py "PONG :irc.example.com")]) /\
  dispatch_lines env [bad; ping] bot = (Raised ValueError, bot, []) /\
  run_pass env []
    (wire ":alice!u@h PRIVMSG SearchBot hello" ++ wire "PING :irc.example.com")
    bot = (Returned Reconnecting, bot, [Slept 30000]) /\
  dispatch_line env (py "PING") bot = (Raised IndexError, bot, []) /\
  run_pass env [] (wire "PING" ++ wire "PING :irc.example.com") bot =
    (Returned Reconnecting, bot, [Slept 30000]).
Proof.
  cbv zeta. repeat match goal with |- _ /\ _ => split end; reflexivity.
Qed.

(** ** How the pieces fit *)

Lemma lstrip_head s c rest : lstrip s = c :: rest -> isspace c = false.
Proof.
  induction s as [|x s IH]; cbn; [discriminate|].
  destruct (isspace x) eqn:E; [exact IH|].
  intros H. injection H as <- _. exact E.
Qed.

Lemma lstrip_fixed s c rest :
  s = c :: rest -> isspace c = false -> lstrip s = s.
Proof. intros -> H. cbn. rewrite H. reflexivity. Qed.

Lemma last_rev (s : str) (d : char) : last (rev s) d = hd d s.
Proof.
  destruct s as [|c s]; [reflexivity|].
  cbn [rev hd]. apply last_last.
Qed.

Lemma rstrip_last s : rstrip s <> [] -> isspace (last (rstrip s) 0%N) = false.
Proof.
  unfold rstrip. intros Hne. rewrite last_rev.
  destruct (lstrip (rev s)) as [|c rest] eqn:E; [contradiction|].
  apply lstrip_head in E. exact E.
Qed.

Lemma rstrip_fixed (s : str) :
  s <> [] -> isspace (last s 0%N) = false -> rstrip s = s.
Proof.
  intros Hne Hlast. unfold rstrip.
  rewrite <- (rev_involutive s) in Hlast. rewrite last_rev in Hlast.
  destruct (rev s) as [|c rest] eqn:E.
  - apply (f_equal (@rev char)) in E. rewrite rev_involutive in E.
    contradiction.
  - rewrite (lstrip_fixed _ c rest eq_refl Hlast).
    rewrite <- E. apply rev_involutive.
Qed.

Lemma startswith_prefix s prefix :
  startswith s prefix = true -> s = prefix ++ skipn (length prefix) s.
Proof.
  revert s. induction prefix as [|p prefix IH]; intros s H; [reflexivity|].
  destruct s as [|c s]; [discriminate|].
  cbn in H. apply andb_true_iff in H as [Hc H]. apply N.eqb_eq in Hc.
  subst c. cbn. f_equal. apply IH. exact H.
Qed.

(** [run] strips the message before it calls the handler (line 340), so a
    message that reaches [handle_private_message] from the network and
    starts with [!search ] always has a non-empty query: the usage branch of
    lines 269-271 is not reached from [run]. *)
Lemma stripped_search_has_query (raw : str) :
  let message := strip raw in
  startswith message (py "!search ") = true ->
  strip (skipn 8 message) <> [].
Proof.
  intros message Hcmd.
  pose proof (startswith_prefix _ _ Hcmd) as Hsplit.
  change (length (py "!search ")) with 8%nat in Hsplit.
  assert (Hne : message <> []) by (rewrite Hsplit; discriminate).
  pose proof (rstrip_last (lstrip raw) Hne) as Hlast.
  fold (strip raw) in Hlast. fold message in Hlast.
  assert (Hlen : (8 < length message)%nat).
  { destruct (skipn 8 message) as [|c tail] eqn:E.
    - rewrite Hsplit in Hlast. discriminate.
    - rewrite Hsplit, length_app. cbn. lia. }
  assert (Htail : skipn 8 message <> []).
  { intros E. apply (f_equal (@length char)) in E.
    rewrite length_skipn in E. cbn in E. lia. }
  rewrite <- (last_skipn message 8 0%N Hlen) in Hlast.
  destruct (lstrip_keeps_last _ Htail Hlast) as [Hl Hll].
  unfold strip. rewrite rstrip_fixed; [exact Hl | exact Hl |].
  rewrite Hll. exact Hlast.
Qed.

(** The private line [!search ] from the network: the message is stripped
    to [!search], which is neither command, and nothing is sent. *)
Lemma bare_search_line_is_silent {R : Type} (env : Env R)
    (rl : RateLimiter) (n : nat) :
  dispatch_line env (py ":alice!u@h PRIVMSG SearchBot :!search ")
    (mkSearchBot (py "SearchBot") [py "#test_room"] rl n) =
  (Returned tt, mkSearchBot (py "SearchBot") [py "#test_room"] rl n, []).
Proof. reflexivity. Qed.

(** The limiter calls of one handled message form a gated sequence: at most
    one check, and a record only right after a check that returned [True].
    The handler thus follows the calling discipline under which the call
    budget holds. *)
Lemma handler_calls_are_gated {R : Type} (env : Env R)
    (sender message : str) (bot bot' : SearchBot)
    (outcome : Outcome unit) (acts : list Action) :
  handle_private_message env sender message bot = (outcome, bot', acts) ->
  exists calls,
    rate_limiter bot' = run_calls (rate_limiter bot) calls /\
    (forall armed, gated (rate_limiter bot) armed calls = true) /\
    (length calls <= 2)%nat.
Proof.
  intros H.
  destruct (startswith message (py "!search ")) eqn:Hcmd.
  - destruct (snd (can_make_request (rate_limiter bot) (now env (ticks bot))))
      eqn:Hok.
    + destruct (strip (skipn 8 message)) as [|c q] eqn:Hq.
      * rewrite (handle_private_message_usage env sender message bot
                   Hcmd Hok Hq) in H.
        injection H as _ <- _.
        exists [CanMakeRequest (now env (ticks bot))].
        repeat split; cbn; lia.
      * assert (Hne : strip (skipn 8 message) <> [])
          by (rewrite Hq; discriminate).
        assert (Hbot : bot' =
                  bot_after bot
                    (add_request
                       (fst (can_make_request (rate_limiter bot)
                                              (now env (ticks bot))))
                       (now env (S (S (ticks bot))))) 3).
        { destruct (search_results (hearch env (S (ticks bot))
                      (strip (skipn 8 message)))) as [|r rs] eqn:Hres.
          - rewrite (handle_private_message_no_results env sender message
                       bot Hcmd Hok Hne Hres) in H.
            injection H as _ <- _. reflexivity.
          - destruct (handle_private_message_results env sender message
                        bot Hcmd Hok Hne) as (replies & Hr & _).
            + rewrite Hres. discriminate.
            + rewrite Hr in H. injection H as _ <- _. reflexivity. }
        subst bot'.
        exists [CanMakeRequest (now env (ticks bot));
                AddRequest (now env (S (S (ticks bot))))].
        repeat split; [|cbn; lia].
        intros armed. cbn [gated]. rewrite Hok. reflexivity.
    + rewrite (handle_private_message_denied env sender message bot
                 Hcmd Hok) in H.
      injection H as _ <- _.
      exists [CanMakeRequest (now env (ticks bot))].
      repeat split; cbn; lia.
  - destruct (handle_private_message_other env sender message bot Hcmd)
      as (replies & Hr & _).
    rewrite Hr in H. injection H as _ <- _.
    exists []. repeat split; cbn; lia.
Qed.

(* ===================================================================== *)
(** * Part III: further properties of the code *)
(* ===================================================================== *)

(** ** More on the limiter *)

Lemma popleft_while_older_twice c1 c2 window :
  c1 <= c2 ->
  popleft_while_older c2 (popleft_while_older c1 window) =
  popleft_while_older c2 window.
Proof.
  intros Hc. induction window as [|t rest IH]; [reflexivity|].
  destruct (Z.lt_ge_cases t c1) as [Hlt | Hge].
  - rewrite (popleft_while_older_drop c1) by exact Hlt.
    rewrite (popleft_while_older_drop c2 t) by lia. exact IH.
  - rewrite (popleft_while_older_keep c1) by exact Hge. reflexivity.
Qed.

(** X1. Pruning is lazy but loses nothing: a check made at [t1] followed by
    a check at a later time [t2] leaves the limiter, and gives the answer,
    that the check at [t2] alone would have; in particular a check repeated
    at the same instant changes nothing more. *)
Theorem can_make_request_absorbs_earlier_check (rl : RateLimiter) (t1 t2 : Z) :
  t1 <= t2 ->
  can_make_request (fst (can_make_request rl t1)) t2 = can_make_request rl t2.
Proof.
  intros H. unfold can_make_request.
  cbn [fst minute_window day_window requests_per_minute requests_per_day].
  rewrite !popleft_while_older_twice
    by (unfold timedelta_minutes, timedelta_days; lia).
  reflexivity.
Qed.

Lemma can_make_request_absorbs_earlier_check_witness :
  can_make_request
    (fst (can_make_request (mkRateLimiter 2 500 [0; 50000000] [0; 50000000])
                           61000000))
    120000000 =
  (mkRateLimiter 2 500 [] [0; 50000000], true).
Proof.
  rewrite (can_make_request_absorbs_earlier_check _ 61000000 120000000)
    by lia.
  reflexivity.
Defined.

Lemma popleft_while_older_all cutoff window :
  Forall (fun t => t < cutoff) window -> popleft_while_older cutoff window = [].
Proof.
  induction 1 as [|t rest Ht _ IH]; [reflexivity|].
  rewrite popleft_while_older_drop by exact Ht. exact IH.
Qed.

(** X2. The minute quota comes back by itself: once every timestamp of the
    minute deque is more than a minute old, a check empties that deque, and
    it is approved exactly when [requests_per_minute] is positive and the
    pruned day deque has room. *)
Theorem minute_quota_recovers (rl : RateLimiter) (now : Z) :
  Forall (fun t => t < now - timedelta_minutes 1) (minute_window rl) ->
  minute_window (fst (can_make_request rl now)) = [] /\
  (snd (can_make_request rl now) = true <->
   0 < requests_per_minute rl /\
   len (day_window (fst (can_make_request rl now))) < requests_per_day rl).
Proof.
  intros Hold. unfold can_make_request. cbn [fst snd minute_window day_window].
  rewrite (popleft_while_older_all _ _ Hold). split; [reflexivity|].
  rewrite andb_true_iff, !Z.ltb_lt. reflexivity.
Qed.

Lemma minute_quota_recovers_witness :
  snd (can_make_request (mkRateLimiter 5 500 [0; 0; 0; 0; 0] [0; 0; 0; 0; 0])
                        60000001) = true.
Proof.
  apply (minute_quota_recovers
           (mkRateLimiter 5 500 [0; 0; 0; 0; 0] [0; 0; 0; 0; 0]) 60000001).
  - repeat constructor.
  - split; cbn; [lia | unfold len; cbn; lia].
Defined.

Lemma history_ok_can_make_request last now hist rl :
  history_ok last hist rl -> last <= now ->
  history_ok now hist (fst (can_make_request rl now)).
Proof.
  intros ((gm & Hm & Hgm) & (gd & Hd & Hgd) & Hs & Hle) Hnow.
  unfold history_ok, can_make_request. cbn [fst minute_window day_window].
  destruct (popleft_while_older_split (now - timedelta_minutes 1)
              (minute_window rl)) as (pm & Hpm & Hpm').
  destruct (popleft_while_older_split (now - timedelta_days 1)
              (day_window rl)) as (pd & Hpd & Hpd').
  repeat split.
  - exists (gm ++ pm). split.
    + rewrite <- app_assoc, <- Hpm. exact Hm.
    + apply Forall_app. split; [|exact Hpm'].
      eapply Forall_impl; [|exact Hgm]. cbn. intros; lia.
  - exists (gd ++ pd). split.
    + rewrite <- app_assoc, <- Hpd. exact Hd.
    + apply Forall_app. split; [|exact Hpd'].
      eapply Forall_impl; [|exact Hgd]. cbn. intros; lia.
  - exact Hs.
  - eapply Forall_impl; [|exact Hle]. cbn. intros; lia.
Qed.

Lemma history_ok_add_request last now hist rl :
  history_ok last hist rl -> last <= now ->
  history_ok now (hist ++ [now]) (add_request rl now).
Proof.
  intros ((gm & Hm & Hgm) & (gd & Hd & Hgd) & Hs & Hle) Hnow.
  unfold history_ok, add_request. cbn [minute_window day_window].
  assert (Hle' : Forall (fun t => t <= now) hist)
    by (eapply Forall_impl; [|exact Hle]; cbn; intros; lia).
  repeat split.
  - exists gm. split; [rewrite Hm, app_assoc; reflexivity|].
    eapply Forall_impl; [|exact Hgm]. cbn. intros; lia.
  - exists gd. split; [rewrite Hd, app_assoc; reflexivity|].
    eapply Forall_impl; [|exact Hgd]. cbn. intros; lia.
  - apply sorted_snoc; assumption.
  - apply Forall_app. split; [exact Hle' | constructor; [lia | constructor]].
Qed.

Lemma history_ok_run calls : forall last hist rl,
  history_ok last hist rl ->
  clock_from last calls = true ->
  history_ok (last_time last calls) (hist ++ recorded calls)
             (run_calls rl calls).
Proof.
  induction calls as [|c cs IH]; intros last hist rl Hok Hclock.
  - cbn. rewrite app_nil_r. exact Hok.
  - cbn [clock_from] in Hclock. apply andb_true_iff in Hclock as [Hc Hcs].
    apply Z.leb_le in Hc.
    unfold run_calls, last_time. cbn [fold_left].
    destruct c as [now | now]; cbn [recorded step call_time] in *.
    + apply IH; [|exact Hcs].
      eapply history_ok_can_make_request; eassumption.
    + replace (hist ++ now :: recorded cs)
        with ((hist ++ [now]) ++ recorded cs)
        by (rewrite <- app_assoc; reflexivity).
      apply IH; [|exact Hcs].
      eapply history_ok_add_request; eassumption.
Qed.

Lemma history_ok_init rpm rpd last :
  history_ok last [] (RateLimiter_init rpm rpd).
Proof.
  unfold history_ok. cbn.
  repeat split; try constructor; exists []; split; (reflexivity || constructor).
Qed.

Lemma filter_expired cutoff gone :
  Forall (fun t => t < cutoff) gone ->
  filter (fun t => cutoff <=? t) gone = [].
Proof.
  induction 1 as [|t rest Ht _ IH]; [reflexivity|].
  cbn. destruct (Z.leb_spec cutoff t); [lia | exact IH].
Qed.

Lemma recorded_app xs ys : recorded (xs ++ ys) = recorded xs ++ recorded ys.
Proof.
  induction xs as [|[now|now] xs IH]; cbn; [reflexivity | exact IH |].
  rewrite IH. reflexivity.
Qed.

(** X3. The deques are exact after a check: under a clock that never goes
    back, after any sequence of calls (gated or not) that ends with a check
    at time [now], the minute deque holds exactly the recorded timestamps
    that are not older than a minute, in order, and the day deque exactly
    those not older than a day. *)
Theorem windows_hold_exactly_the_recent (rpm rpd : Z) (calls : list Call) (now : Z) :
  nondecreasing_clock (calls ++ [CanMakeRequest now]) = true ->
  let rl := run_calls (RateLimiter_init rpm rpd) (calls ++ [CanMakeRequest now]) in
  minute_window rl =
    filter (fun t => now - timedelta_minutes 1 <=? t) (recorded calls) /\
  day_window rl =
    filter (fun t => now - timedelta_days 1 <=? t) (recorded calls).
Proof.
  intros Hclock rl.
  assert (Hok : exists last,
             last <= now /\
             history_ok last (recorded calls)
                        (run_calls (RateLimiter_init rpm rpd) calls)).
  { destruct calls as [|c cs].
    - exists now. split; [lia | apply history_ok_init].
    - cbn [app nondecreasing_clock] in Hclock.
      apply clock_from_app in Hclock as [Hcs Hlast].
      cbn in Hlast. rewrite andb_true_r in Hlast. apply Z.leb_le in Hlast.
      exists (last_time (call_time c) cs). split; [exact Hlast|].
      assert (Hfirst : clock_from (call_time c) (c :: cs) = true)
        by (cbn; rewrite Z.leb_refl; exact Hcs).
      exact (history_ok_run (c :: cs) (call_time c) [] _
               (history_ok_init rpm rpd _) Hfirst). }
  destruct Hok as (last & Hlast & (gm & Hm & Hgm) & (gd & Hd & Hgd) & Hs & _).
  subst rl. unfold run_calls. rewrite fold_left_app. cbn [fold_left step].
  fold (run_calls (RateLimiter_init rpm rpd) calls).
  unfold can_make_request. cbn [fst minute_window day_window].
  split.
  - rewrite Hm in Hs. rewrite popleft_while_older_sorted
      by (eapply sorted_suffix; exact Hs).
    rewrite Hm, filter_app, (filter_expired _ gm); [reflexivity|].
    eapply Forall_impl; [|exact Hgm]. cbn. intros; lia.
  - rewrite Hd in Hs. rewrite popleft_while_older_sorted
      by (eapply sorted_suffix; exact Hs).
    rewrite Hd, filter_app, (filter_expired _ gd); [reflexivity|].
    eapply Forall_impl; [|exact Hgd]. cbn. intros; lia.
Qed.

Lemma windows_hold_exactly_the_recent_witness :
  minute_window
    (run_calls (RateLimiter_init 5 500)
       [AddRequest 0; AddRequest 30000000; AddRequest 70000000;
        CanMakeRequest 90000000]) = [30000000; 70000000].
Proof.
  apply (windows_hold_exactly_the_recent 5 500
           [AddRequest 0; AddRequest 30000000; AddRequest 70000000] 90000000).
  reflexivity.
Defined.

Lemma gated_lengths calls : forall (rl : RateLimiter) (armed : bool),
  len (minute_window rl) + (if armed then 1 else 0) <= requests_per_minute rl ->
  len (day_window rl) + (if armed then 1 else 0) <= requests_per_day rl ->
  gated rl armed calls = true ->
  len (minute_window (run_calls rl calls)) <= requests_per_minute rl /\
  len (day_window (run_calls rl calls)) <= requests_per_day rl.
Proof.
  induction calls as [|c cs IH]; intros rl armed Hm Hd Hgate.
  - cbn. destruct armed; lia.
  - unfold run_calls. cbn [fold_left].
    destruct c as [now | now]; cbn [gated step] in *.
    + pose proof (popleft_while_older_length (now - timedelta_minutes 1)
                    (minute_window rl)) as Lm.
      pose proof (popleft_while_older_length (now - timedelta_days 1)
                    (day_window rl)) as Ld.
      pose proof (IH (fst (can_make_request rl now))
                     (snd (can_make_request rl now))) as H.
      unfold can_make_request in H.
      cbn [fst snd minute_window day_window
           requests_per_minute requests_per_day] in H.
      apply H; [| |exact Hgate]; unfold len in *;
        match goal with
        | |- context [(?a <? ?b) && (?c <? ?d)] =>
            destruct (Z.ltb_spec a b); destruct (Z.ltb_spec c d)
        end; cbn [andb]; destruct armed; lia.
    + apply andb_true_iff in Hgate as [-> Hgate].
      pose proof (IH (add_request rl now) false) as H.
      unfold add_request in H.
      cbn [minute_window day_window requests_per_minute requests_per_day] in H.
      rewrite !len_app_one in H.
      apply H; [lia | lia | exact Hgate].
Qed.

(** X4. The deques stay small: whatever the clock does, when every record
    comes directly after an approving check, neither deque ever holds more
    timestamps than its capacity. *)
Theorem gated_windows_bounded (rpm rpd : Z) (calls : list Call) :
  0 <= rpm -> 0 <= rpd ->
  gated (RateLimiter_init rpm rpd) false calls = true ->
  len (minute_window (run_calls (RateLimiter_init rpm rpd) calls)) <= rpm /\
  len (day_window (run_calls (RateLimiter_init rpm rpd) calls)) <= rpd.
Proof.
  intros Hm Hd Hgate.
  apply (gated_lengths calls (RateLimiter_init rpm rpd) false); cbn;
    unfold len; cbn; try lia. exact Hgate.
Qed.

Lemma gated_windows_bounded_witness :
  len (minute_window (run_calls (RateLimiter_init 5 500) busy_day_calls)) <= 5 /\
  len (day_window (run_calls (RateLimiter_init 5 500) busy_day_calls)) <= 500.
Proof.
  apply (gated_windows_bounded 5 500 busy_day_calls).
  - lia.
  - lia.
  - vm_compute. reflexivity.
Defined.

(** ** More on strings and framing *)

Lemma cut_spec sep s before after :
  cut sep s = Some (before, after) -> s = before ++ sep ++ after.
Proof.
  revert before after. induction s as [|c s IH]; intros before after H.
  - cbn in H. destruct (startswith [] sep) eqn:E; [|discriminate].
    injection H as <- <-. destruct sep; [reflexivity | discriminate].
  - cbn [cut] in H. destruct (startswith (c :: s) sep) eqn:E.
    + injection H as <- <-. apply startswith_prefix in E. exact E.
    + destruct (cut sep s) as [[b a]|] eqn:Hc; [|discriminate].
      injection H as <- <-. cbn. f_equal. apply IH. reflexivity.
Qed.

Lemma cut_none_contains sep s : cut sep s = None <-> contains s sep = false.
Proof.
  induction s as [|c s IH]; cbn [cut contains].
  - destruct (startswith [] sep); cbn; split; (discriminate || reflexivity).
  - destruct (startswith (c :: s) sep); cbn; [split; discriminate|].
    rewrite <- IH. destruct (cut sep s) as [[b a]|]; split;
      (discriminate || reflexivity).
Qed.

Lemma join_snoc sep parts last_part :
  join sep (parts ++ [last_part]) =
  concat (map (fun part => part ++ sep) parts) ++ last_part.
Proof.
  induction parts as [|p parts IH]; [reflexivity|].
  cbn [app map concat]. rewrite <- !app_assoc, <- IH.
  destruct (parts ++ [last_part]) eqn:E; [|reflexivity].
  apply app_eq_nil in E. destruct E as [_ E]. discriminate.
Qed.

Lemma join_app sep parts more :
  more <> [] ->
  join sep (parts ++ more) =
  concat (map (fun part => part ++ sep) parts) ++ join sep more.
Proof.
  intros Hne. induction parts as [|p parts IH]; [reflexivity|].
  cbn [app map concat]. rewrite <- !app_assoc, <- IH.
  destruct (parts ++ more) eqn:E; [|reflexivity].
  apply app_eq_nil in E. destruct E as [_ E]. contradiction.
Qed.

Section SplitJoin.

Variable sep : str.
Hypothesis sep_nonempty : sep <> [].

Lemma join_split s : join sep (split s sep) = s.
Proof.
  remember (length s) as n eqn:Hn.
  revert s Hn. induction n as [n IH] using lt_wf_ind. intros s Hn.
  destruct (cut sep s) as [[b a]|] eqn:Hc.
  - rewrite (split_cut_some sep sep_nonempty _ _ _ Hc).
    pose proof (cut_shorter sep sep_nonempty _ _ _ Hc) as Hlt.
    pose proof (split_nonempty sep a) as Hne.
    specialize (IH (length a) ltac:(subst; lia) a eq_refl).
    destruct (split a sep) as [|l ls] eqn:Hs; [contradiction|].
    change (join sep (b :: l :: ls)) with (b ++ sep ++ join sep (l :: ls)).
    rewrite IH. symmetry. apply cut_spec. exact Hc.
  - rewrite (split_cut_none sep _ Hc). reflexivity.
Qed.

Lemma cut_before_clean s before after :
  cut sep s = Some (before, after) -> cut sep before = None.
Proof.
  revert before after. induction s as [|c s IH]; intros before after H.
  - apply (cut_shorter sep sep_nonempty) in H. cbn in H. lia.
  - cbn [cut] in H. destruct (startswith (c :: s) sep) eqn:E.
    + injection H as <- <-. cbn.
      destruct (startswith [] sep) eqn:E0; [|reflexivity].
      apply startswith_length in E0. destruct sep; [contradiction|].
      cbn in E0. lia.
    + destruct (cut sep s) as [[b a]|] eqn:Hc; [|discriminate].
      injection H as <- <-. cbn [cut]. rewrite (IH _ _ eq_refl).
      destruct (startswith (c :: b) sep) eqn:E'; [|reflexivity].
      pose proof (startswith_length _ _ E') as Hlen.
      pose proof (cut_spec _ _ _ _ Hc) as Hs.
      rewrite Hs in E.
      change (c :: b ++ sep ++ a) with ((c :: b) ++ sep ++ a) in E.
      rewrite startswith_app in E by exact Hlen. congruence.
Qed.

Lemma split_pieces_clean s :
  Forall (fun piece => cut sep piece = None) (split s sep).
Proof.
  remember (length s) as n eqn:Hn.
  revert s Hn. induction n as [n IH] using lt_wf_ind. intros s Hn.
  destruct (cut sep s) as [[b a]|] eqn:Hc.
  - rewrite (split_cut_some sep sep_nonempty _ _ _ Hc).
    pose proof (cut_shorter sep sep_nonempty _ _ _ Hc) as Hlt.
    constructor.
    + eapply cut_before_clean. exact Hc.
    + apply (IH (length a)); [subst; lia | reflexivity].
  - rewrite (split_cut_none sep _ Hc). constructor; [exact Hc | constructor].
Qed.

End SplitJoin.

Lemma Forall_removelast {A : Type} (P : A -> Prop) (l : list A) :
  Forall P l -> Forall P (removelast l).
Proof.
  induction 1 as [|x l Hx Hl IH]; [constructor|].
  cbn. destruct l; [constructor|]. constructor; assumption.
Qed.

Lemma Forall_last {A : Type} (P : A -> Prop) (l : list A) (d : A) :
  l <> [] -> Forall P l -> P (last l d).
Proof.
  intros Hne H. induction H as [|x l Hx Hl IH]; [contradiction|].
  destruct l; [exact Hx|]. apply IH. discriminate.
Qed.

(** X5. Framing loses nothing and invents nothing: when every chunk decodes,
    the complete lines produced so far, joined by the line terminator and
    followed by the text still in the buffer, are exactly the old buffer
    followed by the decoded text of the chunks. *)
Theorem framing_loses_nothing (buffer : str) (chunks : list (list byte)) :
  Forall (fun chunk => Utf8.decode chunk <> None) chunks ->
  exists text,
    Utf8.decode (concat chunks) = Some text /\
    join CRLF (fst (feed_all buffer chunks) ++ [snd (feed_all buffer chunks)]) =
    buffer ++ text.
Proof.
  revert buffer. induction chunks as [|c cs IH]; intros buffer Hall.
  - exists []. split; [reflexivity|]. cbn. rewrite app_nil_r. reflexivity.
  - inversion Hall as [|c' cs' Hc Hcs]; subst.
    destruct (Utf8.decode c) as [t|] eqn:Et; [|contradiction].
    cbn [feed_all concat]. rewrite (feed_decoded _ _ t Et).
    set (L := split (buffer ++ t) CRLF).
    destruct (IH (last L []) Hcs) as (T & HT & Hjoin).
    exists (t ++ T). split; [apply decode_app; assumption|].
    destruct (feed_all (last L []) cs) as [ls b] eqn:Hfeed.
    cbn [fst snd] in *.
    rewrite <- app_assoc, join_app
      by (intros E; apply app_eq_nil in E; destruct E; discriminate).
    rewrite Hjoin, app_assoc, <- join_snoc.
    rewrite <- app_removelast_last by apply split_nonempty.
    subst L. rewrite (join_split CRLF CRLF_nonempty), app_assoc.
    reflexivity.
Qed.

Lemma framing_loses_nothing_witness :
  exists text,
    Utf8.decode (concat [[x61; x0d]; [x0a; x62]]) = Some text /\
    join CRLF (fst (feed_all [99%N] [[x61; x0d]; [x0a; x62]]) ++
               [snd (feed_all [99%N] [[x61; x0d]; [x0a; x62]])]) =
    [99%N] ++ text.
Proof.
  apply (framing_loses_nothing [99%N] [[x61; x0d]; [x0a; x62]]).
  repeat constructor; discriminate.
Defined.

(** X6. Whatever bytes arrive, decodable or not, no line handed to the
    dispatcher contains the line terminator, and neither does the text kept
    in the buffer, provided the buffer did not contain one to begin with
    (the empty buffer of a new session does not). *)
Theorem framed_lines_hold_no_terminator (buffer : str) (chunks : list (list byte)) :
  contains buffer CRLF = false ->
  Forall (fun line => contains line CRLF = false)
         (fst (feed_all buffer chunks)) /\
  contains (snd (feed_all buffer chunks)) CRLF = false.
Proof.
  revert buffer. induction chunks as [|c cs IH]; intros buffer Hbuf.
  - split; [constructor | exact Hbuf].
  - cbn [feed_all].
    assert (Hfeed : Forall (fun line => contains line CRLF = false)
                           (fst (feed buffer c)) /\
                    contains (snd (feed buffer c)) CRLF = false).
    { unfold feed. destruct (Utf8.decode c) as [t|].
      - pose proof (split_pieces_clean CRLF CRLF_nonempty (buffer ++ t)) as H.
        assert (H' : Forall (fun line => contains line CRLF = false)
                            (split (buffer ++ t) CRLF)).
        { eapply Forall_impl; [|exact H]. intros l Hl.
          apply cut_none_contains. exact Hl. }
        cbn [fst snd]. split.
        + apply Forall_removelast. exact H'.
        + apply (Forall_last (fun line => contains line CRLF = false));
            [apply split_nonempty | exact H'].
      - split; [constructor | reflexivity]. }
    destruct (feed buffer c) as [ls b]. cbn [fst snd] in Hfeed.
    destruct Hfeed as [Hls Hb].
    destruct (IH b Hb) as [Hls' Hb'].
    destruct (feed_all b cs) as [ls' b']. cbn [fst snd] in *.
    split; [apply Forall_app; split; assumption | exact Hb'].
Qed.

Lemma framed_lines_hold_no_terminator_witness :
  contains (snd (feed_all [] [[x61; x0d]; [xff]; [x0a; x62; x0d]])) CRLF = false.
Proof.
  apply (framed_lines_hold_no_terminator []
           [[x61; x0d]; [xff]; [x0a; x62; x0d]]).
  reflexivity.
Defined.

(** ** More on the outbound writer *)

Lemma chunks_nonempty fuel : forall (L : nat) (message : str) pieces,
  (1 <= L)%nat ->
  (forall rest, message <> SPACE :: rest) ->
  chunk_message fuel L message = Some pieces ->
  Forall (fun c : str => c <> []) (payloads pieces).
Proof.
  induction fuel as [|fuel IH]; intros L message pieces HL Hhead H.
  - destruct message as [|c message]; [injection H as <-; constructor|].
    cbn [chunk_message] in H.
    destruct (length (c :: message) <=? L)%nat; [|discriminate].
    injection H as <-. repeat constructor. discriminate.
  - destruct message as [|c message]; [injection H as <-; constructor|].
    cbn [chunk_message] in H.
    destruct (Nat.leb_spec (length (c :: message)) L) as [Hle | Hgt].
    + injection H as <-. repeat constructor. discriminate.
    + pose proof (split_point_spec L (c :: message) Hgt) as Hspec.
      cbv zeta in Hspec.
      remember (split_point L (c :: message)) as p eqn:Ep.
      destruct (chunk_message fuel L (lstrip (skipn p (c :: message))))
        as [rest|] eqn:Hrest; [|discriminate].
      injection H as <-. cbn [payloads flat_map app]. constructor.
      * assert (Hp : (1 <= p)%nat).
        { destruct Hspec as [[Hp _] | (_ & Hnth & _)]; [lia|].
          destruct p; [|lia]. cbn in Hnth. subst c.
          exfalso. apply (Hhead message). reflexivity. }
        destruct p; [lia|]. discriminate.
      * apply (IH L (lstrip (skipn p (c :: message))) rest HL);
          [|exact Hrest].
        intros tail E. apply lstrip_head in E. discriminate.
Qed.

(** X7. The loop of [send_private_message] can emit an empty chunk, but
    only as the first one: every later chunk is non-empty, and so is the
    first unless the text starts with a space. When a text longer than the
    limit starts with a space and has no other space among its first [L]
    characters, the first [PRIVMSG] does carry an empty payload. *)
Theorem only_first_chunk_can_be_empty (L : nat) (text : str) :
  (1 <= L)%nat ->
  exists pieces,
    chunk_message (length text) L text = Some pieces /\
    Forall (fun c : str => c <> []) (tl (payloads pieces)) /\
    ((forall rest, text <> SPACE :: rest) ->
     Forall (fun c : str => c <> []) (payloads pieces)) /\
    (forall rest,
       text = SPACE :: rest -> (L < length text)%nat ->
       ~ In SPACE (firstn (L - 1) rest) ->
       hd_error (payloads pieces) = Some []).
Proof.
  intros HL.
  destruct (chunk_message_terminates L HL (length text) text (le_n _))
    as (pieces & Hpieces).
  exists pieces. split; [exact Hpieces|]. split; [|split].
  - destruct text as [|c text]; [injection Hpieces as <-; constructor|].
    cbn [length chunk_message] in Hpieces.
    destruct (Nat.leb_spec (S (length text)) L) as [Hle | Hgt].
    + injection Hpieces as <-. constructor.
    + destruct (chunk_message (length text) L
                  (lstrip (skipn (split_point L (c :: text)) (c :: text))))
        as [rest|] eqn:Hrest; [|discriminate].
      injection Hpieces as <-. cbn [payloads flat_map app tl].
      apply (chunks_nonempty _ L _ _ HL) in Hrest; [exact Hrest|].
      intros tail E. apply lstrip_head in E. discriminate.
  - intros Hhead. eapply chunks_nonempty; eassumption.
  - intros rest -> Hgt Hnone.
    cbn [length chunk_message] in Hpieces.
    destruct (Nat.leb_spec (S (length rest)) L) as [Hle | _];
      [cbn [length] in Hgt; lia|].
    assert (Hp : split_point L (SPACE :: rest) = 0%nat).
    { destruct (split_point_spec L (SPACE :: rest) Hgt)
        as [[_ Hnot] | (Hp & Hnth & _)].
      - exfalso. apply Hnot. destruct L; [lia|]. left. reflexivity.
      - destruct (split_point L (SPACE :: rest)) as [|p]; [reflexivity|].
        exfalso. apply Hnone. cbn in Hnth. rewrite <- Hnth.
        assert (Hlen : (p < length (firstn (L - 1) rest))%nat).
        { rewrite length_firstn. cbn [length] in Hgt. lia. }
        replace (nth p rest 0%N) with (nth p (firstn (L - 1) rest) 0%N).
        + apply nth_In. exact Hlen.
        + rewrite nth_firstn.
          destruct (Nat.ltb_spec p (L - 1)); [reflexivity | lia]. }
    rewrite Hp in Hpieces.
    destruct (chunk_message (length rest) L (lstrip (skipn 0 (SPACE :: rest))))
      as [more|]; [|discriminate].
    injection Hpieces as <-. reflexivity.
Qed.

Lemma only_first_chunk_can_be_empty_witness :
  exists pieces,
    chunk_message 5 4 (py " aaaa") = Some pieces /\
    hd_error (payloads pieces) = Some [].
Proof.
  destruct (only_first_chunk_can_be_empty 4 (py " aaaa")) as
    (pieces & H1 & _ & _ & H4); [lia|].
  exists pieces. split; [exact H1|].
  apply (H4 (py "aaaa")); [reflexivity | cbn; lia |].
  cbn. intros [H | [H | [H | H]]]; (discriminate || contradiction).
Defined.

(** ** More on the search gate *)

Lemma search_results_at_most_five {R : Type} (response : Response R) :
  (length (search_results response) <= 5)%nat.
Proof.
  destruct response as [|code body]; [cbn; lia|]. unfold search_results.
  destruct (code =? 200); [|cbn; lia].
  destruct body as [| |[|rs|]]; try (cbn; lia).
  rewrite length_firstn. lia.
Qed.

Lemma format_all_length {R : Type} (env : Env R) results : forall i lines,
  format_all env i results = Some lines -> length lines = length results.
Proof.
  induction results as [|r rest IH]; intros i lines H.
  - injection H as <-. reflexivity.
  - cbn [format_all] in H.
    destruct (format_search_result env i r) as [line|]; [|discriminate].
    destruct (format_all env (S i) rest) as [ls|] eqn:E; [|discriminate].
    injection H as <-. cbn. f_equal. eapply IH. exact E.
Qed.

Lemma send_private_message_actions target message bot :
  send_private_message target message bot =
  (Returned tt, bot, message_actions target message).
Proof.
  unfold send_private_message, message_actions.
  destruct (chunk_message (length message) max_length message); reflexivity.
Qed.

Lemma message_actions_one_chunk target line :
  one_chunk line -> message_actions target line = [Sent (privmsg target line)].
Proof.
  intros [Hne Hle].
  pose proof (send_private_message_short target line SearchBot_init Hne Hle)
    as H.
  rewrite send_private_message_actions in H. injection H as H. exact H.
Qed.

Lemma deliveries_one_chunk sender lines :
  Forall one_chunk lines -> deliveries_any sender lines = deliveries sender lines.
Proof.
  induction 1 as [|line lines Hline _ IH]; [reflexivity|].
  cbn [deliveries_any deliveries flat_map].
  rewrite (message_actions_one_chunk sender line Hline).
  fold (deliveries_any sender lines). fold (deliveries sender lines).
  rewrite IH. reflexivity.
Qed.

Lemma wire_safe_app a b : wire_safe (a ++ b) = wire_safe a && wire_safe b.
Proof. apply forallb_app. Qed.

Lemma wire_safe_privmsg target payload :
  wire_safe target = true -> wire_safe payload = true ->
  wire_safe (privmsg target payload) = true.
Proof.
  intros Ht Hp. unfold privmsg. rewrite !wire_safe_app, Ht, Hp. reflexivity.
Qed.

Lemma wire_safe_lstrip s : wire_safe s = true -> wire_safe (lstrip s) = true.
Proof.
  intros H. destruct (lstrip_removed s) as [E _].
  rewrite <- E, wire_safe_app in H. apply andb_true_iff in H. apply H.
Qed.

(** Chunking moves no character: the chunks of a text that is safe on the
    wire are safe. *)
Lemma chunks_wire_safe fuel : forall (L : nat) (message : str) pieces,
  wire_safe message = true ->
  chunk_message fuel L message = Some pieces ->
  Forall (fun c => wire_safe c = true) (payloads pieces).
Proof.
  assert (Hone : forall message : str,
            wire_safe message = true ->
            Forall (fun c => wire_safe c = true) (payloads [Chunk message])).
  { intros message H. repeat constructor. exact H. }
  induction fuel as [|fuel IH]; intros L message pieces Hsafe H;
    (destruct message as [|c message]; [injection H as <-; constructor|]);
    cbn [chunk_message] in H;
    destruct (length (c :: message) <=? L)%nat;
    try (injection H as <-; apply Hone; exact Hsafe); [discriminate|].
  remember (split_point L (c :: message)) as p eqn:Ep.
  destruct (chunk_message fuel L (lstrip (skipn p (c :: message))))
    as [rest|] eqn:Hrest; [|discriminate].
  injection H as <-. cbn [payloads flat_map app].
  rewrite <- (firstn_skipn p (c :: message)), wire_safe_app in Hsafe.
  apply andb_true_iff in Hsafe as [Hfirst Hskip].
  constructor; [exact Hfirst|].
  apply (IH L (lstrip (skipn p (c :: message))) rest);
    [apply wire_safe_lstrip; exact Hskip | exact Hrest].
Qed.

Lemma sent_lines_app a b : sent_lines (a ++ b) = sent_lines a ++ sent_lines b.
Proof. apply flat_map_app. Qed.

Lemma sent_lines_pieces target pieces :
  sent_lines (map (piece_action target) pieces) =
  map (privmsg target) (payloads pieces).
Proof.
  induction pieces as [|[payload|] pieces IH]; [reflexivity| |exact IH].
  cbn [map piece_action sent_lines flat_map app payloads].
  f_equal. exact IH.
Qed.

Lemma message_actions_wire_safe target message :
  wire_safe target = true -> wire_safe message = true ->
  Forall (fun line => wire_safe line = true)
         (sent_lines (message_actions target message)).
Proof.
  intros Ht Hm. unfold message_actions.
  destruct (chunk_message (length message) max_length message)
    as [pieces|] eqn:E; [|constructor].
  rewrite sent_lines_pieces. apply Forall_map.
  apply (chunks_wire_safe _ _ _ _ Hm) in E.
  revert E. apply Forall_impl. intros c Hc. apply wire_safe_privmsg; assumption.
Qed.

Lemma deliveries_any_wire_safe sender lines :
  wire_safe sender = true ->
  Forall (fun line => wire_safe line = true) lines ->
  Forall (fun line => wire_safe line = true)
         (sent_lines (deliveries_any sender lines)).
Proof.
  intros Hs. induction 1 as [|line lines Hline _ IH]; [constructor|].
  cbn [deliveries_any flat_map]. rewrite !sent_lines_app.
  fold (deliveries_any sender lines).
  apply Forall_app. split; [apply Forall_app; split | exact IH].
  - apply message_actions_wire_safe; assumption.
  - constructor.
Qed.

Section Delivery.

Context {R : Type}.
Variable env : Env R.
Variable sender : str.

Lemma send_results_delivers results : forall i lines bot,
  format_all env i results = Some lines ->
  send_results env sender i results bot =
  (Returned tt, bot, deliveries_any sender lines).
Proof.
  induction results as [|r rest IH]; intros i lines bot Hfmt.
  - injection Hfmt as <-. reflexivity.
  - cbn [format_all] in Hfmt. cbn [send_results].
    destruct (format_search_result env i r) as [line|]; [|discriminate].
    destruct (format_all env (S i) rest) as [ls|] eqn:E; [|discriminate].
    injection Hfmt as <-.
    unfold bind, sleep, emit.
    rewrite (send_private_message_actions sender line bot).
    rewrite (IH (S i) ls bot E).
    cbn [deliveries_any flat_map]. rewrite <- app_assoc. reflexivity.
Qed.

Lemma send_results_stops good : forall i lines bad rest bot,
  format_all env i good = Some lines ->
  format_search_result env (i + length good) bad = None ->
  send_results env sender i (good ++ bad :: rest) bot =
  (Raised FormatError, bot, deliveries_any sender lines).
Proof.
  induction good as [|r good IH]; intros i lines bad rest bot Hfmt Hbad.
  - injection Hfmt as <-. cbn [app send_results length] in *.
    rewrite Nat.add_0_r in Hbad. rewrite Hbad. reflexivity.
  - cbn [format_all] in Hfmt. cbn [app send_results].
    destruct (format_search_result env i r) as [line|]; [|discriminate].
    destruct (format_all env (S i) good) as [ls|] eqn:E; [|discriminate].
    injection Hfmt as <-.
    unfold bind, sleep, emit.
    rewrite (send_private_message_actions sender line bot).
    rewrite (IH (S i) ls bad rest bot E)
      by (cbn [length] in Hbad; rewrite <- Hbad; f_equal; lia).
    cbn [deliveries_any flat_map]. rewrite <- app_assoc. reflexivity.
Qed.

Variable message : str.
Variable bot : SearchBot.

Let check := can_make_request (rate_limiter bot) (now env (ticks bot)).
Let query := strip (skipn 8 message).
Let recorded_at := now env (S (S (ticks bot))).
Let results := search_results (hearch env (S (ticks bot)) query).

(** X8. An approved search is delivered in rank order. Let the nickname of
    the sender and the formatted lines be safe on the wire (every character
    encodes as UTF-8 and none is a carriage return or a line feed), and let
    every formatted line be non-empty and of at most 400 characters. Then
    the request is made and recorded, each result is sent as one [PRIVMSG]
    numbered from 1 and followed by a pause, then after one more pause the
    attribution line is sent, and nothing else; at most five results are
    delivered, and every text handed to [send] is safe on the wire, so that
    each goes out as exactly one protocol line. *)
Theorem approved_search_delivers_in_order (lines : list str) :
  startswith message (py "!search ") = true ->
  query <> [] ->
  snd check = true ->
  results <> [] ->
  format_all env 1 results = Some lines ->
  Forall one_chunk lines ->
  wire_safe sender = true ->
  Forall (fun line => wire_safe line = true) lines ->
  let replies :=
    deliveries sender lines ++
    [Slept 500; Sent (privmsg sender ATTRIBUTION)] in
  handle_private_message env sender message bot =
    (Returned tt, bot_after bot (add_request (fst check) recorded_at) 3,
     Searched query :: Recorded recorded_at :: replies) /\
  length lines = length results /\
  (length lines <= 5)%nat /\
  sent_lines replies =
    map (privmsg sender) lines ++ [privmsg sender ATTRIBUTION] /\
  Forall (fun line => wire_safe line = true) (sent_lines replies).
Proof.
  intros Hcmd Hq Hok Hsome Hfmt Hshort Hsender Hsafe replies.
  pose proof (search_results_at_most_five
                (hearch env (S (ticks bot)) query)) as Hfive.
  fold results in Hfive.
  pose proof (format_all_length env results 1 lines Hfmt) as Hlen.
  assert (Hsent : sent_lines replies =
                  map (privmsg sender) lines ++ [privmsg sender ATTRIBUTION]).
  { subst replies. rewrite sent_lines_app. f_equal.
    clear. induction lines as [|l ls IH]; [reflexivity|].
    cbn [deliveries flat_map app sent_lines map] in *. f_equal. exact IH. }
  split; [|split; [exact Hlen | split; [lia | split; [exact Hsent|]]]].
  - subst check query recorded_at results replies.
    unfold handle_private_message, try_except, bind,
      rate_limiter_can_make_request, rate_limiter_add_request, search_hearch,
      tick, get_bot, set_rate_limiter, ret, emit, sleep.
    rewrite Hcmd. gate_step. rewrite Hok. gate_step.
    destruct (strip (skipn 8 message)) as [|c q] eqn:E; [contradiction|].
    gate_step.
    destruct (search_results (hearch env (S (ticks bot)) (c :: q)))
      as [|r rs] eqn:Hres; [contradiction|].
    gate_step.
    rewrite firstn_all2 by exact Hfive.
    rewrite (send_results_delivers (r :: rs) 1 lines _ Hfmt).
    rewrite (deliveries_one_chunk sender lines Hshort).
    rewrite send_private_message_short;
      [|discriminate | vm_compute; lia].
    reflexivity.
  - rewrite Hsent. apply Forall_app. split.
    + apply Forall_map. revert Hsafe. apply Forall_impl.
      intros line Hline. apply wire_safe_privmsg; assumption.
    + repeat constructor. apply wire_safe_privmsg; [exact Hsender|].
      reflexivity.
Qed.

(** X9. When [format_search_result] raises on a result, the results before
    it have been sent, each through [send_private_message] (in several
    chunks when its line is longer than 400 characters) and followed by its
    pause; the user then gets the error notice and no attribution, the
    handler returns normally, and the request stays recorded against the
    budget. The nickname of the sender and the lines formatted so far are
    taken to be safe on the wire (every character encodes as UTF-8 and none
    is a carriage return or a line feed); every text handed to [send] is
    then safe on the wire too. Lines that are non-empty and of at most 400
    characters go out as one [PRIVMSG] each. *)
Theorem formatting_error_keeps_the_record (good : list R) (bad : R)
    (rest : list R) (lines : list str) :
  startswith message (py "!search ") = true ->
  query <> [] ->
  snd check = true ->
  results = good ++ bad :: rest ->
  format_all env 1 good = Some lines ->
  format_search_result env (S (length good)) bad = None ->
  wire_safe sender = true ->
  Forall (fun line => wire_safe line = true) lines ->
  let replies :=
    deliveries_any sender lines ++ [Sent (privmsg sender ERROR_NOTICE)] in
  handle_private_message env sender message bot =
    (Returned tt, bot_after bot (add_request (fst check) recorded_at) 3,
     Searched query :: Recorded recorded_at :: replies) /\
  Forall (fun line => wire_safe line = true) (sent_lines replies) /\
  (Forall one_chunk lines ->
   deliveries_any sender lines = deliveries sender lines).
Proof.
  intros Hcmd Hq Hok Hres Hfmt Hbad Hsender Hsafe replies.
  pose proof (search_results_at_most_five
                (hearch env (S (ticks bot)) query)) as Hfive.
  fold results in Hfive.
  split; [|split; [|apply deliveries_one_chunk]].
  - subst check query recorded_at results replies.
    unfold handle_private_message, try_except, bind,
      rate_limiter_can_make_request, rate_limiter_add_request, search_hearch,
      tick, get_bot, set_rate_limiter, ret, emit, sleep.
    rewrite Hcmd. gate_step. rewrite Hok. gate_step.
    destruct (strip (skipn 8 message)) as [|c q] eqn:E; [contradiction|].
    gate_step. rewrite Hres in *.
    destruct (good ++ bad :: rest) as [|r rs] eqn:Hlist;
      [destruct good; discriminate|].
    gate_step.
    rewrite firstn_all2 by exact Hfive. rewrite <- Hlist.
    rewrite (send_results_stops good 1 lines bad rest _ Hfmt Hbad).
    gate_step.
    rewrite send_private_message_short;
      [|discriminate | vm_compute; lia].
    reflexivity.
  - subst replies. rewrite sent_lines_app. apply Forall_app. split.
    + apply deliveries_any_wire_safe; assumption.
    + repeat constructor. apply wire_safe_privmsg; [exact Hsender|].
      reflexivity.
Qed.

End Delivery.

Lemma approved_search_delivers_in_order_witness :
  let cats :=
    Formatter.Dict (Formatter.Text (py "Cats"))
      (Formatter.Text (py "https://cats.example/")) Formatter.Missing in
  let env := bot_env (fun t => Z.of_nat t)
               (fun _ _ => Replied 200 (BodyObject (ResultsList [cats; cats]))) in
  let first := Formatter.result_line 1 (py "Cats") (py "https://cats.example/") [] in
  let second := Formatter.result_line 2 (py "Cats") (py "https://cats.example/") [] in
  snd (handle_private_message env (py "alice") (py "!search cats")
         SearchBot_init) =
  [Searched (py "cats"); Recorded 2;
   Sent (privmsg (py "alice") first); Slept 500;
   Sent (privmsg (py "alice") second); Slept 500;
   Slept 500; Sent (privmsg (py "alice") ATTRIBUTION)].
Proof.
  intros cats env first second.
  destruct (approved_search_delivers_in_order env (py "alice")
              (py "!search cats") SearchBot_init [first; second])
    as [H _].
  - reflexivity.
  - discriminate.
  - reflexivity.
  - discriminate.
  - reflexivity.
  - repeat constructor; (discriminate || (vm_compute; lia)).
  - reflexivity.
  - repeat constructor.
  - rewrite H. reflexivity.
Defined.

Lemma formatting_error_keeps_the_record_witness :
  let cats :=
    Formatter.Dict (Formatter.Text (py "Cats"))
      (Formatter.Text (py "https://cats.example/")) Formatter.Missing in
  let env := bot_env (fun t => Z.of_nat t)
               (fun _ _ => Replied 200
                             (BodyObject (ResultsList [cats; Formatter.NotDict]))) in
  let first := Formatter.result_line 1 (py "Cats") (py "https://cats.example/") [] in
  snd (handle_private_message env (py "alice") (py "!search cats")
         SearchBot_init) =
  [Searched (py "cats"); Recorded 2;
   Sent (privmsg (py "alice") first); Slept 500;
   Sent (privmsg (py "alice") ERROR_NOTICE)].
Proof.
  intros cats env first.
  destruct (formatting_error_keeps_the_record env (py "alice")
              (py "!search cats") SearchBot_init [cats] Formatter.NotDict []
              [first]) as [H _].
  - reflexivity.
  - discriminate.
  - reflexivity.
  - reflexivity.
  - reflexivity.
  - reflexivity.
  - reflexivity.
  - repeat constructor.
  - rewrite H. reflexivity.
Defined.

(** ** More on the dispatcher *)

Lemma startswith_self sep b : startswith (sep ++ b) sep = true.
Proof.
  induction sep as [|y l IHl]; [reflexivity|].
  cbn. rewrite N.eqb_refl. exact IHl.
Qed.

Lemma cut_here sep s :
  startswith s sep = true -> cut sep s = Some ([], skipn (length sep) s).
Proof. intros H. destruct s; cbn [cut]; rewrite H; reflexivity. Qed.

Lemma cut_at_marker sep a b :
  sep <> [] ->
  cut sep (a ++ removelast sep) = None ->
  cut sep (a ++ sep ++ b) = Some (a, b).
Proof.
  intros Hne. induction a as [|x a IH]; intros Hclean.
  - cbn [app]. rewrite (cut_here _ _ (startswith_self sep b)).
    rewrite skipn_app, Nat.sub_diag, skipn_all. reflexivity.
  - cbn [app cut] in Hclean.
    destruct (startswith (x :: a ++ removelast sep) sep) eqn:E; [discriminate|].
    destruct (cut sep (a ++ removelast sep)) as [[p q]|] eqn:Hc;
      [discriminate|].
    cbn [app cut].
    assert (E' : startswith (x :: a ++ sep ++ b) sep = false).
    { rewrite (app_removelast_last 0%N Hne) at 1.
      rewrite <- app_assoc.
      change (x :: a ++ removelast sep ++ [last sep 0%N] ++ b)
        with ((x :: a) ++ removelast sep ++ [last sep 0%N] ++ b).
      rewrite app_assoc, startswith_app; [exact E|].
      rewrite length_app. cbn [length].
      pose proof (f_equal (@length N) (app_removelast_last 0%N Hne)) as Hl.
      rewrite length_app in Hl. cbn [length] in Hl.
      unfold str, char in *. lia. }
    rewrite E', (IH eq_refl). reflexivity.
Qed.

Lemma contains_marker a sub b : contains (a ++ sub ++ b) sub = true.
Proof.
  induction a as [|x a IH].
  - cbn [app].
    pose proof (startswith_self sub b) as E.
    destruct (sub ++ b); cbn [contains]; rewrite E; reflexivity.
  - cbn [app contains]. rewrite IH. apply orb_true_r.
Qed.

Lemma contains_app_left s extra sub :
  contains (s ++ extra) sub = false -> contains s sub = false.
Proof.
  intros H. apply cut_none_contains. apply cut_none_contains in H.
  destruct (cut sub s) as [[p q]|] eqn:E; [|reflexivity].
  rewrite (cut_app _ _ extra _ _ E) in H. discriminate.
Qed.

Lemma contains_char_snoc s c d :
  contains s [c] = false -> d <> c -> contains (s ++ [d]) [c] = false.
Proof.
  intros H Hd. induction s as [|x s IH].
  - cbn. destruct (N.eqb_spec d c); [contradiction | reflexivity].
  - cbn [app contains startswith] in *.
    apply orb_false_iff in H as [Hx Hs].
    rewrite Hx, (IH Hs). reflexivity.
Qed.

Lemma lstrip_snoc_space s :
  lstrip (s ++ [SPACE]) =
  match lstrip s with [] => [] | _ :: _ => lstrip s ++ [SPACE] end.
Proof.
  induction s as [|c s IH]; [reflexivity|].
  cbn [app lstrip]. destruct (isspace c); [exact IH | reflexivity].
Qed.

Lemma strip_snoc_space s : strip (s ++ [SPACE]) = strip s.
Proof.
  unfold strip. rewrite lstrip_snoc_space.
  destruct (lstrip s) as [|c l]; [reflexivity|].
  unfold rstrip. rewrite rev_app_distr. reflexivity.
Qed.

Section Routing.

Context {R : Type}.
Variable env : Env R.
Variables nick userhost target text : str.
Variable bot : SearchBot.

Hypothesis nick_clean : contains nick (py "!") = false.
Hypothesis prefix_clean :
  contains (py ":" ++ nick ++ py "!" ++ userhost ++ py " PRIVMSG")
           (py "PRIVMSG ") = false.
Hypothesis target_clean : contains target (py ":") = false.

Lemma dispatch_delivery_line :
  dispatch_line env (delivery_line nick userhost target text) bot =
  route env nick (strip target) (strip text) bot.
Proof.
  set (line := delivery_line nick userhost target text).
  assert (Hping : startswith line (py "PING") = false) by reflexivity.
  assert (Hshape : line =
            (py ":" ++ nick ++ py "!" ++ userhost ++ py " ") ++
            py "PRIVMSG " ++ (target ++ py " :" ++ text)).
  { unfold line, delivery_line. rewrite <- !app_assoc. reflexivity. }
  assert (Hmark : contains line (py "PRIVMSG") = true).
  { replace line with
      ((py ":" ++ nick ++ py "!" ++ userhost ++ py " ") ++
       py "PRIVMSG" ++ (py " " ++ target ++ py " :" ++ text))
      by (unfold line, delivery_line; rewrite <- !app_assoc; reflexivity).
    apply contains_marker. }
  assert (Hcut : cut (py "PRIVMSG ") line =
                 Some (py ":" ++ nick ++ py "!" ++ userhost ++ py " ",
                       target ++ py " :" ++ text)).
  { rewrite Hshape. apply cut_at_marker; [discriminate|].
    apply cut_none_contains.
    replace ((py ":" ++ nick ++ py "!" ++ userhost ++ py " ") ++
             removelast (py "PRIVMSG "))
      with (py ":" ++ nick ++ py "!" ++ userhost ++ py " PRIVMSG")
      by (rewrite <- !app_assoc; reflexivity).
    exact prefix_clean. }
  assert (Hcolon : cut (py ":") (target ++ py " :" ++ text) =
                   Some (target ++ py " ", text)).
  { replace (target ++ py " :" ++ text)
      with ((target ++ py " ") ++ py ":" ++ text)
      by (rewrite <- !app_assoc; reflexivity).
    apply cut_at_marker; [discriminate|].
    apply cut_none_contains. cbn [removelast py map list_ascii_of_string].
    rewrite app_nil_r. apply contains_char_snoc; [exact target_clean|].
    discriminate. }
  assert (Hbang : cut (py "!") line =
                  Some (py ":" ++ nick,
                        userhost ++ py " PRIVMSG " ++ target ++
                        py " :" ++ text)).
  { replace line with
      ((py ":" ++ nick) ++ py "!" ++
       (userhost ++ py " PRIVMSG " ++ target ++ py " :" ++ text))
      by (unfold line, delivery_line; rewrite <- !app_assoc; reflexivity).
    apply cut_at_marker; [discriminate|].
    apply cut_none_contains. cbn [removelast py map list_ascii_of_string].
    rewrite app_nil_r. cbn [app contains startswith N_of_ascii].
    cbn. exact nick_clean. }
  assert (Hsender : skipn 1 (hd [] (split line (py "!"))) = nick).
  { rewrite (split_cut_some (py "!") ltac:(discriminate) _ _ _ Hbang).
    reflexivity. }
  unfold dispatch_line, bind, try_except, split1, ret, get_bot, route.
  rewrite Hping, Hmark, Hcut, Hsender. cbn [nth_error]. rewrite Hcolon.
  change (py " ") with [SPACE]. rewrite strip_snoc_space.
  destruct (str_eqb (strip target) (nickname bot)).
  - destruct (handle_private_message env nick (strip text) bot)
      as [[[u|e] b] acts] eqn:E.
    + destruct u. reflexivity.
    + exfalso.
      destruct (startswith (strip text) (py "!search ")) eqn:Hcmd.
      * destruct (snd (can_make_request (rate_limiter bot)
                         (now env (ticks bot)))) eqn:Hok.
        -- destruct (strip (skipn 8 (strip text))) as [|c q] eqn:Hq.
           ++ rewrite (handle_private_message_usage _ _ _ _ Hcmd Hok Hq) in E.
              discriminate.
           ++ assert (Hne : strip (skipn 8 (strip text)) <> [])
                by (rewrite Hq; discriminate).
              destruct (search_results
                          (hearch env (S (ticks bot))
                                  (strip (skipn 8 (strip text)))))
                as [|r rs] eqn:Hres.
              ** rewrite (handle_private_message_no_results _ _ _ _
                            Hcmd Hok Hne Hres) in E. discriminate.
              ** destruct (handle_private_message_results env nick
                             (strip text) bot Hcmd Hok Hne)
                   as (replies & Hr & _).
                 { rewrite Hres. discriminate. }
                 rewrite Hr in E. discriminate.
        -- rewrite (handle_private_message_denied _ _ _ _ Hcmd Hok) in E.
           discriminate.
      * destruct (handle_private_message_other env nick (strip text) bot Hcmd)
          as (replies & Hr & _).
        rewrite Hr in E. discriminate.
  - destruct (existsb (str_eqb (strip target)) (channels bot)); [|reflexivity].
    unfold handle_channel_message, send, emit, ret.
    destruct (str_eqb (strip text) (py "!help")); [reflexivity|].
    destruct (startswith (strip text) (py "!search")); reflexivity.
Qed.

End Routing.

(** ** The usage notice *)

Lemma lstrip_blanks blanks s :
  forallb isspace blanks = true -> lstrip (blanks ++ s) = lstrip s.
Proof.
  induction blanks as [|c blanks IH]; intros H; [reflexivity|].
  cbn [forallb] in H. apply andb_true_iff in H as [Hc H].
  cbn [app lstrip]. rewrite Hc. exact (IH H).
Qed.

Lemma forallb_rev {A : Type} (f : A -> bool) (l : list A) :
  forallb f (rev l) = forallb f l.
Proof.
  induction l as [|x l IH]; [reflexivity|].
  cbn [rev forallb]. rewrite forallb_app, IH. cbn [forallb].
  rewrite andb_true_r. apply andb_comm.
Qed.

(** [!search] followed by blanks only is stripped to [!search]. *)
Lemma strip_search_blanks blanks :
  forallb isspace blanks = true ->
  strip (py "!search" ++ blanks) = py "!search".
Proof.
  intros H. unfold strip.
  change (lstrip (py "!search" ++ blanks)) with (py "!search" ++ blanks).
  unfold rstrip. rewrite rev_app_distr.
  rewrite lstrip_blanks by (rewrite forallb_rev; exact H).
  reflexivity.
Qed.

Lemma notices_differ target a b :
  a <> b -> [Sent (privmsg target a)] <> [Sent (privmsg target b)].
Proof.
  intros Hab E. injection E as E. unfold privmsg in E.
  repeat apply app_inv_head in E. injection E as E. contradiction.
Qed.

(** C5. The claim does not hold of the code. A private message that is the
    search command with nothing but blanks after it gets no reply at all:
    [run] strips the message (line 340) before it calls the handler (line
    344), so [!search] followed by blanks arrives as [!search], which line
    263 does not take for the command; nothing is sent and the limiter is
    not asked. The usage branch of lines 268-271 is there but cannot be
    reached from [run]: a stripped message that starts with [!search ] has
    a non-empty query, and whatever the text of a delivery line addressed
    to the bot, what is sent in answer is never the single usage notice. *)
Theorem empty_query_gets_no_reply {R : Type} (env : Env R)
    (nick userhost target blanks : str) (bot : SearchBot) :
  contains nick (py "!") = false ->
  contains (py ":" ++ nick ++ py "!" ++ userhost ++ py " PRIVMSG")
           (py "PRIVMSG ") = false ->
  contains target (py ":") = false ->
  str_eqb (strip target) (nickname bot) = true ->
  forallb isspace blanks = true ->
  dispatch_line env
    (delivery_line nick userhost target (py "!search" ++ blanks)) bot =
    (Returned tt, bot, []) /\
  (forall text,
     startswith (strip text) (py "!search ") = true ->
     strip (skipn 8 (strip text)) <> []) /\
  (forall text outcome bot' acts,
     dispatch_line env (delivery_line nick userhost target text) bot =
       (outcome, bot', acts) ->
     acts <> [Sent (privmsg nick USAGE_NOTICE)]).
Proof.
  intros Hnick Hprefix Htarget Hmine Hblanks.
  split; [|split].
  - rewrite (dispatch_delivery_line env _ _ _ _ bot Hnick Hprefix Htarget).
    unfold route. rewrite Hmine, (strip_search_blanks _ Hblanks).
    reflexivity.
  - intros text. apply stripped_search_has_query.
  - intros text outcome bot' acts.
    rewrite (dispatch_delivery_line env _ _ _ _ bot Hnick Hprefix Htarget).
    unfold route. rewrite Hmine.
    destruct (startswith (strip text) (py "!search ")) eqn:Hcmd.
    + pose proof (stripped_search_has_query text Hcmd) as Hquery.
      cbv zeta in Hquery.
      destruct (snd (can_make_request (rate_limiter bot)
                       (now env (ticks bot)))) eqn:Hok.
      * destruct (search_results
                    (hearch env (S (ticks bot))
                            (strip (skipn 8 (strip text)))))
          as [|r rs] eqn:Hres.
        -- rewrite (handle_private_message_no_results _ _ _ _
                      Hcmd Hok Hquery Hres).
           intros E. injection E as _ _ <-. discriminate.
        -- destruct (handle_private_message_results env nick (strip text)
                       bot Hcmd Hok Hquery) as (replies & Hr & _).
           { rewrite Hres. discriminate. }
           rewrite Hr. intros E. injection E as _ _ <-. discriminate.
      * rewrite (handle_private_message_denied _ _ _ _ Hcmd Hok).
        intros E. injection E as _ _ <-. apply notices_differ.
        intros E. vm_compute in E. discriminate E.
    + unfold handle_private_message, try_except, ret. rewrite Hcmd.
      destruct (str_eqb (strip text) (py "!help")).
      * rewrite send_private_message_short;
          [|discriminate | vm_compute; lia].
        intros E. injection E as _ _ <-. apply notices_differ.
        intros E. vm_compute in E. discriminate E.
      * intros E. injection E as _ _ <-. discriminate.
Qed.

Lemma empty_query_gets_no_reply_witness :
  dispatch_line (frozen_env 1)
    (delivery_line (py "alice") (py "u@h") (py "SearchBot") (py "!search   "))
    SearchBot_init = (Returned tt, SearchBot_init, []) /\
  run_pass (frozen_env 1) []
    (wire ":alice!u@h PRIVMSG SearchBot :!search   ") SearchBot_init =
    (Returned (Connected []), SearchBot_init, []).
Proof.
  split; [|reflexivity].
  apply (empty_query_gets_no_reply (frozen_env 1) (py "alice") (py "u@h")
           (py "SearchBot") (py "   ") SearchBot_init);
    reflexivity.
Defined.

(** X10. A standard delivery line is parsed back into its parts: for
    [:nick!userhost PRIVMSG target :text], where [nick] holds no [!], the
    marker [PRIVMSG ] does not occur before the command word and [target]
    holds no colon, the dispatcher calls the private handler with sender
    [nick] and the stripped text when the stripped target is the bot's
    nickname, the channel handler when it is one of the bot's channels, and
    does nothing otherwise. *)
Theorem delivery_line_is_routed {R : Type} (env : Env R)
    (nick userhost target text : str) (bot : SearchBot) :
  contains nick (py "!") = false ->
  contains (py ":" ++ nick ++ py "!" ++ userhost ++ py " PRIVMSG")
           (py "PRIVMSG ") = false ->
  contains target (py ":") = false ->
  dispatch_line env (delivery_line nick userhost target text) bot =
  if str_eqb (strip target) (nickname bot) then
    handle_private_message env nick (strip text) bot
  else if existsb (str_eqb (strip target)) (channels bot) then
    handle_channel_message nick (strip target) (strip text) bot
  else (Returned tt, bot, []).
Proof. intros H1 H2 H3. exact (dispatch_delivery_line env _ _ _ _ bot H1 H2 H3). Qed.

Lemma delivery_line_is_routed_witness :
  dispatch_line (frozen_env 0)
    (delivery_line (py "alice") (py "u@h") (py "SearchBot") (py "!help"))
    SearchBot_init =
  (Returned tt, SearchBot_init, [Sent (privmsg (py "alice") HELP_NOTICE)]).
Proof.
  rewrite (delivery_line_is_routed (frozen_env 0) (py "alice") (py "u@h")
             (py "SearchBot") (py "!help") SearchBot_init);
    reflexivity.
Defined.

(** X11. A delivery line addressed to anyone but the bot makes no search.
    For a standard delivery line [:nick!userhost PRIVMSG target :text],
    where [nick] holds no [!], the marker [PRIVMSG ] does not occur before
    the command word and [target] holds no colon: when the stripped target
    is not the bot's nickname (it is a channel of the bot, another channel,
    another user), the dispatcher returns normally, leaves the bot's state
    untouched, limiter included, and does nothing but send at most one line,
    a [PRIVMSG] to that target; no search is made and nothing is recorded.
    This is about lines of that shape only, see
    [marker_inside_a_notice_is_dispatched]. *)
Theorem delivery_to_others_makes_no_search {R : Type} (env : Env R)
    (nick userhost target text : str) (bot : SearchBot) :
  contains nick (py "!") = false ->
  contains (py ":" ++ nick ++ py "!" ++ userhost ++ py " PRIVMSG")
           (py "PRIVMSG ") = false ->
  contains target (py ":") = false ->
  str_eqb (strip target) (nickname bot) = false ->
  exists acts,
    dispatch_line env (delivery_line nick userhost target text) bot =
      (Returned tt, bot, acts) /\
    (length acts <= 1)%nat /\
    Forall (fun a => exists payload, a = Sent (privmsg (strip target) payload))
           acts.
Proof.
  intros H1 H2 H3 Hother.
  rewrite (dispatch_delivery_line env _ _ _ _ bot H1 H2 H3).
  unfold route. rewrite Hother.
  destruct (existsb (str_eqb (strip target)) (channels bot)).
  - unfold handle_channel_message, send, emit, ret.
    destruct (str_eqb (strip text) (py "!help")).
    + eexists. split; [reflexivity|]. split; [cbn; lia|].
      repeat constructor. eexists. reflexivity.
    + destruct (startswith (strip text) (py "!search")).
      * eexists. split; [reflexivity|]. split; [cbn; lia|].
        repeat constructor. eexists. reflexivity.
      * exists []. split; [reflexivity|]. split; [cbn; lia | constructor].
  - exists []. split; [reflexivity|]. split; [cbn; lia | constructor].
Qed.

Lemma delivery_to_others_makes_no_search_witness :
  exists acts,
    dispatch_line (frozen_env 0)
      (delivery_line (py "alice") (py "u@h") (py "#test_room")
                     (py "!search cats"))
      SearchBot_init = (Returned tt, SearchBot_init, acts) /\
    (length acts <= 1)%nat.
Proof.
  destruct (delivery_to_others_makes_no_search (frozen_env 0) (py "alice")
              (py "u@h") (py "#test_room") (py "!search cats")
              SearchBot_init) as (acts & H & Hlen & _);
    try reflexivity.
  exists acts. split; assumption.
Defined.

(** The shape matters: the dispatcher looks for the marker anywhere in a
    line (lines 334-337), not in the command position. A notice sent to a
    channel whose text is itself [PRIVMSG SearchBot :!search cats] is
    handled as a private search by its sender. *)
Lemma marker_inside_a_notice_is_dispatched :
  dispatch_line (frozen_env 0)
    (py ":mallory!u@h NOTICE #test_room :PRIVMSG SearchBot :!search cats")
    SearchBot_init =
  handle_private_message (frozen_env 0) (py "mallory") (py "!search cats")
    SearchBot_init /\
  snd (handle_private_message (frozen_env 0) (py "mallory")
         (py "!search cats") SearchBot_init) =
  [Searched (py "cats"); Recorded 0;
   Sent (privmsg (py "mallory") NO_RESULTS_NOTICE)].
Proof. split; reflexivity. Qed.

Lemma split_whitespace_word word : forall acc rest,
  forallb (fun c => negb (isspace c)) word = true ->
  split_whitespace_from acc (word ++ rest) =
  split_whitespace_from (rev word ++ acc) rest.
Proof.
  induction word as [|c word IH]; intros acc rest H; [reflexivity|].
  cbn in H. apply andb_true_iff in H as [Hc H].
  cbn [app split_whitespace_from]. destruct (isspace c); [discriminate|].
  rewrite (IH _ _ H). cbn [rev]. rewrite <- app_assoc. reflexivity.
Qed.

(** X12. The keepalive is answered with the probe's own token: for a line
    [PING token], where the token is non-empty, holds no whitespace and the
    line does not contain [PRIVMSG], exactly one line is sent, [PONG token],
    and the bot's state is untouched. *)
Theorem ping_is_answered_with_its_token {R : Type} (env : Env R)
    (token : str) (bot : SearchBot) :
  token <> [] ->
  forallb (fun c => negb (isspace c)) token = true ->
  contains (py "PING " ++ token) (py "PRIVMSG") = false ->
  dispatch_line env (py "PING " ++ token) bot =
  (Returned tt, bot, [Sent (py "PONG " ++ token)]).
Proof.
  intros Hne Hword Hmark.
  assert (Hsplit : split_whitespace (py "PING " ++ token) = [py "PING"; token]).
  { unfold split_whitespace.
    change (py "PING " ++ token) with (py "PING" ++ SPACE :: token).
    rewrite split_whitespace_word by reflexivity.
    cbn [split_whitespace_from rev app py map list_ascii_of_string].
    change (isspace SPACE) with true. cbn iota.
    f_equal. rewrite <- (app_nil_r token) at 1.
    rewrite split_whitespace_word by exact Hword.
    rewrite app_nil_r. cbn [split_whitespace_from].
    destruct (rev token) eqn:E.
    - apply (f_equal (@rev char)) in E. rewrite rev_involutive in E.
      contradiction.
    - rewrite <- E, rev_involutive. reflexivity. }
  unfold dispatch_line, bind.
  change (startswith (py "PING " ++ token) (py "PING")) with true.
  cbn iota. rewrite Hsplit, Hmark. reflexivity.
Qed.

Lemma ping_is_answered_with_its_token_witness :
  dispatch_line (frozen_env 0) (py "PING " ++ py ":irc.example.com")
    SearchBot_init =
  (Returned tt, SearchBot_init, [Sent (py "PONG " ++ py ":irc.example.com")]).
Proof.
  apply (ping_is_answered_with_its_token (frozen_env 0)
           (py ":irc.example.com") SearchBot_init).
  - discriminate.
  - reflexivity.
  - reflexivity.
Defined.

(** ** The result formatter *)

Lemma shorten_length limit keep s :
  (keep + 3 <= limit)%nat -> (length (Formatter.shorten limit keep s) <= limit)%nat.
Proof.
  intros H. unfold Formatter.shorten.
  destruct (Nat.ltb_spec limit (length s)); [|lia].
  rewrite length_app, length_firstn. cbn. lia.
Qed.

Lemma str_of_nat_digit n : (n <= 9)%nat -> length (str_of_nat n) = 1%nat.
Proof.
  intros H. do 10 (destruct n as [|n]; [reflexivity|]). lia.
Qed.

Lemma result_line_bounds (index : nat) (title url description : str) :
  let line := Formatter.result_line index title url description in
  line <> [] /\
  (length line <= length (str_of_nat index) + 420)%nat /\
  ((index <= 9)%nat -> (length line <= 421)%nat) /\
  ((length (Formatter.clean_description url description) <= 20)%nat ->
   (length line <= length (str_of_nat index) + 213)%nat /\
   ((index <= 9)%nat -> one_chunk line)).
Proof.
  intros line.
  pose proof (shorten_length 100 97 title ltac:(lia)) as Ht.
  pose proof (shorten_length 100 97 url ltac:(lia)) as Hu.
  assert (Hd : (length (Formatter.clean_description url description) <= 200)%nat)
    by (apply shorten_length; lia).
  set (head := str_of_nat index ++ py ". " ++ Formatter.COLOR ++
               Formatter.GREEN ++ Formatter.shorten 100 97 title ++
               Formatter.RESET ++ py " | " ++ Formatter.COLOR ++
               Formatter.BLUE ++ Formatter.shorten 100 97 url ++
               Formatter.RESET).
  assert (Hhead : (length head <= length (str_of_nat index) + 213)%nat).
  { subst head. rewrite !length_app. cbn [length Formatter.COLOR
      Formatter.GREEN Formatter.RESET Formatter.BLUE py map
      list_ascii_of_string]. lia. }
  assert (Hne : head <> []).
  { subst head. destruct (str_of_nat index); discriminate. }
  assert (Hline : line = head \/
                  line = head ++ py " | " ++ Formatter.COLOR ++
                         Formatter.GRAY ++
                         Formatter.clean_description url description ++
                         Formatter.RESET).
  { subst line. unfold Formatter.result_line. cbv zeta. fold head.
    destruct (Formatter.clean_description url description) as [|c d];
      [left; reflexivity|].
    destruct (20 <? length (c :: d))%nat; [right | left]; reflexivity. }
  assert (Hlong : (length line <= length (str_of_nat index) + 420)%nat).
  { destruct Hline as [-> | ->]; [lia|].
    rewrite !length_app. cbn [length Formatter.COLOR Formatter.GRAY
      Formatter.RESET py map list_ascii_of_string]. lia. }
  split; [destruct Hline as [-> | ->]; [exact Hne|];
          destruct head; [contradiction | discriminate]|].
  split; [exact Hlong|]. split.
  - intros Hi. rewrite (str_of_nat_digit index Hi) in Hlong. lia.
  - intros Hshort.
    assert (Hl : line = head).
    { subst line. unfold Formatter.result_line. cbv zeta. fold head.
      destruct (Formatter.clean_description url description) as [|c d];
        [reflexivity|].
      destruct (Nat.ltb_spec 20 (length (c :: d))); [lia | reflexivity]. }
    rewrite Hl. split; [exact Hhead|].
    intros Hi. rewrite (str_of_nat_digit index Hi) in Hhead.
    split; [exact Hne | unfold max_length; lia].
Qed.

(** X13. A formatted result is never empty and is bounded: whatever the
    lengths of the title, the URL and the description, the line is at most
    420 characters after its index, 421 for the indices 1 to 9 that the
    handler uses, so it can exceed the 400 of [send_private_message]. When
    the cleaned description has at most 20 characters it is left out, and
    the line, then at most 213 characters after its index, is sent as one
    [PRIVMSG]. *)
Theorem formatted_line_is_bounded (index : nat) (item : Formatter.Item)
    (line : str) :
  Formatter.format_search_result index item = Some line ->
  exists title url description,
    line = Formatter.result_line index title url description /\
    line <> [] /\
    (length line <= length (str_of_nat index) + 420)%nat /\
    ((index <= 9)%nat -> (length line <= 421)%nat) /\
    ((length (Formatter.clean_description url description) <= 20)%nat ->
     (length line <= length (str_of_nat index) + 213)%nat /\
     ((index <= 9)%nat -> one_chunk line)).
Proof.
  intros H. destruct item as [|t u d]; [discriminate|].
  cbn [Formatter.format_search_result] in H.
  destruct (Formatter.text_of t (py "No title")) as [title|]; [|discriminate].
  destruct (Formatter.text_of u (py "No URL")) as [url|]; [|discriminate].
  destruct (Formatter.text_of d []) as [desc|]; [|discriminate].
  injection H as <-.
  exists (strip title), (strip url), desc.
  split; [reflexivity | apply result_line_bounds].
Qed.

Lemma formatted_line_is_bounded_witness :
  let line := Formatter.result_line 3 (py "Cats") (py "No URL")
                (py "about cats") in
  exists title url description,
    line = Formatter.result_line 3 title url description /\
    line <> [] /\
    (length line <= length (str_of_nat 3) + 420)%nat /\
    ((3 <= 9)%nat -> (length line <= 421)%nat) /\
    ((length (Formatter.clean_description url description) <= 20)%nat ->
     (length line <= length (str_of_nat 3) + 213)%nat /\
     ((3 <= 9)%nat -> one_chunk line)).
Proof.
  intros line.
  apply (formatted_line_is_bounded 3
           (Formatter.Dict (Formatter.Text (py " Cats ")) Formatter.Missing
                           (Formatter.Text (py "about cats"))) line).
  reflexivity.
Defined.

Lemma split_whitespace_from_words s : forall word,
  Forall (fun c => isspace c = false) word ->
  Forall (fun w => w <> [] /\ Forall (fun c => isspace c = false) w)
         (split_whitespace_from word s).
Proof.
  induction s as [|c s IH]; intros word Hword; cbn [split_whitespace_from].
  - destruct word as [|x word]; [constructor|].
    constructor; [|constructor]. split.
    + intros E. apply (f_equal (@rev char)) in E.
      rewrite rev_involutive in E. discriminate.
    + apply Forall_rev. exact Hword.
  - destruct (isspace c) eqn:E.
    + destruct word as [|x word]; [apply IH; constructor|].
      constructor; [|apply IH; constructor]. split.
      * intros E'. apply (f_equal (@rev char)) in E'.
        rewrite rev_involutive in E'. discriminate.
      * apply Forall_rev. exact Hword.
    + apply IH. constructor; assumption.
Qed.

Lemma join_space_words words :
  Forall (fun w => w <> [] /\ Forall (fun c => isspace c = false) w) words ->
  Forall (fun c => isspace c = true -> c = SPACE) (join (py " ") words) /\
  (forall c rest, join (py " ") words = c :: rest -> isspace c = false).
Proof.
  induction 1 as [|w words [Hne Hw] Hwords [IH1 IH2]].
  - split; [constructor | discriminate].
  - assert (Hchars : Forall (fun c => isspace c = true -> c = SPACE) w).
    { eapply Forall_impl; [|exact Hw]. cbn. intros c Hc Hs. congruence. }
    assert (Hhead : forall c rest more, w ++ more = c :: rest ->
                                        isspace c = false).
    { intros c rest more E. destruct w as [|x w]; [contradiction|].
      injection E as <- _. inversion Hw; assumption. }
    destruct words as [|w' words].
    + cbn [join]. split; [exact Hchars|].
      intros c rest E. apply (Hhead c rest []). rewrite app_nil_r. exact E.
    + change (join (py " ") (w :: w' :: words))
        with (w ++ py " " ++ join (py " ") (w' :: words)).
      split.
      * apply Forall_app. split; [exact Hchars|].
        apply Forall_app. split; [|exact IH1].
        constructor; [reflexivity | constructor].
      * intros c rest E. eapply Hhead. exact E.
Qed.

Lemma Forall_firstn_keeps {A : Type} (P : A -> Prop) (n : nat) (l : list A) :
  Forall P l -> Forall P (firstn n l).
Proof.
  intros H. revert n. induction H as [|x l Hx Hl IH]; intros [|k]; cbn;
    try constructor; [exact Hx | apply IH].
Qed.

(** X14. The description shown to the user is a single line: after the
    clean-up of lines 235-247 it holds no line break, tab or other
    whitespace character except U+0020, it does not start with whitespace,
    and it has at most 200 characters, whatever the description and the URL
    in the result. *)
Theorem description_is_single_line (url description : str) :
  let shown := Formatter.clean_description url description in
  Forall (fun c => isspace c = true -> c = SPACE) shown /\
  (forall c rest, shown = c :: rest -> isspace c = false) /\
  (length shown <= 200)%nat.
Proof.
  intros shown. subst shown. unfold Formatter.clean_description.
  set (words := split_whitespace (replace (strip description) url [])).
  assert (Hwords : Forall (fun w => w <> [] /\
                                    Forall (fun c => isspace c = false) w)
                          words)
    by (apply split_whitespace_from_words; constructor).
  destruct (join_space_words words Hwords) as [Hchars Hhead].
  split; [|split].
  - unfold Formatter.shorten.
    destruct (200 <? length (join (py " ") words))%nat; [|exact Hchars].
    apply Forall_app. split.
    + apply Forall_firstn_keeps. exact Hchars.
    + repeat constructor; discriminate.
  - unfold Formatter.shorten.
    destruct (Nat.ltb_spec 200 (length (join (py " ") words)));
      [|exact Hhead].
    intros c rest E.
    destruct (join (py " ") words) as [|x l] eqn:Ej; [cbn in *; lia|].
    cbn in E. injection E as <- _. eapply Hhead. reflexivity.
  - apply shorten_length. lia.
Qed.

(** ** Connection, main loop and the limiter from end to end *)

Lemma quiet_ret {A : Type} (a : A) : quiet (ret a).
Proof. intros bot. exists (Returned a), []. split; reflexivity. Qed.

Lemma quiet_raise {A : Type} (e : Exn) : quiet (@raise A e).
Proof. intros bot. exists (Raised e), []. split; reflexivity. Qed.

Lemma quiet_send line : quiet (send line).
Proof. intros bot. exists (Returned tt), [Sent line]. split; reflexivity. Qed.

Lemma quiet_sleep ms : quiet (sleep ms).
Proof. intros bot. exists (Returned tt), [Slept ms]. split; reflexivity. Qed.

Lemma quiet_get_bot : quiet get_bot.
Proof. intros bot. exists (Returned bot), []. split; reflexivity. Qed.

Lemma quiet_bind {A B : Type} (m : M A) (k : A -> M B) :
  quiet m -> (forall a, quiet (k a)) -> quiet (bind m k).
Proof.
  intros Hm Hk bot. unfold bind.
  destruct (Hm bot) as (o1 & acts1 & E1 & H1). rewrite E1.
  destruct o1 as [a|e].
  - destruct (Hk a bot) as (o2 & acts2 & E2 & H2). rewrite E2.
    exists o2, (acts1 ++ acts2). split; [reflexivity|].
    rewrite forallb_app, H1, H2. reflexivity.
  - exists (Raised e), acts1. split; [reflexivity | exact H1].
Qed.

Lemma quiet_send_private_message target message :
  quiet (send_private_message target message).
Proof.
  intros bot.
  destruct (send_private_message_replies target message bot) as (acts & E & H).
  exists (Returned tt), acts. split; assumption.
Qed.

Lemma quiet_join_channels chans : quiet (join_channels chans).
Proof.
  induction chans as [|c chans IH]; cbn [join_channels].
  - apply quiet_ret.
  - apply quiet_bind; [apply quiet_send|]. intros _.
    apply quiet_bind; [apply quiet_sleep|]. intros _. exact IH.
Qed.

Lemma quiet_handshake received : forall buffer, quiet (handshake buffer received).
Proof.
  induction received as [|chunk rest IH]; intros buffer; cbn [handshake].
  - apply quiet_ret.
  - destruct (Utf8.decode chunk) as [temp|]; [|apply quiet_ret].
    assert (Hw : quiet
              (if contains (buffer ++ temp) (py "001")
               then bot <- get_bot ;; join_channels (channels bot) ;;
                    ret (Some true)
               else if contains (buffer ++ temp) (py "Closing Link") ||
                       contains (buffer ++ temp) (py "ERROR")
                    then ret (Some false)
                    else handshake (buffer ++ temp) rest)).
    { destruct (contains (buffer ++ temp) (py "001")).
      - apply quiet_bind; [apply quiet_get_bot|]. intros bot.
        apply quiet_bind; [apply quiet_join_channels|]. intros _.
        apply quiet_ret.
      - destruct (contains (buffer ++ temp) (py "Closing Link") ||
                  contains (buffer ++ temp) (py "ERROR"));
          [apply quiet_ret | apply IH]. }
    destruct (contains (buffer ++ temp) (py "PING")); [|exact Hw].
    destruct (ping_token (buffer ++ temp)); [|apply quiet_ret].
    apply quiet_bind; [apply quiet_send | intros _; exact Hw].
Qed.

Lemma quiet_connect link : quiet (connect link).
Proof.
  destruct link as [|received]; cbn [connect]; [apply quiet_ret|].
  apply quiet_bind; [apply quiet_get_bot|]. intros bot.
  apply quiet_bind; [apply quiet_send|]. intros _.
  apply quiet_bind; [apply quiet_send|]. intros _.
  apply quiet_handshake.
Qed.

Lemma quiet_handle_channel_message sender channel message :
  quiet (handle_channel_message sender channel message).
Proof.
  unfold handle_channel_message.
  destruct (str_eqb message (py "!help")); [apply quiet_send|].
  destruct (startswith message (py "!search"));
    [apply quiet_send | apply quiet_ret].
Qed.

Lemma recorded_actions_app xs ys :
  recorded_actions (xs ++ ys) = recorded_actions xs ++ recorded_actions ys.
Proof. apply flat_map_app. Qed.

Lemma recorded_actions_replies replies :
  forallb is_reply replies = true -> recorded_actions replies = [].
Proof.
  induction replies as [|a replies IH]; intros H; [reflexivity|].
  cbn in H. apply andb_true_iff in H as [Ha H].
  destruct a; try discriminate; cbn; apply IH; exact H.
Qed.

Lemma count_app p xs ys : count p (xs ++ ys) = (count p xs + count p ys)%nat.
Proof. unfold count. rewrite filter_app, length_app. reflexivity. Qed.

Lemma gated_compose calls : forall rl armed more,
  gated rl armed calls = true ->
  (forall armed', gated (run_calls rl calls) armed' more = true) ->
  gated rl armed (calls ++ more) = true.
Proof.
  induction calls as [|c cs IH]; intros rl armed more H Hmore.
  - apply Hmore.
  - destruct c as [t | t]; cbn [app gated] in *.
    + apply IH; [exact H | exact Hmore].
    + apply andb_true_iff in H as [-> H]. cbn. apply IH; [exact H | exact Hmore].
Qed.

Lemma clock_from_compose calls : forall last more,
  clock_from last calls = true ->
  clock_from (last_time last calls) more = true ->
  clock_from last (calls ++ more) = true.
Proof.
  induction calls as [|c cs IH]; intros last more H Hmore; [exact Hmore|].
  cbn [app clock_from] in *. apply andb_true_iff in H as [Hc H].
  rewrite Hc. cbn. apply IH; [exact H | exact Hmore].
Qed.

Lemma last_time_app last calls more :
  last_time last (calls ++ more) = last_time (last_time last calls) more.
Proof. unfold last_time. apply fold_left_app. Qed.

Section Tracking.

Context {R : Type}.
Variable env : Env R.

Lemma tracked_quiet {A : Type} (m : M A) : quiet m -> tracked env m.
Proof.
  intros Hq bot outcome bot' acts E.
  destruct (Hq bot) as (o & a & E' & Ha). rewrite E' in E.
  injection E as <- <- <-.
  destruct (replies_only _ Ha) as (_ & Hs & _).
  split; [lia|]. split.
  - rewrite (recorded_actions_replies _ Ha). exact Hs.
  - exists []. repeat split.
    + symmetry. apply recorded_actions_replies. exact Ha.
    + assumption.
Qed.

Lemma tracked_bind {A B : Type} (m : M A) (k : A -> M B) :
  tracked env m -> (forall a, tracked env (k a)) -> tracked env (bind m k).
Proof.
  intros Hm Hk bot outcome bot' acts E. unfold bind in E.
  destruct (m bot) as [[o1 bot1] acts1] eqn:E1.
  destruct (Hm _ _ _ _ E1) as (Ht1 & Hc1 & calls1 & Hrl1 & Hg1 & Hr1 & Hk1).
  destruct o1 as [a|e].
  - destruct (k a bot1) as [[o2 bot2] acts2] eqn:E2.
    injection E as <- <- <-.
    destruct (Hk a _ _ _ _ E2)
      as (Ht2 & Hc2 & calls2 & Hrl2 & Hg2 & Hr2 & Hk2).
    split; [lia|]. split.
    + rewrite count_app, recorded_actions_app, length_app. lia.
    + exists (calls1 ++ calls2). repeat split.
      * rewrite Hrl2, Hrl1. unfold run_calls. rewrite fold_left_app.
        reflexivity.
      * intros armed. apply gated_compose; [apply Hg1|].
        rewrite <- Hrl1. exact Hg2.
      * rewrite recorded_app, recorded_actions_app, Hr1, Hr2. reflexivity.
      * apply clock_from_compose; [apply Hk1; assumption|].
        apply Hk2; [assumption|]. apply Hk1; assumption.
      * rewrite last_time_app. apply Hk2; [assumption|].
        apply Hk1; assumption.
  - injection E as <- <- <-.
    split; [exact Ht1|]. split; [exact Hc1|].
    exists calls1. repeat split; try assumption; apply Hk1; assumption.
Qed.

Lemma tracked_try_except {A : Type} (m : M A) (catches : Exn -> bool)
    (handler : M A) :
  tracked env m -> tracked env handler ->
  tracked env (try_except m catches handler).
Proof.
  intros Hm Hh bot outcome bot' acts E. unfold try_except in E.
  destruct (m bot) as [[o1 bot1] acts1] eqn:E1.
  destruct o1 as [a|e].
  - injection E as <- <- <-. exact (Hm _ _ _ _ E1).
  - destruct (catches e).
    + assert (Hb : bind (fun b => (Returned tt, snd (fst (m b)), snd (m b)))
                        (fun _ => handler) bot = (outcome, bot', acts)).
      { unfold bind. rewrite E1. cbn [fst snd]. exact E. }
      revert Hb. apply tracked_bind; [|intros _; exact Hh].
      intros b o b' a' Eb. injection Eb as <- <- <-.
      destruct (m b) as [[o b''] a''] eqn:Em. cbn [fst snd].
      exact (Hm _ _ _ _ Em).
    + injection E as <- <- <-. exact (Hm _ _ _ _ E1).
Qed.

Lemma tracked_handle_private_message sender message :
  tracked env (handle_private_message env sender message).
Proof.
  intros bot outcome bot' acts E.
  set (t0 := ticks bot).
  set (check := can_make_request (rate_limiter bot) (now env t0)).
  assert (Hcheck : forall replies,
             forallb is_reply replies = true ->
             (outcome, bot', acts) =
               (Returned tt, bot_after bot (fst check) 1, replies) ->
             (ticks bot <= ticks bot')%nat /\
             count is_Searched acts = length (recorded_actions acts) /\
             exists calls,
               rate_limiter bot' = run_calls (rate_limiter bot) calls /\
               (forall armed, gated (rate_limiter bot) armed calls = true) /\
               recorded calls = recorded_actions acts /\
               ((forall i j, (i <= j)%nat -> now env i <= now env j) ->
                forall last, last <= now env (ticks bot) ->
                             clock_from last calls = true /\
                             last_time last calls <= now env (ticks bot'))).
  { intros replies Hr Eq. injection Eq as -> -> ->.
    destruct (replies_only _ Hr) as (_ & Hs & _).
    rewrite (recorded_actions_replies _ Hr).
    split; [cbn; lia|]. split; [exact Hs|].
    exists [CanMakeRequest (now env t0)].
    split; [reflexivity|]. split; [reflexivity|]. split; [reflexivity|].
    intros clock_monotone last Hlast. split.
    - cbn. apply Z.leb_le in Hlast. fold t0 in Hlast. rewrite Hlast.
      reflexivity.
    - cbn. apply clock_monotone. lia. }
  destruct (startswith message (py "!search ")) eqn:Hcmd.
  - destruct (snd check) eqn:Hok.
    + destruct (strip (skipn 8 message)) as [|c q] eqn:Hq.
      * rewrite (handle_private_message_usage env sender message bot
                   Hcmd Hok Hq) in E.
        apply (Hcheck [Sent (privmsg sender USAGE_NOTICE)]);
          [reflexivity | symmetry; exact E].
      * assert (Hne : strip (skipn 8 message) <> [])
          by (rewrite Hq; discriminate).
        set (t2 := now env (S (S t0))).
        assert (Hshape : exists replies,
                   forallb is_reply replies = true /\
                   (outcome, bot', acts) =
                   (Returned tt,
                    bot_after bot (add_request (fst check) t2) 3,
                    Searched (strip (skipn 8 message)) :: Recorded t2 ::
                    replies)).
        { destruct (search_results (hearch env (S t0)
                      (strip (skipn 8 message)))) as [|r rs] eqn:Hres.
          - rewrite (handle_private_message_no_results env sender message
                       bot Hcmd Hok Hne Hres) in E.
            eexists. split; [|symmetry; exact E]. reflexivity.
          - destruct (handle_private_message_results env sender message
                        bot Hcmd Hok Hne) as (replies & Hr & Hreplies).
            + fold t0. rewrite Hres. discriminate.
            + rewrite Hr in E. exists replies.
              split; [exact Hreplies | symmetry; exact E]. }
        destruct Hshape as (replies & Hr & Eq). injection Eq as -> -> ->.
        destruct (replies_only _ Hr) as (_ & Hs & _).
        unfold count in *. cbn [filter is_Searched is_Recorded length
          recorded_actions flat_map app].
        fold (recorded_actions replies).
        rewrite (recorded_actions_replies _ Hr), Hs.
        split; [cbn; lia|]. split; [reflexivity|].
        exists [CanMakeRequest (now env t0); AddRequest t2].
        split; [reflexivity|]. split; [|split; [reflexivity|]].
        -- intros armed. cbn [gated]. fold check. rewrite Hok. reflexivity.
        -- intros clock_monotone last Hlast. split.
           ++ cbn [clock_from call_time]. fold t0 in Hlast.
              apply Z.leb_le in Hlast. rewrite Hlast. cbn.
              rewrite andb_true_r. apply Z.leb_le.
              subst t2. apply clock_monotone. lia.
           ++ cbn. subst t2. apply clock_monotone. lia.
    + rewrite (handle_private_message_denied env sender message bot
                 Hcmd Hok) in E.
      apply (Hcheck [Sent (privmsg sender RATE_LIMIT_NOTICE)]);
        [reflexivity | symmetry; exact E].
  - revert E. apply tracked_quiet. intros b.
    destruct (handle_private_message_other env sender message b Hcmd)
      as (replies & Hr & Hreplies).
    exists (Returned tt), replies. split; assumption.
Qed.

Lemma tracked_dispatch_line line : tracked env (dispatch_line env line).
Proof.
  unfold dispatch_line. apply tracked_bind.
  - apply tracked_quiet.
    destruct (startswith line (py "PING")); [|apply quiet_ret].
    destruct (nth_error (split_whitespace line) 1);
      [apply quiet_send | apply quiet_raise].
  - intros _.
    destruct (contains line (py "PRIVMSG")); [|apply tracked_quiet, quiet_ret].
    apply tracked_try_except; [|apply tracked_quiet, quiet_ret].
    destruct (nth_error (split1 line (py "PRIVMSG ")) 1) as [msg_parts|];
      [|apply tracked_quiet, quiet_raise].
    destruct (split1 msg_parts (py ":")) as [|target [|message [|x l]]];
      try (apply tracked_quiet, quiet_raise).
    apply tracked_bind; [apply tracked_quiet, quiet_get_bot|]. intros bot.
    destruct (str_eqb (strip target) (nickname bot));
      [apply tracked_handle_private_message|].
    destruct (existsb (str_eqb (strip target)) (channels bot));
      [apply tracked_quiet, quiet_handle_channel_message
      |apply tracked_quiet, quiet_ret].
Qed.

Lemma tracked_dispatch_lines lines : tracked env (dispatch_lines env lines).
Proof.
  induction lines as [|line rest IH]; cbn [dispatch_lines].
  - apply tracked_quiet, quiet_ret.
  - apply tracked_bind; [apply tracked_dispatch_line | intros _; exact IH].
Qed.

Lemma tracked_run_pass buffer chunk : tracked env (run_pass env buffer chunk).
Proof.
  unfold run_pass. apply tracked_try_except.
  - apply tracked_bind; [apply tracked_dispatch_lines|].
    intros _. apply tracked_quiet, quiet_ret.
  - apply tracked_quiet. apply quiet_bind; [apply quiet_sleep|].
    intros _. apply quiet_ret.
Qed.

Lemma tracked_receive_loop traffic : forall buffer,
  tracked env (receive_loop env buffer traffic).
Proof.
  induction traffic as [|chunk rest IH]; intros buffer; cbn [receive_loop].
  - apply tracked_quiet, quiet_ret.
  - apply tracked_bind; [apply tracked_run_pass|].
    intros [b|]; [apply IH | apply tracked_quiet, quiet_ret].
Qed.

Lemma tracked_run connections : tracked env (run env connections).
Proof.
  induction connections as [|[link traffic] rest IH]; cbn [run].
  - apply tracked_quiet, quiet_ret.
  - apply tracked_bind; [apply tracked_quiet, quiet_connect|].
    intros [[|]|]; [|exact IH | apply tracked_quiet, quiet_ret].
    apply tracked_bind; [apply tracked_receive_loop|].
    intros [b|]; [apply tracked_quiet, quiet_ret | exact IH].
Qed.

End Tracking.

Lemma join_channels_joins chans bot :
  join_channels chans bot = (Returned tt, bot, joins chans).
Proof.
  induction chans as [|c chans IH]; [reflexivity|].
  cbn [join_channels]. unfold bind, send, sleep, emit. rewrite IH. reflexivity.
Qed.

Lemma bind_send_run {A : Type} (line : str) (k : M A) bot r b acts :
  k bot = (r, b, acts) ->
  bind (send line) (fun _ => k) bot = (r, b, Sent line :: acts).
Proof. intros E. unfold bind, send, emit. rewrite E. reflexivity. Qed.

Lemma handshake_shape received : forall buffer bot,
  exists result pongs,
    handshake buffer received bot =
      (Returned result, bot,
       pongs ++ match result with
                | Some true => joins (channels bot)
                | _ => []
                end) /\
    Forall is_pong pongs.
Proof.
  induction received as [|chunk rest IH]; intros buffer bot; cbn [handshake].
  - exists None, []. split; [reflexivity | constructor].
  - destruct (Utf8.decode chunk) as [temp|];
      [|exists (Some false), []; split; [reflexivity | constructor]].
    assert (Hw : exists result pongs,
              (if contains (buffer ++ temp) (py "001")
               then b <- get_bot ;; join_channels (channels b) ;;
                    ret (Some true)
               else if contains (buffer ++ temp) (py "Closing Link") ||
                       contains (buffer ++ temp) (py "ERROR")
                    then ret (Some false)
                    else handshake (buffer ++ temp) rest) bot =
              (Returned result, bot,
               pongs ++ match result with
                        | Some true => joins (channels bot)
                        | _ => []
                        end) /\
              Forall is_pong pongs).
    { destruct (contains (buffer ++ temp) (py "001")).
      - exists (Some true), []. split; [|constructor].
        unfold bind, get_bot, ret. rewrite join_channels_joins.
        cbn [app]. rewrite app_nil_r. reflexivity.
      - destruct (contains (buffer ++ temp) (py "Closing Link") ||
                  contains (buffer ++ temp) (py "ERROR")).
        + exists (Some false), []. split; [reflexivity | constructor].
        + apply IH. }
    destruct (contains (buffer ++ temp) (py "PING")); [|exact Hw].
    destruct (ping_token (buffer ++ temp)) as [token|];
      [|exists (Some false), []; split; [reflexivity | constructor]].
    destruct Hw as (result & pongs & E & Hp).
    exists result, (Sent (py "PONG " ++ token) :: pongs). split.
    + cbn [app]. apply bind_send_run. exact E.
    + constructor; [exists token; reflexivity | exact Hp].
Qed.

(** X15. [connect] never raises and never touches the bot's state. When it
    returns [True] it has sent, after the two registration lines and its
    keepalive answers, one [JOIN] for every configured channel, in order,
    each followed by a one-second sleep, and nothing after them; when it
    does not return [True] it has sent no [JOIN], and when the connection
    attempt itself fails it has sent nothing at all. *)
Theorem connect_joins_exactly_on_success (link : Link) (bot bot' : SearchBot)
    (outcome : Outcome (option bool)) (acts : list Action) :
  connect link bot = (outcome, bot', acts) ->
  bot' = bot /\
  exists result pongs,
    outcome = Returned result /\
    Forall is_pong pongs /\
    match link with
    | Refused => result = Some false /\ acts = []
    | Opened _ =>
        acts =
        Sent (py "NICK " ++ nickname bot) ::
        Sent (py "USER " ++ nickname bot ++ py " 0 * :MansionNet Search Bot") ::
        pongs ++
        match result with
        | Some true => joins (channels bot)
        | _ => []
        end
    end.
Proof.
  intros E. destruct link as [|received]; cbn [connect] in E.
  - injection E as <- <- <-. split; [reflexivity|].
    exists (Some false), []. repeat split. constructor.
  - unfold bind, get_bot, send, emit in E.
    destruct (handshake_shape received [] bot) as (result & pongs & Eh & Hp).
    rewrite Eh in E. injection E as <- <- <-. split; [reflexivity|].
    exists result, pongs. repeat split; assumption.
Qed.

Lemma connect_joins_exactly_on_success_witness :
  exists result pongs,
    Returned (Some true) = Returned result /\
    Forall is_pong pongs /\
    [Sent (py "NICK SearchBot");
     Sent (py "USER SearchBot 0 * :MansionNet Search Bot");
     Sent (py "PONG :abc"); Sent (py "JOIN #test_room"); Slept 1000] =
    Sent (py "NICK " ++ nickname SearchBot_init) ::
    Sent (py "USER " ++ nickname SearchBot_init ++
          py " 0 * :MansionNet Search Bot") ::
    pongs ++ match result with
             | Some true => joins (channels SearchBot_init)
             | _ => []
             end.
Proof.
  apply (connect_joins_exactly_on_success
           (Opened [wire "PING :abc :irc.example.com 001 SearchBot :Welcome"])
           SearchBot_init SearchBot_init).
  reflexivity.
Defined.

Lemma recorded_actions_length acts :
  length (recorded_actions acts) = count is_Recorded acts.
Proof.
  unfold count, recorded_actions.
  induction acts as [|a acts IH]; [reflexivity|].
  destruct a; cbn; rewrite ?IH; reflexivity.
Qed.

(** X16. The budget holds from end to end. Let the bot start with a fresh
    limiter of non-negative capacities and let the clock never go back.
    Whatever the network does (refused connections, any bytes during the
    handshakes and the sessions, reconnections), after [run] has processed
    it the timestamps recorded lie at most [requests_per_minute] in any
    trailing minute and at most [requests_per_day] in any trailing day,
    seen from any time not before the next clock reading; the limiter is
    the one the bot started with, driven only through checks and records
    that follow an approving check, reconnections included. *)
Theorem run_respects_the_budget {R : Type} (env : Env R)
    (connections : list (Link * list (list byte)))
    (rpm rpd : Z) (bot bot' : SearchBot)
    (outcome : Outcome unit) (acts : list Action) (t : Z) :
  (forall i j, (i <= j)%nat -> now env i <= now env j) ->
  0 <= rpm -> 0 <= rpd ->
  rate_limiter bot = RateLimiter_init rpm rpd ->
  run env connections bot = (outcome, bot', acts) ->
  now env (ticks bot') <= t ->
  count_within (timedelta_minutes 1) t (recorded_actions acts) <= rpm /\
  count_within (timedelta_days 1) t (recorded_actions acts) <= rpd /\
  exists calls,
    rate_limiter bot' = run_calls (RateLimiter_init rpm rpd) calls /\
    gated (RateLimiter_init rpm rpd) false calls = true /\
    recorded calls = recorded_actions acts.
Proof.
  intros Hmono Hm Hd Hfresh E Ht.
  destruct (tracked_run env connections _ _ _ _ E)
    as (_ & _ & calls & Hrl & Hg & Hr & Hclock).
  rewrite Hfresh in Hrl, Hg.
  destruct (Hclock Hmono (now env (ticks bot)) (Z.le_refl _)) as [Hc Hlast].
  destruct (budget_ok_run calls (now env (ticks bot)) false []
              (RateLimiter_init rpm rpd)
              (budget_ok_init rpm rpd _ Hm Hd) (Hg false) Hc)
    as (armed' & Hok).
  cbn [app] in Hok. rewrite Hr in Hok.
  pose proof (budget_ok_bound _ _ _ _ t Hok ltac:(lia)) as Hb.
  destruct (run_calls_capacities calls (RateLimiter_init rpm rpd)) as [E1 E2].
  rewrite E1, E2 in Hb. cbn in Hb.
  split; [apply Hb|]. split; [apply Hb|].
  exists calls. repeat split; [exact Hrl | apply Hg | exact Hr].
Qed.

Lemma run_respects_the_budget_witness :
  let env := mkEnv unit (fun k => Z.of_nat k * 1000000)
                   (fun _ _ => RequestFailed) (fun _ _ => None) in
  let traffic :=
    [wire ":alice!u@h PRIVMSG SearchBot :!search a" ++
     wire ":alice!u@h PRIVMSG SearchBot :!search b";
     wire ":alice!u@h PRIVMSG SearchBot oops";
     wire ":alice!u@h PRIVMSG SearchBot :!search lost"] in
  let connections :=
    [(Refused, []);
     (Opened [wire ":irc.example.com 001 SearchBot :Welcome"], traffic);
     (Opened [wire ":irc.example.com 001 SearchBot :Welcome"],
      [wire ":alice!u@h PRIVMSG SearchBot :!search c"])] in
  let result := run env connections SearchBot_init in
  recorded_actions (snd result) = [2000000; 5000000; 8000000] /\
  count_within (timedelta_minutes 1) 9000000 (recorded_actions (snd result))
    <= 5.
Proof.
  intros env traffic connections result.
  split; [vm_compute; reflexivity|].
  refine (proj1 (run_respects_the_budget env connections 5 500 SearchBot_init
                   (snd (fst result)) (fst (fst result)) (snd result) 9000000
                   _ _ _ _ _ _)).
  - intros i j Hij. cbn. lia.
  - lia.
  - lia.
  - reflexivity.
  - subst result. destruct (run env connections SearchBot_init) as [[o b] a].
    reflexivity.
  - vm_compute. discriminate.
Defined.

(** X17. Requests and records go in pairs: over any run of the bot, whatever
    it receives, the number of requests made to the search API equals the
    number of timestamps recorded in the limiter. No search goes
    uncounted, and nothing is counted without a search. *)
Theorem every_search_is_recorded {R : Type} (env : Env R)
    (connections : list (Link * list (list byte))) (bot : SearchBot) :
  count is_Searched (snd (run env connections bot)) =
  count is_Recorded (snd (run env connections bot)).
Proof.
  destruct (run env connections bot) as [[outcome bot'] acts] eqn:E.
  destruct (tracked_run env connections _ _ _ _ E) as (_ & Hpair & _).
  cbn [snd]. rewrite Hpair. apply recorded_actions_length.
Qed.
